(** * Feature extraction of the voice-conversion training pipeline

    A shallow embedding of [modules/training/extract.py]: the pitch
    extraction [extract_f0] with its worker [FeatureInput.go], the coarse
    pitch quantisation [FeatureInput.coarse_f0], and the embedding
    extraction [extract_feature] with its worker [process].

    The program is a batch script over a directory tree, so the model is a
    state-and-error monad over a file system and an event log.  The pitch
    trackers, the audio decoders and the pretrained encoders are external
    libraries: they are the fields of the class [Libraries].  The workers,
    which the program runs side by side on disjoint batches, are run here
    one after the other. *)

From Stdlib Require Import Reals Lra R_Ifp.
From Stdlib Require Import ZArith String Ascii List.
From stdpp Require Import gmap strings list.

Local Open Scope string_scope.

(** ** Python strings *)

Module Str.

(** [s.startswith(p)] *)
Fixpoint startswith (p s : string) : bool :=
  match p, s with
  | EmptyString, _ => true
  | String a p', String b s' => if Ascii.eqb a b then startswith p' s' else false
  | String _ _, EmptyString => false
  end.

(** [p in s] for strings: [p] occurs in [s] as a substring. *)
Fixpoint contains (p s : string) : bool :=
  startswith p s ||
  match s with
  | EmptyString => false
  | String _ s' => contains p s'
  end.

(** [s.endswith(p)] *)
Fixpoint endswith (p s : string) : bool :=
  match s with
  | EmptyString => String.eqb p EmptyString
  | String _ s' => String.eqb p s || endswith p s'
  end.

(** The string [s] without its first [n] characters, [s[n:]]. *)
Fixpoint drop (n : nat) (s : string) : string :=
  match n, s with
  | O, _ => s
  | S n', String _ s' => drop n' s'
  | S _, EmptyString => EmptyString
  end.

(** [s.replace(old, new)] for a non-empty [old]: the occurrences of [old]
    are replaced from left to right, without overlap.  The recursion is on
    a fuel that bounds the length of [s]. *)
Fixpoint replace_fuel (fuel : nat) (old new s : string) : string :=
  match fuel with
  | O => s
  | S fuel' =>
      match s with
      | EmptyString => EmptyString
      | String c s' =>
          if startswith old s
          then new ++ replace_fuel fuel' old new (drop (String.length old) s)
          else String c (replace_fuel fuel' old new s')
      end
  end.

Definition replace (old new s : string) : string :=
  replace_fuel (String.length s) old new s.

(** [s.rstrip("/")] *)
Fixpoint rstrip_slash (s : string) : string :=
  match s with
  | EmptyString => EmptyString
  | String c s' =>
      match rstrip_slash s' with
      | EmptyString => if Ascii.eqb c "/" then EmptyString else String c EmptyString
      | r => String c r
      end
  end.

(** [(s[:i], s[i:])] for [i = s.rfind("/") + 1]. *)
Fixpoint rsplit_slash (s : string) : string * string :=
  match s with
  | EmptyString => (EmptyString, EmptyString)
  | String c s' =>
      match rsplit_slash s' with
      | (EmptyString, t) =>
          if Ascii.eqb c "/" then (String c EmptyString, t) else (EmptyString, String c t)
      | (h, t) => (String c h, t)
      end
  end.

(** Insertion of a string in a list ordered by [String.leb], the order of
    Python's [sorted] on strings of one-byte characters. *)
Fixpoint insert_sorted (x : string) (l : list string) : list string :=
  match l with
  | [] => [x]
  | y :: l' => if String.leb x y then x :: l else y :: insert_sorted x l'
  end.

(** [sorted(l)] *)
Definition sorted (l : list string) : list string :=
  foldr insert_sorted [] l.

End Str.

(** ** [os.path] (posixpath) *)

Module Path.

(** [os.path.join(a, b)] *)
Definition join (a b : string) : string :=
  if Str.startswith "/" b then b
  else if String.eqb a "" || Str.endswith "/" a then a ++ b
  else a ++ "/" ++ b.

(** [os.path.split(p)]: the head loses its trailing slashes unless it
    consists of slashes only. *)
Definition split (p : string) : string * string :=
  let '(head, tail) := Str.rsplit_slash p in
  match Str.rstrip_slash head with
  | EmptyString => (head, tail)
  | stripped => (stripped, tail)
  end.

(** [os.path.dirname(p)] *)
Definition dirname (p : string) : string := fst (split p).

(** [os.path.basename(p)] *)
Definition basename (p : string) : string := snd (split p).

End Path.

(** ** NumPy floating-point values

    A float is a real number, an infinity or NaN.  Rounding of the
    arithmetic is not modelled and the two zeros are one; a division of a
    non-zero number by zero gives the infinity of the sign of the
    numerator, as NumPy does for a positive zero. *)

Module Np.

Inductive npfloat : Type :=
| Real (x : R)
| PosInf
| NegInf
| NaN.

Definition of_int (z : Z) : npfloat := Real (IZR z).

Definition isnan (a : npfloat) : bool :=
  match a with NaN => true | _ => false end.

Definition fneg (a : npfloat) : npfloat :=
  match a with
  | Real x => Real (- x)
  | PosInf => NegInf
  | NegInf => PosInf
  | NaN => NaN
  end.

Definition fadd (a b : npfloat) : npfloat :=
  match a, b with
  | NaN, _ | _, NaN => NaN
  | Real x, Real y => Real (x + y)
  | PosInf, NegInf | NegInf, PosInf => NaN
  | PosInf, _ | _, PosInf => PosInf
  | NegInf, _ | _, NegInf => NegInf
  end.

Definition fsub (a b : npfloat) : npfloat := fadd a (fneg b).

(** The infinity [inf] multiplied by the sign of the real [y]. *)
Definition signed_inf (inf : npfloat) (y : R) : npfloat :=
  if Rlt_dec 0 y then inf
  else if Rlt_dec y 0 then fneg inf
  else NaN.

Definition fmul (a b : npfloat) : npfloat :=
  match a, b with
  | NaN, _ | _, NaN => NaN
  | Real x, Real y => Real (x * y)
  | Real x, PosInf | PosInf, Real x => signed_inf PosInf x
  | Real x, NegInf | NegInf, Real x => signed_inf NegInf x
  | PosInf, PosInf | NegInf, NegInf => PosInf
  | PosInf, NegInf | NegInf, PosInf => NegInf
  end.

Definition fdiv (a b : npfloat) : npfloat :=
  match a, b with
  | NaN, _ | _, NaN => NaN
  | Real x, Real y =>
      if Req_dec_T y 0 then signed_inf PosInf x else Real (x / y)
  | Real _, (PosInf | NegInf) => Real 0
  | PosInf, Real y => if Rlt_dec y 0 then NegInf else PosInf
  | NegInf, Real y => if Rlt_dec y 0 then PosInf else NegInf
  | (PosInf | NegInf), (PosInf | NegInf) => NaN
  end.

(** [a < b]; a comparison with NaN is false. *)
Definition flt (a b : npfloat) : bool :=
  match a, b with
  | Real x, Real y => if Rlt_dec x y then true else false
  | NegInf, (Real _ | PosInf) => true
  | Real _, PosInf => true
  | _, _ => false
  end.

(** [a <= b] *)
Definition fle (a b : npfloat) : bool :=
  match a, b with
  | Real x, Real y => if Rle_dec x y then true else false
  | NegInf, (Real _ | PosInf | NegInf) => true
  | (Real _ | PosInf), PosInf => true
  | _, _ => false
  end.

(** [a > b] *)
Definition fgt (a b : npfloat) : bool := flt b a.

(** [np.log] *)
Definition log (a : npfloat) : npfloat :=
  match a with
  | Real x =>
      if Rlt_dec 0 x then Real (ln x)
      else if Rlt_dec x 0 then NaN
      else NegInf
  | PosInf => PosInf
  | NegInf | NaN => NaN
  end.

(** The integer nearest to [x], the even one of the two when [x] is half
    way between them. *)
Definition round_half_even (x : R) : Z :=
  let n := Int_part x in
  let frac := (x - IZR n)%R in
  if Rlt_dec frac (1 / 2) then n
  else if Rlt_dec (1 / 2) frac then (n + 1)%Z
  else if Z.even n then n else (n + 1)%Z.

(** [np.rint] *)
Definition rint (a : npfloat) : npfloat :=
  match a with
  | Real x => Real (IZR (round_half_even x))
  | other => other
  end.

Definition INT64_MIN : Z := (- 2 ^ 63)%Z.

(** The real [x] rounded toward zero. *)
Definition trunc (x : R) : Z :=
  if Rle_dec 0 x then Int_part x else (- Int_part (- x))%Z.

(** [.astype(np.int)] of one entry: the conversion of C to a 64-bit
    integer.  What it gives for NaN, for the infinities and out of range
    is left open by C; it is the least integer on x86-64. *)
Definition astype_int (a : npfloat) : Z :=
  match a with
  | Real x =>
      let z := trunc x in
      if (INT64_MIN <=? z)%Z && (z <? 2 ^ 63)%Z then z else INT64_MIN
  | _ => INT64_MIN
  end.

(** [a.max()] and [a.min()] of an array of integers; NumPy refuses the
    empty array. *)
Definition amax (l : list Z) : option Z :=
  match l with
  | [] => None
  | x :: l' => Some (foldl Z.max x l')
  end.

Definition amin (l : list Z) : option Z :=
  match l with
  | [] => None
  | x :: l' => Some (foldl Z.min x l')
  end.

(** [np.isnan(a).sum()] of a two-dimensional array. *)
Definition count_nan (a : list (list npfloat)) : nat :=
  length (filter (λ v, isnan v = true) (concat a)).

(** [np.pad(a, [[before, after]], mode="constant")] of a one-dimensional
    array; NumPy refuses a negative width. *)
Definition pad (a : list npfloat) (before after : Z) : option (list npfloat) :=
  if (before <? 0)%Z || (after <? 0)%Z then None
  else Some (replicate (Z.to_nat before) (Real 0) ++ a
             ++ replicate (Z.to_nat after) (Real 0))%list.

End Np.

(** ** Exceptions and results

    The exceptions the program meets are instances of Python's
    [Exception]: those of the operating system, failed assertions, the
    errors NumPy reports, and whatever an external library raises. *)

Inductive exn : Type :=
| FileNotFoundError (p : string)
| FileExistsError (p : string)
| NotADirectoryError (p : string)
| IsADirectoryError (p : string)
| AssertionError
| ValueError
| UnboundLocalError (name : string)
| ZeroDivisionError
| RecursionError
| RuntimeError
| LibraryError (msg : string).

Inductive result (A : Type) : Type :=
| Ok (a : A)
| Raise (e : exn).

Arguments Ok {A} a.
Arguments Raise {A} e.

(** ** The file system and the event log *)

(** What a file holds: the bytes of a file the program did not write, or
    an array saved by [np.save]. *)
Inductive content : Type :=
| Bytes (b : string)
| NpyFloat (a : list Np.npfloat)
| NpyInt (a : list Z)
| NpyFloat2 (a : list (list Np.npfloat)).

Inductive node : Type :=
| Dir
| File (c : content).

(** A work item of the pitch extraction: [(inp_path, opt_path1, opt_path2)]. *)
Definition work_item : Type := string * string * string.

Inductive message : Type :=
| F0Failed (idx : nat) (inp_path : string) (e : exn)
| ContainsNan (file : string)
| ErrorFile (e : exn) (file : string)
| Traceback (e : exn).

(** What the program does to the outside, in the order it does it. *)
Inductive event : Type :=
| EvPitch (path : string) (f0_method : string)
| EvSave (path : string) (c : content)
| EvPrint (m : message)
| EvLoadModel (name : string)
| EvEmbed (wav_path : string)
| EvStartProcess (rank : nat) (paths : list work_item)
| EvStartGpuWorker (rank : nat) (todo : list string).

(** The file system maps a path to its node.  Paths are compared as
    strings, without normalisation: the program derives every path it uses
    from [training_dir] with [os.path.join], so that it names one file by
    one string. *)
Record world : Type := World {
  files : gmap string node;
  log : list event;
}.

(** A computation reads and changes the world, and returns or raises; what
    it did before raising stays done. *)
Definition M (A : Type) : Type := world → world * result A.

Definition ret {A} (a : A) : M A := λ w, (w, Ok a).

Definition raise {A} (e : exn) : M A := λ w, (w, Raise e).

Definition bind {A B} (m : M A) (k : A → M B) : M B :=
  λ w, match m w with
       | (w', Ok a) => k a w'
       | (w', Raise e) => (w', Raise e)
       end.

Notation "x <- m ;; k" := (bind m (λ x, k))
  (at level 100, m at next level, right associativity, only parsing).
Notation "m ;;; k" := (bind m (λ _, k))
  (at level 100, right associativity, only parsing).

(** [try: m except: h] and [try: m except Exception as e: h]: every
    exception is an instance of [Exception]. *)
Definition try_except {A} (m : M A) (h : exn → M A) : M A :=
  λ w, match m w with
       | (w', Ok a) => (w', Ok a)
       | (w', Raise e) => h e w'
       end.

(** The result of a call that has no effect. *)
Definition lift {A} (r : result A) : M A := λ w, (w, r).

Definition emit (e : event) : M unit :=
  λ w, (World (files w) (log w ++ [e]), Ok tt).

Definition print (m : message) : M unit := emit (EvPrint m).

(** [assert b] *)
Definition assert (b : bool) : M unit :=
  if b then ret tt else raise AssertionError.

(** [for x in l: body x], left when [body] raises. *)
Fixpoint for_each {A} (l : list A) (body : A → M unit) : M unit :=
  match l with
  | [] => ret tt
  | x :: l' => body x ;;; for_each l' body
  end.

(** [for i, x in enumerate(l): body i x], the count starting at [i]. *)
Fixpoint for_enumerate {A} (i : nat) (l : list A) (body : nat → A → M unit) : M unit :=
  match l with
  | [] => ret tt
  | x :: l' => body i x ;;; for_enumerate (S i) l' body
  end.

Module Os.

(** [os.path.exists(p)] *)
Definition path_exists (f : gmap string node) (p : string) : bool :=
  bool_decide (is_Some (f !! p)).

(** [os.path.isdir(p)] *)
Definition isdir (f : gmap string node) (p : string) : bool :=
  match f !! p with
  | Some Dir => true
  | _ => false
  end.

Definition exists_ (p : string) : M bool := λ w, (w, Ok (path_exists (files w) p)).

Definition isdir_ (p : string) : M bool := λ w, (w, Ok (isdir (files w) p)).

(** Whether an entry can be created at [p]: its parent is a directory; a
    path without a directory part is relative to the working directory. *)
Definition parent_error (f : gmap string node) (p : string) : option exn :=
  let d := Path.dirname p in
  if String.eqb d "" then None
  else match f !! d with
       | Some Dir => None
       | Some (File _) => Some (NotADirectoryError p)
       | None => Some (FileNotFoundError p)
       end.

(** [os.mkdir(p)] *)
Definition mkdir (p : string) : M unit :=
  λ w,
    if path_exists (files w) p then (w, Raise (FileExistsError p))
    else match parent_error (files w) p with
         | Some e => (w, Raise e)
         | None => (World (<[p := Dir]> (files w)) (log w), Ok tt)
         end.

(** [os.makedirs(name, exist_ok=True)]: the missing ancestors are made
    first.  The recursion of the library is on the head of the path, which
    is shorter than the path, so that the fuel of [makedirs] below is
    enough.  The library returns early on a path that ends with the
    component ["."]; paths are not normalised here, and that case is left
    out. *)
Fixpoint makedirs_rec (fuel : nat) (name : string) : M unit :=
  match fuel with
  | O => raise RecursionError
  | S fuel' =>
      let '(head, tail) := Path.split name in
      let '(head, tail) :=
        if String.eqb tail "" then Path.split head else (head, tail) in
      (head_exists <- exists_ head ;;
       if negb (String.eqb head "") && negb (String.eqb tail "") && negb head_exists
       then try_except (makedirs_rec fuel' head)
              (λ e, match e with
                    | FileExistsError _ => ret tt
                    | _ => raise e
                    end)
       else ret tt) ;;;
      try_except (mkdir name)
        (λ e, is_dir <- isdir_ name ;;
              if is_dir then ret tt else raise e)
  end.

Definition makedirs (name : string) : M unit :=
  makedirs_rec (S (String.length name)) name.

(** The names of the entries of the directory [d]: the paths of the file
    system that are [d] joined with a name. *)
Definition entries (f : gmap string node) (d : string) : list string :=
  omap (λ k, let n := Path.basename k in
             if negb (String.eqb n "") && String.eqb (Path.join d n) k
             then Some n else None)
       (map_to_list f).*1.

(** [os.listdir(d)] *)
Definition listdir (d : string) : M (list string) :=
  λ w, match files w !! d with
       | Some Dir => (w, Ok (entries (files w) d))
       | Some (File _) => (w, Raise (NotADirectoryError d))
       | None => (w, Raise (FileNotFoundError d))
       end.

(** The bytes of the file at [p], for a library that opens it. *)
Definition read_bytes (p : string) : M string :=
  λ w, match files w !! p with
       | Some (File (Bytes b)) => (w, Ok b)
       | Some (File _) => (w, Raise (LibraryError "unknown format"))
       | Some Dir => (w, Raise (IsADirectoryError p))
       | None => (w, Raise (FileNotFoundError p))
       end.

End Os.

(** [np.save(file, arr, allow_pickle=False)]: NumPy appends [".npy"] to a
    file name that does not end with it, and opens the file for writing. *)
Definition npy_name (file : string) : string :=
  if Str.endswith ".npy" file then file else file ++ ".npy".

Definition np_save (file : string) (arr : content) : M unit :=
  λ w,
    let target := npy_name file in
    match files w !! target, Os.parent_error (files w) target with
    | Some Dir, _ => (w, Raise (IsADirectoryError target))
    | _, Some e => (w, Raise e)
    | _, None =>
        (World (<[target := File arr]> (files w)) (log w ++ [EvSave target arr]), Ok tt)
    end.

(** [l[i::n]] for a step [n] of at least one: the entries of [l] at the
    indices [i], [i + n], [i + 2n], ...  ([skip] entries are passed over
    before the next one is taken.) *)
Fixpoint stride {A} (skip step : nat) (l : list A) : list A :=
  match l with
  | [] => []
  | x :: l' =>
      match skip with
      | O => x :: stride (pred step) step l'
      | S skip' => stride skip' step l'
      end
  end.

Definition slice_step {A} (l : list A) (i n : nat) : list A := stride i n l.

(** [range(n)] for a Python integer [n] *)
Definition range (n : Z) : list nat := seq 0 (Z.to_nat n).

(** [[f(x) for x in l]] for an [f] with effects *)
Fixpoint collect {A B} (f : A → M B) (l : list A) : M (list B) :=
  match l with
  | [] => ret []
  | x :: l' => y <- f x ;; ys <- collect f l' ;; ret (y :: ys)
  end.

(** ** The external libraries *)

(** What [soundfile.read] returns: one channel, or frames of several. *)
Inductive wavdata : Type :=
| Mono (x : list Np.npfloat)
| Frames (x : list (list Np.npfloat)).

(** The outputs of a [transformers] HuBERT model. *)
Record hubert_output : Type := HubertOutput {
  last_hidden_state : list (list Np.npfloat);
  extract_features : list (list Np.npfloat);
}.

Class Libraries : Type := {
  (** [librosa.load(path, sr=sr, res_type="soxr_vhq")], from the bytes of the file *)
  librosa_load : string → Z → result (list Np.npfloat * Z);
  (** [parselmouth.Sound(x, sr).to_pitch_ac(time_step, voicing_threshold,
      pitch_floor, pitch_ceiling).selected_array["frequency"]] *)
  parselmouth_pitch_ac :
    list Np.npfloat → Z → Np.npfloat → Np.npfloat → Z → Z → result (list Np.npfloat);
  (** [pyworld.harvest(x, fs, f0_ceil, f0_floor, frame_period)] *)
  pyworld_harvest :
    list Np.npfloat → Z → Np.npfloat → Np.npfloat → Np.npfloat →
    result (list Np.npfloat * list Np.npfloat);
  (** [pyworld.dio(x, fs, f0_ceil, f0_floor, frame_period)] *)
  pyworld_dio :
    list Np.npfloat → Z → Np.npfloat → Np.npfloat → Np.npfloat →
    result (list Np.npfloat * list Np.npfloat);
  (** [pyworld.stonemask(x, f0, t, fs)] *)
  pyworld_stonemask :
    list Np.npfloat → list Np.npfloat → list Np.npfloat → Z → result (list Np.npfloat);
  (** [soundfile.read(path)], from the bytes of the file *)
  sf_read : string → result (wavdata * Z);
  (** [F.layer_norm(feats, feats.shape)] *)
  layer_norm : list Np.npfloat → list Np.npfloat;
  (** [modules.models.MODELS_DIR] *)
  MODELS_DIR : string;
  fairseq_model : Type;
  feature_extractor : Type;
  hubert_model : Type;
  (** [checkpoint_utils.load_model_ensemble_and_task([path], suffix="")]:
      the first model and [cfg.task.normalize] *)
  load_model_ensemble_and_task : string → result (fairseq_model * bool);
  (** [Wav2Vec2FeatureExtractor.from_pretrained(repo_name)] *)
  extractor_from_pretrained : string → result feature_extractor;
  (** [HubertModel.from_pretrained(repo_name)] *)
  hubert_from_pretrained : string → result hubert_model;
  (** [extractor(x, return_tensors="pt", sampling_rate=16000).input_values] *)
  extractor_call : feature_extractor → list Np.npfloat → Z → result (list Np.npfloat);
  (** [hubert(feats)] *)
  hubert_call : hubert_model → list Np.npfloat → result hubert_output;
  (** [model.extract_features(source, padding_mask, output_layer)[0]],
      without its batch dimension *)
  fairseq_extract_features :
    fairseq_model → list Np.npfloat → option Z → result (list (list Np.npfloat));
  (** [model.final_proj(x)] *)
  fairseq_final_proj :
    fairseq_model → list (list Np.npfloat) → result (list (list Np.npfloat));
  (** [torch.cuda.device_count()] *)
  cuda_device_count : nat;
  (** Whether [asyncio.get_event_loop()] gives a loop in the thread of the
      caller (the main thread, or a thread for which a loop is set); in
      any other thread it raises [RuntimeError]. *)
  asyncio_has_event_loop : bool;
}.

(** ** class FeatureInput *)

Record FeatureInput : Type := MkFeatureInput {
  fs : Z;
  hop : Z;
  f0_bin : Z;
  f0_max : Np.npfloat;
  f0_min : Np.npfloat;
  f0_mel_min : Np.npfloat;
  f0_mel_max : Np.npfloat;
}.

(** [1127 * np.log(1 + f / 700)] *)
Definition mel (f : Np.npfloat) : Np.npfloat :=
  Np.fmul (Np.of_int 1127) (Np.log (Np.fadd (Np.of_int 1) (Np.fdiv f (Np.of_int 700)))).

(** [FeatureInput.__init__] *)
Definition FeatureInput_init (samplerate hop_size : Z) : FeatureInput :=
  {| fs := samplerate;
     hop := hop_size;
     f0_bin := 256;
     f0_max := Np.Real 1100;
     f0_min := Np.Real 50;
     f0_mel_min := mel (Np.Real 50);
     f0_mel_max := mel (Np.Real 1100) |}.

Section FeatureInput_methods.

Context {L : Libraries}.
Variable self : FeatureInput.

(** The padding of [compute_f0] for the method [pm]. *)
Definition pad_f0 (p_len : Z) (f0 : list Np.npfloat) : result (list Np.npfloat) :=
  let len_f0 := Z.of_nat (length f0) in
  let pad_size := ((p_len - len_f0 + 1) / 2)%Z in
  if (0 <? pad_size)%Z || (0 <? p_len - len_f0 - pad_size)%Z
  then match Np.pad f0 pad_size (p_len - len_f0 - pad_size) with
       | Some f0' => Ok f0'
       | None => Raise ValueError
       end
  else Ok f0.

(** [a // b] and [a / b] of Python integers *)
Definition floordiv (a b : Z) : result Z :=
  if (b =? 0)%Z then Raise ZeroDivisionError else Ok (a / b)%Z.

Definition truediv (a b : Z) : result Np.npfloat :=
  if (b =? 0)%Z then Raise ZeroDivisionError else Ok (Np.Real (IZR a / IZR b)).

(** [FeatureInput.compute_f0] *)
Definition compute_f0 (path : string) (f0_method : string) : M (list Np.npfloat) :=
  emit (EvPitch path f0_method) ;;;
  bytes <- Os.read_bytes path ;;
  loaded <- lift (librosa_load bytes (fs self)) ;;
  let '(x, sr) := loaded in
  p_len <- lift (floordiv (Z.of_nat (length x)) (hop self)) ;;
  assert (sr =? fs self)%Z ;;;
  if String.eqb f0_method "pm" then
    let time_step := (160 / 16000 * 1000)%R in
    let f0_max := 1100%Z in
    let f0_min := 50%Z in
    f0 <- lift (parselmouth_pitch_ac x sr (Np.Real (time_step / 1000))
                  (Np.Real (6 / 10)) f0_min f0_max) ;;
    lift (pad_f0 p_len f0)
  else if String.eqb f0_method "harvest" then
    frame_period <- lift (truediv (1000 * hop self) sr) ;;
    f0_t <- lift (pyworld_harvest x sr (f0_max self) (f0_min self) frame_period) ;;
    lift (pyworld_stonemask x f0_t.1 f0_t.2 (fs self))
  else if String.eqb f0_method "dio" then
    frame_period <- lift (truediv (1000 * hop self) sr) ;;
    f0_t <- lift (pyworld_dio x sr (f0_max self) (f0_min self) frame_period) ;;
    lift (pyworld_stonemask x f0_t.1 f0_t.2 (fs self))
  else raise (UnboundLocalError "f0").

(** The three masked assignments of [coarse_f0], entry by entry. *)
Definition rescale (m : Np.npfloat) : Np.npfloat :=
  if Np.fgt m (Np.of_int 0)
  then Np.fadd
         (Np.fdiv (Np.fmul (Np.fsub m (f0_mel_min self)) (Np.of_int (f0_bin self - 2)))
                  (Np.fsub (f0_mel_max self) (f0_mel_min self)))
         (Np.of_int 1)
  else m.

Definition clip_low (m : Np.npfloat) : Np.npfloat :=
  if Np.fle m (Np.of_int 1) then Np.of_int 1 else m.

Definition clip_high (m : Np.npfloat) : Np.npfloat :=
  if Np.fgt m (Np.of_int (f0_bin self - 1)) then Np.of_int (f0_bin self - 1) else m.

(** [FeatureInput.coarse_f0] *)
Definition coarse_f0 (f0 : list Np.npfloat) : result (list Z) :=
  let f0_mel := map mel f0 in
  let f0_mel := map rescale f0_mel in
  let f0_mel := map clip_low f0_mel in
  let f0_mel := map clip_high f0_mel in
  let f0_coarse := map Np.astype_int (map Np.rint f0_mel) in
  match Np.amax f0_coarse, Np.amin f0_coarse with
  | Some hi, Some lo =>
      if (hi <=? 255)%Z && (1 <=? lo)%Z then Ok f0_coarse else Raise AssertionError
  | _, _ => Raise ValueError
  end.

(** The body of the loop of [go] for one work item, inside its [try]. *)
Definition go_item (item : work_item) (f0_method : string) : M unit :=
  let '(inp_path, opt_path1, opt_path2) := item in
  done1 <- Os.exists_ (opt_path1 ++ ".npy") ;;
  done2 <- (if done1 then Os.exists_ (opt_path2 ++ ".npy") else ret false) ;;
  if done1 && done2 then ret tt
  else
    featur_pit <- compute_f0 inp_path f0_method ;;
    np_save opt_path2 (NpyFloat featur_pit) ;;;
    coarse_pit <- lift (coarse_f0 featur_pit) ;;
    np_save opt_path1 (NpyInt coarse_pit).

(** One turn of the loop of [go]: the [try] and its [except]. *)
Definition go_step (f0_method : string) (idx : nat) (item : work_item) : M unit :=
  try_except (go_item item f0_method)
    (λ e, print (F0Failed idx item.1.1 e)).

(** [FeatureInput.go] *)
Definition go (paths : list work_item) (f0_method : string) : M unit :=
  if negb (Nat.eqb (length paths) 0) then
    for_enumerate 0 paths (go_step f0_method)
  else ret tt.

End FeatureInput_methods.

(** ** extract_f0 *)

Section Extraction.

Context {L : Libraries}.

(** The relative names of the audio files under [dataset_dir], one
    directory deep. *)
Definition list_names (dataset_dir : string) : M (list string) :=
  top <- Os.listdir dataset_dir ;;
  chunks <- collect (λ pathname,
              is_dir <- Os.isdir_ (Path.join dataset_dir pathname) ;;
              if is_dir then
                sub <- Os.listdir (Path.join dataset_dir pathname) ;;
                ret (map (Path.join pathname)
                       (filter (λ f, Str.contains "spec" f = false) (Str.sorted sub)))
              else ret [pathname])
            (Str.sorted top) ;;
  ret (concat chunks).

(** The work items built from the names. *)
Definition build_paths (dataset_dir opt_dir_f0 opt_dir_f0_nsf : string)
    (names : list string) : list work_item :=
  omap (λ name,
          let filepath := Path.join dataset_dir name in
          if Str.contains "spec" filepath then None
          else Some (filepath, Path.join opt_dir_f0 name, Path.join opt_dir_f0_nsf name))
       names.

(** The pairs of output directories of the work items, each one once;
    Python iterates over the set in an order of its own. *)
Definition output_dirs (paths : list work_item) : list (string * string) :=
  remove_dups (map (λ p : work_item, (Path.dirname p.1.2, Path.dirname p.2)) paths).

(** A child process: an exception that leaves its target is printed by the
    child and does not reach the parent. *)
Definition run_child (target : M unit) : M unit :=
  try_except target (λ e, print (Traceback e)).

(** [extract_f0] up to the start of the workers: the work items, or [None]
    when both output directories exist and the function returns at once. *)
Definition extract_f0_setup (training_dir : string) : M (option (list work_item)) :=
  let dataset_dir := Path.join training_dir "1_16k_wavs" in
  let opt_dir_f0 := Path.join training_dir "2a_f0" in
  let opt_dir_f0_nsf := Path.join training_dir "2b_f0nsf" in
  have1 <- Os.exists_ opt_dir_f0 ;;
  have2 <- (if have1 then Os.exists_ opt_dir_f0_nsf else ret false) ;;
  if have1 && have2 then ret None
  else
    Os.makedirs opt_dir_f0 ;;;
    Os.makedirs opt_dir_f0_nsf ;;;
    names <- list_names dataset_dir ;;
    let paths := build_paths dataset_dir opt_dir_f0 opt_dir_f0_nsf names in
    for_each (output_dirs paths) (λ dir, Os.makedirs dir.1 ;;; Os.makedirs dir.2) ;;;
    ret (Some paths).

(** The workers of [extract_f0]: process [i] of [num_processes] is started
    on [paths[i::num_processes]].  The processes run side by side; here
    each one runs to its end when it is started. *)
Definition extract_f0_workers (feature_input : FeatureInput)
    (paths : list work_item) (num_processes : Z) (f0_method : string) : M unit :=
  for_each (range num_processes) (λ i,
    let batch := slice_step paths i (Z.to_nat num_processes) in
    emit (EvStartProcess i batch) ;;;
    run_child (go feature_input batch f0_method)).

(** [extract_f0] *)
Definition extract_f0 (training_dir : string) (num_processes : Z) (f0_method : string)
    : M unit :=
  let feature_input := FeatureInput_init 16000 160 in
  setup <- extract_f0_setup training_dir ;;
  match setup with
  | None => ret tt
  | Some paths => extract_f0_workers feature_input paths num_processes f0_method
  end.

(** ** extract_feature *)

(** A loaded embedder: a fairseq model, or the pair of a feature extractor
    and a HuBERT model of [transformers]. *)
Inductive embedder : Type :=
| FairseqModel (m : fairseq_model)
| HubertPair (extractor : feature_extractor) (m : hubert_model).

(** [load_embedder] *)
Definition load_embedder (emb_file : string) : M (embedder * option bool) :=
  emit (EvLoadModel emb_file) ;;;
  loaded <- lift (load_model_ensemble_and_task (Path.join MODELS_DIR emb_file)) ;;
  ret (FairseqModel loaded.1, Some loaded.2).

(** [load_transformers_hubert] *)
Definition load_transformers_hubert (repo_name : string) : M embedder :=
  emit (EvLoadModel repo_name) ;;;
  extractor <- lift (extractor_from_pretrained repo_name) ;;
  m <- lift (hubert_from_pretrained repo_name) ;;
  ret (HubertPair extractor m).

(** The first component of an entry of [load_emb_dic]: a file name for
    [load_embedder], or the function [load_transformers_hubert]. *)
Inductive loader : Type :=
| EmbFile (emb_file : string)
| LoadTransformersHubert.

Definition load_emb_dic : gmap string (loader * string) :=
  list_to_map
    [ ("hubert_base", (EmbFile "hubert_base.pt", "hubert_base"));
      ("hubert_base768", (EmbFile "hubert_base.pt", "hubert_base"));
      ("contentvec", (EmbFile "checkpoint_best_legacy_500.pt", "contentvec"));
      ("contentvec768", (EmbFile "checkpoint_best_legacy_500.pt", "contentvec"));
      ("distilhubert", (LoadTransformersHubert, "ntu-spml/distilhubert"));
      ("distilhubert768", (LoadTransformersHubert, "ntu-spml/distilhubert")) ].

(** The model and the configuration loaded for an entry of [load_emb_dic]:
    a callable first component is called on the second one, and there is
    no configuration then. *)
Definition load_model (entry : loader * string) : M (embedder * option bool) :=
  match entry.1 with
  | LoadTransformersHubert =>
      model <- load_transformers_hubert entry.2 ;;
      ret (model, None)
  | EmbFile emb_file => load_embedder emb_file
  end.

(** [feats.mean(-1)] of the frames of a wave of several channels *)
Definition mean_last (frames : list (list Np.npfloat)) : list Np.npfloat :=
  map (λ frame, Np.fdiv (foldl Np.fadd (Np.Real 0) frame)
                  (Np.of_int (Z.of_nat (length frame))))
      frames.

(** [readwave] *)
Definition readwave (wav_path : string) (normalize : bool) : M (list Np.npfloat) :=
  bytes <- Os.read_bytes wav_path ;;
  read <- lift (sf_read bytes) ;;
  let '(wav, sr) := read in
  assert (sr =? 16000)%Z ;;;
  let feats := match wav with
               | Mono x => x
               | Frames x => mean_last x
               end in
  ret (if normalize then layer_norm feats else feats).

(** The features of one wave: the call of the encoder in [process]. *)
Definition embed (model : embedder) (is_feats_dim_768 : bool)
    (feats : list Np.npfloat) : result (list (list Np.npfloat)) :=
  match model with
  | HubertPair extractor hubert =>
      match extractor_call extractor feats 16000 with
      | Raise e => Raise e
      | Ok input_values =>
          match hubert_call hubert input_values with
          | Raise e => Raise e
          | Ok out =>
              Ok (if is_feats_dim_768 then last_hidden_state out
                  else extract_features out)
          end
      end
  | FairseqModel m =>
      match fairseq_extract_features m feats
              (if is_feats_dim_768 then None else Some 9%Z) with
      | Raise e => Raise e
      | Ok logits0 =>
          if is_feats_dim_768 then Ok logits0 else fairseq_final_proj m logits0
      end
  end.

(** The body of the loop of [process] for one file, inside its [try]. *)
Definition process_file (model : embedder) (cfg : option bool) (is_feats_dim_768 : bool)
    (wav_dir out_dir : string) (file : string) : M unit :=
  if Str.endswith ".wav" file then
    let wav_filepath := Path.join wav_dir file in
    let out_filepath := Path.join out_dir (Str.replace "wav" "npy" file) in
    done <- Os.exists_ out_filepath ;;
    if done then ret tt
    else
      Os.makedirs (Path.dirname out_filepath) ;;;
      feats <- readwave wav_filepath (match cfg with None => false | Some n => n end) ;;
      emit (EvEmbed wav_filepath) ;;;
      feats <- lift (embed model is_feats_dim_768 feats) ;;
      if Nat.eqb (Np.count_nan feats) 0
      then np_save out_filepath (NpyFloat2 feats)
      else print (ContainsNan file)
  else ret tt.

(** One turn of the loop of [process]: the [try] and its [except]. *)
Definition process_step (model : embedder) (cfg : option bool) (is_feats_dim_768 : bool)
    (wav_dir out_dir : string) (file : string) : M unit :=
  try_except (process_file model cfg is_feats_dim_768 wav_dir out_dir file)
    (λ e, print (ErrorFile e file) ;;; print (Traceback e)).

(** [process], the worker of [extract_feature].  Where the tensors are
    held and their precision ([to(device)], [half()], [float()]) is not
    modelled, so that the device is not an argument. *)
Definition process (model : embedder) (cfg : option bool) (is_feats_dim_768 : bool)
    (wav_dir out_dir : string) (todo : list string) : M unit :=
  for_each todo (process_step model cfg is_feats_dim_768 wav_dir out_dir).

(** The list [todo] of [extract_feature]: the files of the directories of
    [wav_dir]. *)
Definition list_todo (wav_dir : string) : M (list string) :=
  top <- Os.listdir wav_dir ;;
  chunks <- collect (λ dir,
              is_dir <- Os.isdir_ (Path.join wav_dir dir) ;;
              if is_dir then
                sub <- Os.listdir (Path.join wav_dir dir) ;;
                ret (map (Path.join dir) (Str.sorted sub))
              else ret [])
            (Str.sorted top) ;;
  ret (concat chunks).

(** [loop.run_until_complete] of the [asyncio.gather] of the futures of
    [num_gpus] workers, on the new loop [loop].  The futures of
    [loop.run_in_executor] belong to [loop], and the call returns when the
    workers are done.  Without any future, [asyncio.gather()] takes the
    loop of [asyncio.get_event_loop()] for its result, which raises
    [RuntimeError] in a thread without a loop and is never the new loop
    otherwise: [run_until_complete] then refuses the future of another
    loop with [ValueError]. *)
Definition run_until_complete_gather (num_gpus : nat) : M unit :=
  match num_gpus with
  | O => if asyncio_has_event_loop then raise ValueError else raise RuntimeError
  | S _ => ret tt
  end.

(** The workers of [extract_feature]: worker [i] of [num_gpus] gets
    [todo[i::num_gpus]], and the call waits for all of them.  The workers
    run side by side in the threads of an executor; here each one runs to
    its end when it is started. *)
Definition extract_feature_workers (model : embedder) (cfg : option bool)
    (is_feats_dim_768 : bool) (wav_dir out_dir : string) (todo : list string)
    (num_gpus : nat) : M unit :=
  for_each (seq 0 num_gpus) (λ i,
    let batch := slice_step todo i num_gpus in
    emit (EvStartGpuWorker i batch) ;;;
    process model cfg is_feats_dim_768 wav_dir out_dir batch) ;;;
  run_until_complete_gather num_gpus.

(** [extract_feature]; it returns [None] or a message. *)
Definition extract_feature (training_dir embedder_name : string) : M (option string) :=
  let wav_dir := Path.join training_dir "1_16k_wavs" in
  let out_dir := Path.join training_dir "3_feature256" in
  have <- Os.exists_ out_dir ;;
  if have then ret None
  else
    Os.makedirs out_dir ;;;
    match load_emb_dic !! embedder_name with
    | None => ret (Some ("Not supported embedder: " ++ embedder_name))
    | Some (load, arg) =>
        model_cfg <- load_model (load, arg) ;;
        let '(model, cfg) := model_cfg in
        let is_feats_dim_768 := Str.endswith "768" embedder_name in
        let num_gpus := cuda_device_count in
        todo <- list_todo wav_dir ;;
        extract_feature_workers model cfg is_feats_dim_768 wav_dir out_dir todo num_gpus ;;;
        ret None
    end.

End Extraction.

(** ** A small instance

    A training directory with three waves, and libraries that decode every
    non-empty file and know the pitch method [pm] only. *)

Definition demo_libraries : Libraries := {|
  librosa_load := λ bytes sr,
    if String.eqb bytes "" then Raise (LibraryError "empty file")
    else Ok (replicate 320 (Np.Real 0), sr);
  parselmouth_pitch_ac := λ x sr _ _ _ _, Ok [Np.Real 100];
  pyworld_harvest := λ _ _ _ _ _, Raise (LibraryError "harvest");
  pyworld_dio := λ _ _ _ _ _, Raise (LibraryError "dio");
  pyworld_stonemask := λ _ _ _ _, Raise (LibraryError "stonemask");
  sf_read := λ bytes,
    if String.eqb bytes "nan" then Ok (Mono [Np.NaN], 16000%Z)
    else Ok (Mono [Np.Real 0], 16000%Z);
  layer_norm := λ x, x;
  MODELS_DIR := "models";
  fairseq_model := unit;
  feature_extractor := unit;
  hubert_model := unit;
  load_model_ensemble_and_task := λ _, Ok (tt, false);
  extractor_from_pretrained := λ _, Ok tt;
  hubert_from_pretrained := λ _, Ok tt;
  extractor_call := λ _ x _, Ok x;
  hubert_call := λ _ x, Ok (HubertOutput [x] [x]);
  fairseq_extract_features := λ _ x _, Ok [x];
  fairseq_final_proj := λ _ x, Ok x;
  cuda_device_count := 2;
  asyncio_has_event_loop := true;
|}.

(** The same libraries on a machine without a GPU. *)
Definition demo_libraries_no_gpu : Libraries := {|
  librosa_load := @librosa_load demo_libraries;
  parselmouth_pitch_ac := @parselmouth_pitch_ac demo_libraries;
  pyworld_harvest := @pyworld_harvest demo_libraries;
  pyworld_dio := @pyworld_dio demo_libraries;
  pyworld_stonemask := @pyworld_stonemask demo_libraries;
  sf_read := @sf_read demo_libraries;
  layer_norm := @layer_norm demo_libraries;
  MODELS_DIR := @MODELS_DIR demo_libraries;
  fairseq_model := unit;
  feature_extractor := unit;
  hubert_model := unit;
  load_model_ensemble_and_task := @load_model_ensemble_and_task demo_libraries;
  extractor_from_pretrained := @extractor_from_pretrained demo_libraries;
  hubert_from_pretrained := @hubert_from_pretrained demo_libraries;
  extractor_call := @extractor_call demo_libraries;
  hubert_call := @hubert_call demo_libraries;
  fairseq_extract_features := @fairseq_extract_features demo_libraries;
  fairseq_final_proj := @fairseq_final_proj demo_libraries;
  cuda_device_count := 0;
  asyncio_has_event_loop := true;
|}.

Definition demo_world : world :=
  World (list_to_map
           [ ("t", Dir);
             ("t/1_16k_wavs", Dir);
             ("t/1_16k_wavs/0", Dir);
             ("t/1_16k_wavs/0/a.wav", File (Bytes "RIFF"));
             ("t/1_16k_wavs/0/b.wav", File (Bytes "nan"));
             ("t/1_16k_wavs/c.wav", File (Bytes "RIFF")) ])
        [].

(** The training directory when the workers of [extract_f0] start. *)
Definition demo_world_ready : world := (extract_f0_setup "t" demo_world).1.

(** The training directory after the extraction of the wave [c.wav] and
    of the features of [0/a.wav]. *)
Definition demo_world_done : world :=
  World (list_to_map
           [ ("t", Dir);
             ("t/1_16k_wavs", Dir);
             ("t/1_16k_wavs/0", Dir);
             ("t/1_16k_wavs/0/a.wav", File (Bytes "RIFF"));
             ("t/1_16k_wavs/0/b.wav", File (Bytes "nan"));
             ("t/1_16k_wavs/c.wav", File (Bytes "RIFF"));
             ("t/2a_f0", Dir);
             ("t/2a_f0/c.wav.npy", File (NpyInt [1%Z; 1%Z]));
             ("t/2b_f0nsf", Dir);
             ("t/2b_f0nsf/c.wav.npy", File (NpyFloat [Np.Real 0; Np.Real 0]));
             ("t/3_feature256", Dir);
             ("t/3_feature256/0", Dir);
             ("t/3_feature256/0/a.npy", File (NpyFloat2 [[Np.Real 0]])) ])
        [].

(** ** Notions of the specification *)

(** A float that is a real number and not negative. *)
Definition nonneg_real (v : Np.npfloat) : Prop :=
  ∃ x : R, v = Np.Real x ∧ (0 <= x)%R.

(** What [coarse_f0] makes of one entry of the pitch contour. *)
Definition quantise (self : FeatureInput) (v : Np.npfloat) : Z :=
  Np.astype_int (Np.rint (clip_high self (clip_low (rescale self (mel v))))).

(** The events that start a worker, and those that write a file. *)
Definition is_start (e : event) : bool :=
  match e with
  | EvStartProcess _ _ | EvStartGpuWorker _ _ => true
  | _ => false
  end.

Definition is_save (e : event) : bool :=
  match e with
  | EvSave _ _ => true
  | _ => false
  end.

(** The world [w'] follows the world [w] by events that satisfy [P]: the
    log has grown by them, what was a directory is one, what existed
    exists, and a path that no event saved holds what it held, or is a new
    directory. *)
Definition follows (P : event → Prop) (w w' : world) : Prop :=
  ∃ evs : list event,
    log w' = (log w ++ evs)%list ∧
    Forall P evs ∧
    (∀ p, files w !! p = Some Dir → files w' !! p = Some Dir) ∧
    (∀ p, is_Some (files w !! p) → is_Some (files w' !! p)) ∧
    (∀ p, (∀ c, EvSave p c ∉ evs) →
          files w' !! p = files w !! p ∨
          (files w !! p = None ∧ files w' !! p = Some Dir)).

(** The computation [m] has no other effect than events that satisfy [P],
    the files they save, and new directories. *)
Definition emits {A} (P : event → Prop) (m : M A) : Prop :=
  ∀ w w' r, m w = (w', r) → follows P w w'.

(** The computation [m] returns: it raises no exception. *)
Definition returns {A} (m : M A) : Prop :=
  ∀ w, ∃ a, (m w).2 = Ok a.

(** The computation [m] leaves the world as it is. *)
Definition quiet {A} (m : M A) : Prop :=
  ∀ w w' r, m w = (w', r) → w' = w.

(** The mel value of a frequency, and the value that [coarse_f0] rounds for
    it: the mel value moved to the scale of the bins and clipped. *)
Definition mel_of (x : R) : R := (1127 * ln (1 + x / 700))%R.

Definition bin_of (x : R) : R :=
  let m := mel_of x in
  let scaled := if Rlt_dec 0 m
                then ((m - mel_of 50) * 254 / (mel_of 1100 - mel_of 50) + 1)%R
                else m in
  Rmin 255 (Rmax 1 scaled).

(** The libraries of the small instance with a pitch tracker that returns
    NaN. *)
Definition demo_libraries_nan_pitch : Libraries := {|
  librosa_load := @librosa_load demo_libraries;
  parselmouth_pitch_ac := λ x sr _ _ _ _, Ok [Np.NaN];
  pyworld_harvest := @pyworld_harvest demo_libraries;
  pyworld_dio := @pyworld_dio demo_libraries;
  pyworld_stonemask := @pyworld_stonemask demo_libraries;
  sf_read := @sf_read demo_libraries;
  layer_norm := @layer_norm demo_libraries;
  MODELS_DIR := @MODELS_DIR demo_libraries;
  fairseq_model := unit;
  feature_extractor := unit;
  hubert_model := unit;
  load_model_ensemble_and_task := @load_model_ensemble_and_task demo_libraries;
  extractor_from_pretrained := @extractor_from_pretrained demo_libraries;
  hubert_from_pretrained := @hubert_from_pretrained demo_libraries;
  extractor_call := @extractor_call demo_libraries;
  hubert_call := @hubert_call demo_libraries;
  fairseq_extract_features := @fairseq_extract_features demo_libraries;
  fairseq_final_proj := @fairseq_final_proj demo_libraries;
  cuda_device_count := 2;
  asyncio_has_event_loop := true;
|}.


(** ** modules/utils.py: load_audio *)

Module Utils.

(** [s.lstrip(c)], [s.rstrip(c)] and [s.strip(c)] for one character [c] *)
Fixpoint lstrip (c : ascii) (s : string) : string :=
  match s with
  | EmptyString => EmptyString
  | String a s' => if Ascii.eqb a c then lstrip c s' else s
  end.

Fixpoint rstrip (c : ascii) (s : string) : string :=
  match s with
  | EmptyString => EmptyString
  | String a s' =>
      match rstrip c s' with
      | EmptyString => if Ascii.eqb a c then EmptyString else String a EmptyString
      | r => String a r
      end
  end.

Definition strip (c : ascii) (s : string) : string := lstrip c (rstrip c s).

Definition quote : ascii := Ascii.ascii_of_nat 34.

Definition newline : ascii := Ascii.ascii_of_nat 10.

(** [file.strip(" ").strip('"').strip("\n").strip('"').strip(" ")] *)
Definition clean_name (file : string) : string :=
  strip " " (strip quote (strip newline (strip quote (strip " " file)))).

(** What a call of [load_audio] comes to: the samples, or one of the two
    exceptions that can leave it. *)
Inductive loaded : Type :=
| Samples (x : list Np.npfloat)
| RuntimeError (cause : exn)
| BufferValueError.

Section Load_audio.

(** The run of the [ffmpeg] command on a file, for a sample rate: the bytes
    of its standard output, or the exception of a failed run. *)
Variable ffmpeg_run : string → Z → result string.

(** The float of four bytes, in the order of the stream. *)
Variable float32 : ascii → ascii → ascii → ascii → Np.npfloat.

(** [np.frombuffer(out, np.float32)]: NumPy refuses a buffer that is not a
    whole number of floats. *)
Fixpoint frombuffer (out : string) : option (list Np.npfloat) :=
  match out with
  | EmptyString => Some []
  | String a (String b (String c (String d rest))) =>
      match frombuffer rest with
      | Some x => Some (float32 a b c d :: x)
      | None => None
      end
  | _ => None
  end.

(** [load_audio] *)
Definition load_audio (file : string) (sr : Z) : loaded :=
  match ffmpeg_run (clean_name file) sr with
  | Raise e => RuntimeError e
  | Ok out =>
      match frombuffer out with
      | Some x => Samples x
      | None => BufferValueError
      end
  end.

End Load_audio.

End Utils.

(** * Properties *)

Example join_plain : Path.join "t" "2a_f0" = "t/2a_f0".
Proof. reflexivity. Qed.

Example join_trailing : Path.join "t/" "2a_f0" = "t/2a_f0".
Proof. reflexivity. Qed.

Example join_absolute : Path.join "t" "/x" = "/x".
Proof. reflexivity. Qed.

Example split_nested : Path.split "t/2a_f0/0001/a.wav" = ("t/2a_f0/0001", "a.wav").
Proof. reflexivity. Qed.

Example split_root : Path.split "/x" = ("/", "x").
Proof. reflexivity. Qed.

Example split_double : Path.split "t//x" = ("t", "x").
Proof. reflexivity. Qed.

Example split_noslash : Path.split "x" = ("", "x").
Proof. reflexivity. Qed.

Example replace_wav : Str.replace "wav" "npy" "wavs/a.wav" = "npys/a.npy".
Proof. reflexivity. Qed.

Example endswith_wav : Str.endswith ".wav" "0/a.wav" = true.
Proof. reflexivity. Qed.

Example contains_spec : Str.contains "spec" "0/a.spec.pt" = true.
Proof. reflexivity. Qed.

Example sorted_names : Str.sorted ["b"; "a"; "B"; "ab"] = ["B"; "a"; "ab"; "b"].
Proof. reflexivity. Qed.

(** ** The fuel is enough *)

Section Fuel.

Local Open Scope nat_scope.

Lemma rsplit_slash_length (s : string) :
  String.length (Str.rsplit_slash s).1 + String.length (Str.rsplit_slash s).2
  = String.length s.
Proof.
  induction s as [|c s IH]; [done|]. cbn [Str.rsplit_slash].
  destruct (Str.rsplit_slash s) as [[|h0 h] t]; cbn [fst snd] in *.
  - destruct (Ascii.eqb c "/"); cbn [fst snd String.length] in *; lia.
  - cbn [String.length] in *. lia.
Qed.

Lemma rstrip_slash_length (s : string) :
  String.length (Str.rstrip_slash s) ≤ String.length s.
Proof.
  induction s as [|c s IH]; [done|]. cbn [Str.rstrip_slash].
  destruct (Str.rstrip_slash s) as [|r0 r].
  - destruct (Ascii.eqb c "/"); cbn [String.length] in *; lia.
  - cbn [String.length] in *. lia.
Qed.

(** The head and the tail of a path are not longer than the path. *)
Lemma split_length (p : string) :
  String.length (Path.split p).1 + String.length (Path.split p).2 ≤ String.length p.
Proof.
  unfold Path.split. pose proof (rsplit_slash_length p) as Hlen.
  destruct (Str.rsplit_slash p) as [head tail]. cbn [fst snd] in Hlen.
  pose proof (rstrip_slash_length head) as Hstrip.
  destruct (Str.rstrip_slash head) as [|r0 r]; cbn [fst snd] in *; lia.
Qed.

Lemma mkdir_not_recursion p w w' e :
  Os.mkdir p w = (w', Raise e) → e ≠ RecursionError.
Proof.
  unfold Os.mkdir, Os.parent_error.
  destruct (Os.path_exists _ _); [by intros [= _ <-]|].
  destruct (String.eqb _ _); [done|].
  by destruct (files w !! Path.dirname p) as [[|c]|]; intros [= _ <-].
Qed.

(** [os.makedirs] does not run out of fuel. *)
Lemma makedirs_rec_fuel (fuel : nat) p w w' e :
  String.length p < fuel →
  Os.makedirs_rec fuel p w = (w', Raise e) → e ≠ RecursionError.
Proof.
  revert p w w' e. induction fuel as [|fuel IH]; intros p w w' e Hlen; [lia|].
  cbn [Os.makedirs_rec].
  pose proof (split_length p) as Hsplit.
  destruct (Path.split p) as [head tail] eqn:Hp. cbn [fst snd] in Hsplit.
  assert (Hhead : ∀ head' tail',
            (if String.eqb tail "" then Path.split head else (head, tail))
            = (head', tail') →
            tail' ≠ "" → String.length head' < fuel).
  { intros head' tail' Hif Hne. destruct (String.eqb_spec tail "") as [->|Htail].
    - pose proof (split_length head) as Hs. rewrite Hif in Hs. cbn [fst snd] in Hs.
      destruct tail'; [done|]. cbn [String.length] in *. lia.
    - injection Hif as <- <-. destruct tail; [done|]. cbn [String.length] in *. lia. }
  destruct (if String.eqb tail "" then Path.split head else (head, tail))
    as [head' tail'].
  specialize (Hhead head' tail' eq_refl).
  unfold bind at 1.
  match goal with
  | |- context [bind (Os.exists_ head') ?k w] =>
      destruct (bind (Os.exists_ head') k w) as [w1 [[]|e1]] eqn:Hfirst
  end.
  - unfold try_except. destruct (Os.mkdir p w1) as [w2 [[]|e2]] eqn:Hm; [done|].
    unfold bind, Os.isdir_. destruct (Os.isdir (files w2) p); [done|].
    intros [= _ <-]. by eapply mkdir_not_recursion.
  - intros [= _ <-]. revert Hfirst. unfold bind, Os.exists_.
    destruct (negb (String.eqb head' "")) eqn:E1; [|done].
    destruct (String.eqb_spec tail' "") as [->|Htail]; [done|].
    cbn [negb andb]. destruct (negb (Os.path_exists (files w) head')); [|done].
    unfold try_except.
    destruct (Os.makedirs_rec fuel head' w) as [w2 [[]|e2]] eqn:Hrec; [done|].
    pose proof (IH _ _ _ _ (Hhead Htail) Hrec) as Hne.
    by destruct e2; intros [= _ <-].
Qed.

Lemma makedirs_fuel p w w' e :
  Os.makedirs p w = (w', Raise e) → e ≠ RecursionError.
Proof. apply makedirs_rec_fuel. lia. Qed.

Lemma drop_length (n : nat) (s : string) :
  String.length (Str.drop n s) ≤ String.length s - n.
Proof.
  revert s. induction n as [|n IH]; intros s; cbn [Str.drop]; [lia|].
  destruct s as [|c s]; cbn [String.length]; [lia|]. apply IH.
Qed.

(** [replace] does not run out of fuel: more fuel gives the same string. *)
Lemma replace_fuel_enough (old new s : string) (fuel : nat) :
  old ≠ "" → String.length s ≤ fuel →
  Str.replace_fuel (S fuel) old new s = Str.replace_fuel fuel old new s.
Proof.
  intros Hold. revert s. induction fuel as [|fuel IH]; intros s Hlen.
  { destruct s; [done|]. cbn [String.length] in Hlen. lia. }
  destruct s as [|c s]; [done|].
  change (Str.replace_fuel (S (S fuel)) old new (String c s))
    with (if Str.startswith old (String c s)
          then new ++ Str.replace_fuel (S fuel) old new
                        (Str.drop (String.length old) (String c s))
          else String c (Str.replace_fuel (S fuel) old new s))%string.
  change (Str.replace_fuel (S fuel) old new (String c s))
    with (if Str.startswith old (String c s)
          then new ++ Str.replace_fuel fuel old new
                        (Str.drop (String.length old) (String c s))
          else String c (Str.replace_fuel fuel old new s))%string.
  cbn [String.length] in Hlen.
  destruct (Str.startswith old (String c s)).
  - rewrite IH; [done|].
    pose proof (drop_length (String.length old) (String c s)) as Hd.
    destruct old; [done|]. cbn [String.length] in *. lia.
  - rewrite IH; [done|lia].
Qed.

End Fuel.

(** ** The coarse pitch *)

Section Coarse_pitch.

Local Open Scope R_scope.

Lemma mel_of_nonneg (x : R) :
  0 <= x → mel (Np.Real x) = Np.Real (1127 * ln (1 + x / 700)).
Proof.
  intros Hx. unfold mel, Np.fdiv, Np.of_int.
  destruct (Req_dec_T 700 0) as [E|_]; [lra|].
  cbn [Np.fadd Np.log].
  destruct (Rlt_dec 0 (1 + x / 700)) as [_|N]; [reflexivity|].
  exfalso. apply N. lra.
Qed.

Lemma mel_bounds_apart :
  1127 * ln (1 + 1100 / 700) - 1127 * ln (1 + 50 / 700) <> 0.
Proof.
  assert (ln (1 + 50 / 700) < ln (1 + 1100 / 700)) by (apply ln_increasing; lra).
  lra.
Qed.

Variables samplerate hop_size : Z.

Implicit Types (v : Np.npfloat) (x y : R).

Lemma rescale_real (y : R) : ∃ y', rescale (FeatureInput_init samplerate hop_size) (Np.Real y) = Np.Real y'.
Proof.
  unfold rescale. destruct (Np.fgt _ _); [|eauto].
  cbn [FeatureInput_init f0_mel_min f0_mel_max f0_bin].
  rewrite !mel_of_nonneg by lra.
  unfold Np.fsub, Np.of_int. cbn [Np.fneg Np.fadd Np.fmul Np.fdiv].
  destruct (Req_dec_T _ 0) as [E|_].
  - exfalso. apply mel_bounds_apart. lra.
  - eauto.
Qed.

Lemma clip_low_real (y : R) : ∃ y', clip_low (Np.Real y) = Np.Real y' ∧ 1 <= y'.
Proof.
  unfold clip_low, Np.fle, Np.of_int.
  destruct (Rle_dec y 1) as [H|H].
  - exists 1. split; [reflexivity|lra].
  - exists y. split; [reflexivity|lra].
Qed.

Lemma clip_high_real (y : R) :
  1 <= y → ∃ y', clip_high (FeatureInput_init samplerate hop_size) (Np.Real y) = Np.Real y' ∧ 1 <= y' <= 255.
Proof.
  intros Hy. unfold clip_high, Np.fgt, Np.flt, Np.of_int.
  cbn [FeatureInput_init f0_bin].
  replace (256 - 2 + 1)%Z with 255%Z by reflexivity.
  change (256 - 1)%Z with 255%Z.
  destruct (Rlt_dec 255 y) as [H|H].
  - exists 255. split; [reflexivity|lra].
  - exists y. split; [reflexivity|lra].
Qed.

Lemma Int_part_bounds (x : R) : IZR (Int_part x) <= x < IZR (Int_part x) + 1.
Proof.
  destruct (base_Int_part x) as [H1 H2]. lra.
Qed.

Lemma Int_part_IZR (n : Z) : Int_part (IZR n) = n.
Proof.
  symmetry. apply Int_part_spec. lra.
Qed.

Lemma round_half_even_range (y : R) :
  1 <= y <= 255 → (1 <= Np.round_half_even y <= 255)%Z.
Proof.
  intros [Hlo Hhi]. unfold Np.round_half_even.
  destruct (Int_part_bounds y) as [Hfl Hfu].
  assert (Hn1 : (1 <= Int_part y)%Z).
  { assert (0 < Int_part y)%Z by (apply lt_IZR; lra). lia. }
  assert (Hn2 : (Int_part y <= 255)%Z).
  { apply le_IZR. lra. }
  assert (Hup : 1 / 2 <= y - IZR (Int_part y) → (Int_part y + 1 <= 255)%Z).
  { intros Hf. assert (Int_part y < 255)%Z by (apply lt_IZR; lra). lia. }
  destruct (Rlt_dec _ _) as [H|H]; [lia|].
  destruct (Rlt_dec _ _) as [H'|H'].
  - split; [lia|]. apply Hup. lra.
  - destruct (Z.even _); [lia|]. split; [lia|]. apply Hup. lra.
Qed.

Lemma astype_rint_range (y : R) :
  1 <= y <= 255 → (1 <= Np.astype_int (Np.rint (Np.Real y)) <= 255)%Z.
Proof.
  intros Hy. pose proof (round_half_even_range y Hy) as Hr.
  cbn [Np.rint Np.astype_int]. unfold Np.trunc.
  destruct (Rle_dec 0 (IZR (Np.round_half_even y))) as [_|N].
  - rewrite Int_part_IZR.
    replace (Np.INT64_MIN <=? _)%Z with true
      by (symmetry; apply Z.leb_le; unfold Np.INT64_MIN; lia).
    replace (_ <? 2 ^ 63)%Z with true by (symmetry; apply Z.ltb_lt; lia).
    exact Hr.
  - exfalso. apply N. apply IZR_le. lia.
Qed.

Lemma quantise_range (v : Np.npfloat) :
  nonneg_real v → (1 <= quantise (FeatureInput_init samplerate hop_size) v <= 255)%Z.
Proof.
  intros (x & -> & Hx). unfold quantise.
  rewrite mel_of_nonneg by exact Hx.
  destruct (rescale_real (1127 * ln (1 + x / 700))) as [y1 ->].
  destruct (clip_low_real y1) as (y2 & -> & H2).
  destruct (clip_high_real y2 H2) as (y3 & -> & H3).
  apply astype_rint_range, H3.
Qed.

End Coarse_pitch.

Lemma coarse_f0_unfold (self : FeatureInput) (f0 : list Np.npfloat) :
  coarse_f0 self f0 =
  match Np.amax (map (quantise self) f0), Np.amin (map (quantise self) f0) with
  | Some hi, Some lo =>
      if (hi <=? 255)%Z && (1 <=? lo)%Z then Ok (map (quantise self) f0)
      else Raise AssertionError
  | _, _ => Raise ValueError
  end.
Proof.
  unfold coarse_f0. rewrite !List.map_map. reflexivity.
Qed.

Lemma foldl_max_le (b x : Z) (l : list Z) :
  (x <= b)%Z → Forall (λ z, (z <= b)%Z) l → (foldl Z.max x l <= b)%Z.
Proof.
  intros Hx Hl. revert x Hx.
  induction Hl as [|y l Hy _ IH]; intros x Hx; cbn; [exact Hx|].
  apply IH. lia.
Qed.

Lemma foldl_min_ge (b x : Z) (l : list Z) :
  (b <= x)%Z → Forall (λ z, (b <= z)%Z) l → (b <= foldl Z.min x l)%Z.
Proof.
  intros Hx Hl. revert x Hx.
  induction Hl as [|y l Hy _ IH]; intros x Hx; cbn; [exact Hx|].
  apply IH. lia.
Qed.

Lemma quantise_all_range (samplerate hop_size : Z) (f0 : list Np.npfloat) :
  Forall nonneg_real f0 →
  Forall (λ z, (1 <= z <= 255)%Z) (map (quantise (FeatureInput_init samplerate hop_size)) f0).
Proof.
  intros H. apply Forall_map. eapply Forall_impl; [exact H|].
  intros v Hv. apply quantise_range, Hv.
Qed.

(** The helper behind the range of the coarse pitch: on a non-empty array
    of non-negative reals [coarse_f0] returns the entries quantised. *)
Lemma coarse_f0_returns (samplerate hop_size : Z) (f0 : list Np.npfloat) :
  f0 ≠ [] → Forall nonneg_real f0 →
  coarse_f0 (FeatureInput_init samplerate hop_size) f0
  = Ok (map (quantise (FeatureInput_init samplerate hop_size)) f0).
Proof.
  intros Hne Hall. rewrite coarse_f0_unfold.
  pose proof (quantise_all_range samplerate hop_size f0 Hall) as Hr.
  destruct (map _ f0) as [|z zs] eqn:E.
  { destruct f0; [congruence|discriminate]. }
  apply Forall_cons in Hr as [Hz Hzs]. cbn [Np.amax Np.amin].
  assert (Hhi : (foldl Z.max z zs <= 255)%Z).
  { apply foldl_max_le; [lia|]. eapply Forall_impl; [exact Hzs|]. cbn. lia. }
  assert (Hlo : (1 <= foldl Z.min z zs)%Z).
  { apply foldl_min_ge; [lia|]. eapply Forall_impl; [exact Hzs|]. cbn. lia. }
  apply Z.leb_le in Hhi, Hlo. rewrite Hhi, Hlo. reflexivity.
Qed.

(** C5, as stated, fails on the empty array: its entries are all
    non-negative reals, and [coarse_f0] raises [ValueError] on it, for
    NumPy has no maximum of an empty array. *)
Lemma coarse_f0_empty_raises :
  Forall nonneg_real [] ∧
  coarse_f0 (FeatureInput_init 16000 160) [] = Raise ValueError ∧
  ¬ ∃ c : list Z, coarse_f0 (FeatureInput_init 16000 160) [] = Ok c.
Proof.
  split; [constructor|]. split; [reflexivity|].
  intros [c Hc]. discriminate Hc.
Qed.

(** C5, amended: for every non-empty F0 array whose entries are all
    non-negative real numbers, [coarse_f0] returns an integer array of the
    same length whose entries all lie between 1 and [f0_bin - 1 = 255], so
    that its assertion does not fail. *)
Theorem coarse_f0_range (samplerate hop_size : Z) (f0 : list Np.npfloat) :
  f0 ≠ [] → Forall nonneg_real f0 →
  ∃ c : list Z,
    coarse_f0 (FeatureInput_init samplerate hop_size) f0 = Ok c ∧
    length c = length f0 ∧
    Forall (λ z, (1 <= z <= f0_bin (FeatureInput_init samplerate hop_size) - 1)%Z) c ∧
    (f0_bin (FeatureInput_init samplerate hop_size) - 1 = 255)%Z.
Proof.
  intros Hne Hall. eexists. split; [apply coarse_f0_returns; assumption|].
  split; [apply length_map|]. split; [|reflexivity].
  apply quantise_all_range, Hall.
Qed.

Lemma coarse_f0_range_witness :
  ∃ c : list Z,
    coarse_f0 (FeatureInput_init 16000 160) [Np.Real 0; Np.Real 440] = Ok c ∧
    length c = 2 ∧
    Forall (λ z, (1 <= z <= f0_bin (FeatureInput_init 16000 160) - 1)%Z) c ∧
    (f0_bin (FeatureInput_init 16000 160) - 1 = 255)%Z.
Proof.
  apply (coarse_f0_range 16000 160 [Np.Real 0; Np.Real 440]).
  - discriminate.
  - repeat constructor.
    + exists 0%R. split; [reflexivity|apply Rle_refl].
    + exists 440%R. split; [reflexivity|]. apply IZR_le. discriminate.
Defined.

(** ** Effects of the computations *)

Section Effects.

Implicit Types (P Q : event → Prop) (w : world) (p : string).

Lemma follows_refl P w : follows P w w.
Proof.
  exists []. rewrite app_nil_r. repeat split; auto.
Qed.

Lemma follows_trans P w1 w2 w3 :
  follows P w1 w2 → follows P w2 w3 → follows P w1 w3.
Proof.
  intros (evs1 & Hl1 & HP1 & Hd1 & He1 & Hf1) (evs2 & Hl2 & HP2 & Hd2 & He2 & Hf2).
  exists (evs1 ++ evs2)%list. split; [by rewrite Hl2, Hl1, app_assoc|].
  split; [by apply Forall_app|]. split; [auto|]. split; [auto|].
  intros p Hp.
  destruct (Hf1 p) as [E1|[E1 E1']];
    [intros c Hc; apply (Hp c), elem_of_app; auto| |];
    (destruct (Hf2 p) as [E2|[E2 E2']];
      [intros c Hc; apply (Hp c), elem_of_app; auto| |]).
  - left. congruence.
  - right. split; congruence.
  - right. split; congruence.
  - congruence.
Qed.

Lemma follows_mono P Q w w' :
  (∀ e, P e → Q e) → follows P w w' → follows Q w w'.
Proof.
  intros HPQ (evs & Hl & HP & Hrest). exists evs. split; [exact Hl|].
  split; [|exact Hrest]. eapply Forall_impl; eauto.
Qed.

Lemma follows_exists P w w' p :
  follows P w w' → Os.path_exists (files w) p = true → Os.path_exists (files w') p = true.
Proof.
  intros (evs & _ & _ & _ & He & _) H. unfold Os.path_exists in *.
  apply bool_decide_eq_true. apply bool_decide_eq_true in H. auto.
Qed.

Lemma follows_isdir P w w' p :
  follows P w w' → Os.isdir (files w) p = true → Os.isdir (files w') p = true.
Proof.
  intros (evs & _ & _ & Hd & _) H. unfold Os.isdir in *.
  destruct (files w !! p) as [[|c]|] eqn:E; try discriminate.
  by rewrite (Hd p E).
Qed.

(** Without an event that saves, the regular files are the same. *)
Lemma follows_no_save_files w w' p c :
  follows (λ e, is_save e = false) w w' →
  files w' !! p = Some (File c) ↔ files w !! p = Some (File c).
Proof.
  intros (evs & _ & HP & _ & _ & Hf).
  destruct (Hf p) as [E|[E1 E2]].
  - intros c' Hc'. rewrite Forall_forall in HP. specialize (HP _ Hc'). discriminate.
  - by rewrite E.
  - rewrite E1, E2. split; discriminate.
Qed.

(** Without any event the log is the same. *)
Lemma follows_silent_log w w' :
  follows (λ _, False) w w' → log w' = log w.
Proof.
  intros (evs & Hl & HP & _). destruct evs as [|e evs].
  - by rewrite app_nil_r in Hl.
  - by apply Forall_cons in HP as [[] _].
Qed.

Lemma emits_mono {A} P Q (m : M A) :
  (∀ e, P e → Q e) → emits P m → emits Q m.
Proof.
  intros HPQ Hm w w' r H. eapply follows_mono; eauto.
Qed.

Lemma emits_ret {A} P (a : A) : emits P (ret a).
Proof. intros w w' r [= <- _]. apply follows_refl. Qed.

Lemma emits_raise {A} P (e : exn) : emits P (@raise A e).
Proof. intros w w' r [= <- _]. apply follows_refl. Qed.

Lemma emits_lift {A} P (x : result A) : emits P (lift x).
Proof. intros w w' r [= <- _]. apply follows_refl. Qed.

Lemma emits_assert P (b : bool) : emits P (assert b).
Proof. destruct b; [apply emits_ret|apply emits_raise]. Qed.

Lemma emits_bind {A B} P (m : M A) (k : A → M B) :
  emits P m → (∀ a, emits P (k a)) → emits P (bind m k).
Proof.
  intros Hm Hk w w' r. unfold bind.
  destruct (m w) as [w1 [a|e]] eqn:E; intros H.
  - eapply follows_trans; [eapply Hm|eapply Hk]; eauto.
  - injection H as <- _. eapply Hm; eauto.
Qed.

Lemma emits_try_except {A} P (m : M A) (h : exn → M A) :
  emits P m → (∀ e, emits P (h e)) → emits P (try_except m h).
Proof.
  intros Hm Hh w w' r. unfold try_except.
  destruct (m w) as [w1 [a|e]] eqn:E; intros H.
  - injection H as <- _. eapply Hm; eauto.
  - eapply follows_trans; [eapply Hm|eapply Hh]; eauto.
Qed.

Lemma emits_emit P (e : event) : P e → emits P (emit e).
Proof.
  intros He w w' r [= <- _]. exists [e]. cbn. repeat split; auto.
Qed.

Lemma emits_print P (m : message) : P (EvPrint m) → emits P (print m).
Proof. apply emits_emit. Qed.

Lemma emits_for_each {A} P (l : list A) (body : A → M unit) :
  (∀ x, emits P (body x)) → emits P (for_each l body).
Proof.
  intros Hb. induction l as [|x l IH]; cbn.
  - apply emits_ret.
  - apply emits_bind; auto.
Qed.

Lemma emits_for_enumerate {A} P (i : nat) (l : list A) (body : nat → A → M unit) :
  (∀ i x, emits P (body i x)) → emits P (for_enumerate i l body).
Proof.
  intros Hb. revert i. induction l as [|x l IH]; intros i; cbn.
  - apply emits_ret.
  - apply emits_bind; auto.
Qed.

Lemma emits_collect {A B} P (f : A → M B) (l : list A) :
  (∀ x, emits P (f x)) → emits P (collect f l).
Proof.
  intros Hf. induction l as [|x l IH]; cbn.
  - apply emits_ret.
  - apply emits_bind; [auto|]. intros y. apply emits_bind; [auto|].
    intros ys. apply emits_ret.
Qed.

Lemma emits_exists P p : emits P (Os.exists_ p).
Proof. intros w w' r [= <- _]. apply follows_refl. Qed.

Lemma emits_isdir P p : emits P (Os.isdir_ p).
Proof. intros w w' r [= <- _]. apply follows_refl. Qed.

Lemma emits_listdir P p : emits P (Os.listdir p).
Proof.
  intros w w' r. unfold Os.listdir.
  destruct (files w !! p) as [[|c]|]; intros [= <- _]; apply follows_refl.
Qed.

Lemma emits_read_bytes P p : emits P (Os.read_bytes p).
Proof.
  intros w w' r. unfold Os.read_bytes.
  destruct (files w !! p) as [[|[]]|]; intros [= <- _]; apply follows_refl.
Qed.

Lemma path_exists_false (f : gmap string node) p :
  Os.path_exists f p = false → f !! p = None.
Proof.
  unfold Os.path_exists. intros H. apply bool_decide_eq_false in H.
  by apply eq_None_not_Some.
Qed.

Lemma emits_mkdir P p : emits P (Os.mkdir p).
Proof.
  intros w w' r. unfold Os.mkdir.
  destruct (Os.path_exists (files w) p) eqn:Ex; [intros [= <- _]; apply follows_refl|].
  destruct (Os.parent_error (files w) p); intros [= <- _]; [apply follows_refl|].
  apply path_exists_false in Ex.
  exists []. cbn. rewrite app_nil_r. split; [done|]. split; [done|].
  split; [|split].
  - intros q Hq. rewrite lookup_insert_ne; [done|congruence].
  - intros q Hq. destruct (decide (p = q)) as [->|Hne].
    + by rewrite lookup_insert_eq.
    + by rewrite lookup_insert_ne.
  - intros q _. destruct (decide (p = q)) as [->|Hne].
    + right. by rewrite lookup_insert_eq.
    + left. by rewrite lookup_insert_ne.
Qed.

Lemma emits_makedirs_rec P (fuel : nat) p : emits P (Os.makedirs_rec fuel p).
Proof.
  revert p. induction fuel as [|fuel IH]; intros p; cbn [Os.makedirs_rec].
  - apply emits_raise.
  - destruct (Path.split p) as [head tail].
    destruct (if String.eqb tail "" then Path.split head else (head, tail))
      as [head' tail'].
    apply emits_bind.
    + apply emits_bind; [apply emits_exists|]. intros b.
      destruct (_ && _); [|apply emits_ret].
      apply emits_try_except; [apply IH|].
      intros []; (apply emits_ret || apply emits_raise).
    + intros _. apply emits_try_except; [apply emits_mkdir|].
      intros e. apply emits_bind; [apply emits_isdir|].
      intros []; [apply emits_ret|apply emits_raise].
Qed.

Lemma emits_makedirs P p : emits P (Os.makedirs p).
Proof. apply emits_makedirs_rec. Qed.

Lemma emits_np_save P (file : string) (arr : content) :
  P (EvSave (npy_name file) arr) → emits P (np_save file arr).
Proof.
  intros HP w w' r. unfold np_save.
  destruct (files w !! npy_name file) as [[|c]|] eqn:E;
    [intros [= <- _]; apply follows_refl| |];
    (destruct (Os.parent_error (files w) (npy_name file));
      intros [= <- _]; [apply follows_refl|]);
    (exists [EvSave (npy_name file) arr]; cbn; split; [done|];
     split; [by repeat constructor|]; split; [|split]).
  all: intros q Hq.
  all: try (destruct (decide (npy_name file = q)) as [<-|Hne];
            [try congruence; by rewrite lookup_insert_eq|by rewrite lookup_insert_ne]).
  all: left; rewrite lookup_insert_ne; [done|].
  all: intros <-; apply (Hq arr); by apply list_elem_of_singleton.
Qed.

End Effects.

Ltac emits_step :=
  match goal with
  | |- emits _ (bind _ _) => apply emits_bind; [|intros ?]
  | |- emits _ (try_except _ _) => apply emits_try_except; [|intros ?]
  | |- emits _ (ret _) => apply emits_ret
  | |- emits _ (raise _) => apply emits_raise
  | |- emits _ (lift _) => apply emits_lift
  | |- emits _ (assert _) => apply emits_assert
  | |- emits _ (emit _) => apply emits_emit
  | |- emits _ (print _) => apply emits_print
  | |- emits _ (for_each _ _) => apply emits_for_each; intros ?
  | |- emits _ (for_enumerate _ _ _) => apply emits_for_enumerate; intros ? ?
  | |- emits _ (collect _ _) => apply emits_collect; intros ?
  | |- emits _ (Os.exists_ _) => apply emits_exists
  | |- emits _ (Os.isdir_ _) => apply emits_isdir
  | |- emits _ (Os.listdir _) => apply emits_listdir
  | |- emits _ (Os.read_bytes _) => apply emits_read_bytes
  | |- emits _ (Os.mkdir _) => apply emits_mkdir
  | |- emits _ (Os.makedirs _) => apply emits_makedirs
  | |- emits _ (np_save _ _) => apply emits_np_save
  | |- emits _ (if ?b then _ else _) => destruct b
  | |- emits _ (match ?x with _ => _ end) => destruct x
  end.

Ltac emits_auto := repeat emits_step; try done.

Section Program_effects.

Context {L : Libraries}.

Lemma emits_compute_f0 self path f0_method :
  emits (λ e, is_start e = false) (compute_f0 self path f0_method).
Proof. unfold compute_f0. emits_auto. Qed.

Lemma emits_go_item self item f0_method :
  emits (λ e, is_start e = false) (go_item self item f0_method).
Proof.
  destruct item as [[inp_path opt_path1] opt_path2]. unfold go_item.
  emits_auto. apply emits_compute_f0.
Qed.

Lemma emits_go self paths f0_method :
  emits (λ e, is_start e = false) (go self paths f0_method).
Proof.
  unfold go, go_step. emits_auto. apply emits_go_item.
Qed.

Lemma emits_list_names dataset_dir : emits (λ _, False) (list_names dataset_dir).
Proof. unfold list_names. emits_auto. Qed.

Lemma emits_extract_f0_setup training_dir :
  emits (λ _, False) (extract_f0_setup training_dir).
Proof.
  unfold extract_f0_setup. emits_auto. apply emits_list_names.
Qed.

Lemma emits_extract_f0 training_dir num_processes f0_method :
  emits (λ _, True) (extract_f0 training_dir num_processes f0_method).
Proof.
  unfold extract_f0, extract_f0_workers, run_child. emits_auto.
  - eapply emits_mono; [|apply emits_extract_f0_setup]. done.
  - eapply emits_mono; [|apply emits_go]. done.
Qed.

Lemma emits_readwave wav_path normalize : emits (λ _, False) (readwave wav_path normalize).
Proof. unfold readwave. emits_auto. Qed.

Lemma emits_process_file model cfg is_768 wav_dir out_dir file :
  emits (λ e, is_start e = false) (process_file model cfg is_768 wav_dir out_dir file).
Proof.
  unfold process_file. emits_auto.
  all: eapply emits_mono; [|apply emits_readwave]; done.
Qed.

Lemma emits_process model cfg is_768 wav_dir out_dir todo :
  emits (λ e, is_start e = false) (process model cfg is_768 wav_dir out_dir todo).
Proof.
  unfold process, process_step. emits_auto. apply emits_process_file.
Qed.

Lemma emits_list_todo wav_dir : emits (λ _, False) (list_todo wav_dir).
Proof. unfold list_todo. emits_auto. Qed.

Lemma emits_load_model entry : emits (λ e, is_start e = false ∧ is_save e = false) (load_model entry).
Proof.
  unfold load_model, load_transformers_hubert, load_embedder. emits_auto.
Qed.

Lemma emits_extract_feature training_dir embedder_name :
  emits (λ _, True) (extract_feature training_dir embedder_name).
Proof.
  unfold extract_feature, extract_feature_workers, run_until_complete_gather.
  emits_auto.
  - eapply emits_mono; [|apply emits_load_model]. done.
  - eapply emits_mono; [|apply emits_list_todo]. done.
  - eapply emits_mono; [|apply emits_process]. done.
Qed.

End Program_effects.

(** ** Loops and handlers *)

Section Loops.

Lemma for_enumerate_app {A} (i : nat) (l1 l2 : list A) (body : nat → A → M unit) w :
  for_enumerate i (l1 ++ l2) body w =
  match for_enumerate i l1 body w with
  | (w1, Ok _) => for_enumerate (i + length l1) l2 body w1
  | (w1, Raise e) => (w1, Raise e)
  end.
Proof.
  revert i w. induction l1 as [|x l1 IH]; intros i w; cbn [for_enumerate app length].
  - unfold ret. by rewrite Nat.add_0_r.
  - unfold bind. destruct (body i x w) as [w1 [[]|e]]; [|done].
    rewrite IH. by replace (i + S (length l1)) with (S i + length l1) by lia.
Qed.

Lemma for_each_app {A} (l1 l2 : list A) (body : A → M unit) w :
  for_each (l1 ++ l2) body w =
  match for_each l1 body w with
  | (w1, Ok _) => for_each l2 body w1
  | (w1, Raise e) => (w1, Raise e)
  end.
Proof.
  revert w. induction l1 as [|x l1 IH]; intros w; cbn [for_each app]; [done|].
  unfold bind. destruct (body x w) as [w1 [[]|e]]; [|done].
  apply IH.
Qed.

Lemma returns_ret {A} (a : A) : returns (ret a).
Proof. intros w. by exists a. Qed.

Lemma returns_emit (e : event) : returns (emit e).
Proof. intros w. by exists tt. Qed.

Lemma returns_bind {A B} (m : M A) (k : A → M B) :
  returns m → (∀ a, returns (k a)) → returns (bind m k).
Proof.
  intros Hm Hk w. unfold bind. destruct (Hm w) as [a Ha].
  destruct (m w) as [w1 r]. cbn in Ha. subst r. apply Hk.
Qed.

Lemma returns_try_except {A} (m : M A) (h : exn → M A) :
  (∀ e, returns (h e)) → returns (try_except m h).
Proof.
  intros Hh w. unfold try_except. destruct (m w) as [w1 [a|e]].
  - by exists a.
  - apply Hh.
Qed.

Lemma returns_for_each {A} (l : list A) (body : A → M unit) :
  (∀ x, returns (body x)) → returns (for_each l body).
Proof.
  intros Hb. induction l as [|x l IH]; cbn.
  - apply returns_ret.
  - apply returns_bind; auto.
Qed.

Lemma returns_for_enumerate {A} (i : nat) (l : list A) (body : nat → A → M unit) :
  (∀ i x, returns (body i x)) → returns (for_enumerate i l body).
Proof.
  intros Hb. revert i. induction l as [|x l IH]; intros i; cbn.
  - apply returns_ret.
  - apply returns_bind; auto.
Qed.

Lemma returns_unit (m : M unit) w : returns m → m w = ((m w).1, Ok tt).
Proof.
  intros Hm. destruct (Hm w) as [[] Ha]. destruct (m w) as [w1 r].
  cbn in *. by subst.
Qed.

End Loops.

Section Workers.

Context {L : Libraries}.

Lemma go_step_returns self f0_method idx item : returns (go_step self f0_method idx item).
Proof.
  apply returns_try_except. intros e. apply returns_emit.
Qed.

Lemma go_loop_returns self f0_method idx paths :
  returns (for_enumerate idx paths (go_step self f0_method)).
Proof. apply returns_for_enumerate. intros. apply go_step_returns. Qed.

(** [go] is its loop: on the empty list the loop does nothing. *)
Lemma go_loop self paths f0_method :
  go self paths f0_method = for_enumerate 0 paths (go_step self f0_method).
Proof. unfold go. by destruct paths. Qed.

Lemma go_returns self paths f0_method : returns (go self paths f0_method).
Proof. rewrite go_loop. apply go_loop_returns. Qed.

(** The loop of [go] on a list around one item: the items before, the
    turn of the item, then the items after, none of them again. *)
Lemma go_split self f0_method pre item post w :
  go self (pre ++ item :: post) f0_method w =
  for_enumerate (S (length pre)) post (go_step self f0_method)
    (go_step self f0_method (length pre) item (go self pre f0_method w).1).1.
Proof.
  rewrite !go_loop, for_enumerate_app.
  rewrite (returns_unit (for_enumerate 0 pre _) w) by apply go_loop_returns.
  cbn [for_enumerate fst]. unfold bind at 1.
  by rewrite (returns_unit (go_step _ _ _ _)) by apply go_step_returns.
Qed.

Lemma process_step_returns model cfg is_768 wav_dir out_dir file :
  returns (process_step model cfg is_768 wav_dir out_dir file).
Proof.
  apply returns_try_except. intros e.
  apply returns_bind; [apply returns_emit|]. intros _. apply returns_emit.
Qed.

Lemma process_returns model cfg is_768 wav_dir out_dir todo :
  returns (process model cfg is_768 wav_dir out_dir todo).
Proof. apply returns_for_each. intros. apply process_step_returns. Qed.

Lemma process_split model cfg is_768 wav_dir out_dir pre file post w :
  process model cfg is_768 wav_dir out_dir (pre ++ file :: post) w =
  process model cfg is_768 wav_dir out_dir post
    (process_step model cfg is_768 wav_dir out_dir file
       (process model cfg is_768 wav_dir out_dir pre w).1).1.
Proof.
  unfold process at 1. rewrite for_each_app.
  fold (process model cfg is_768 wav_dir out_dir pre).
  rewrite (returns_unit (process _ _ _ _ _ pre) w) by apply process_returns.
  cbn [for_each fst]. unfold bind at 1.
  by rewrite (returns_unit (process_step _ _ _ _ _ _)) by apply process_step_returns.
Qed.

(** The turn of an item whose two outputs exist changes nothing. *)
Lemma go_step_skip self f0_method idx inp_path opt_path1 opt_path2 w :
  Os.path_exists (files w) (opt_path1 ++ ".npy") = true →
  Os.path_exists (files w) (opt_path2 ++ ".npy") = true →
  go_step self f0_method idx (inp_path, opt_path1, opt_path2) w = (w, Ok tt).
Proof.
  intros H1 H2. unfold go_step, try_except, go_item, bind, Os.exists_.
  by rewrite H1, H2.
Qed.

Lemma process_step_skip model cfg is_768 wav_dir out_dir file w :
  Os.path_exists (files w) (Path.join out_dir (Str.replace "wav" "npy" file)) = true →
  process_step model cfg is_768 wav_dir out_dir file w = (w, Ok tt).
Proof.
  intros H. unfold process_step, try_except, process_file, bind, Os.exists_.
  destruct (Str.endswith ".wav" file); [|done]. by rewrite H.
Qed.

(** The turn of an item whose processing raises: the message is printed. *)
Lemma go_step_raise self f0_method idx item w w' e :
  go_item self item f0_method w = (w', Raise e) →
  go_step self f0_method idx item w =
  (World (files w') (log w' ++ [EvPrint (F0Failed idx item.1.1 e)]), Ok tt).
Proof.
  intros H. unfold go_step, try_except. by rewrite H.
Qed.

Lemma process_step_raise model cfg is_768 wav_dir out_dir file w w' e :
  process_file model cfg is_768 wav_dir out_dir file w = (w', Raise e) →
  process_step model cfg is_768 wav_dir out_dir file w =
  (World (files w')
     (log w' ++ [EvPrint (ErrorFile e file); EvPrint (Traceback e)]), Ok tt).
Proof.
  intros H. unfold process_step, try_except. rewrite H.
  unfold bind, print, emit. cbn. by rewrite <- app_assoc.
Qed.

End Workers.

Section Quiet.

Lemma quiet_world {A} (m : M A) w w' r : quiet m → m w = (w', r) → w' = w.
Proof. intros Hm H. eapply Hm, H. Qed.

Lemma quiet_ret {A} (a : A) : quiet (ret a).
Proof. by intros w w' r [= <- _]. Qed.

Lemma quiet_raise {A} (e : exn) : quiet (@raise A e).
Proof. by intros w w' r [= <- _]. Qed.

Lemma quiet_lift {A} (x : result A) : quiet (lift x).
Proof. by intros w w' r [= <- _]. Qed.

Lemma quiet_assert (b : bool) : quiet (assert b).
Proof. destruct b; [apply quiet_ret|apply quiet_raise]. Qed.

Lemma quiet_bind {A B} (m : M A) (k : A → M B) :
  quiet m → (∀ a, quiet (k a)) → quiet (bind m k).
Proof.
  intros Hm Hk w w' r. unfold bind.
  destruct (m w) as [w1 [a|e]] eqn:E; intros H.
  - apply Hm in E as ->. eapply Hk, H.
  - injection H as <- _. eapply Hm, E.
Qed.

Lemma quiet_collect {A B} (f : A → M B) (l : list A) :
  (∀ x, quiet (f x)) → quiet (collect f l).
Proof.
  intros Hf. induction l as [|x l IH]; cbn.
  - apply quiet_ret.
  - apply quiet_bind; [auto|]. intros y. apply quiet_bind; [auto|].
    intros ys. apply quiet_ret.
Qed.

Lemma quiet_exists p : quiet (Os.exists_ p).
Proof. by intros w w' r [= <- _]. Qed.

Lemma quiet_isdir p : quiet (Os.isdir_ p).
Proof. by intros w w' r [= <- _]. Qed.

Lemma quiet_listdir p : quiet (Os.listdir p).
Proof.
  intros w w' r. unfold Os.listdir.
  by destruct (files w !! p) as [[|c]|]; intros [= <- _].
Qed.

Lemma quiet_read_bytes p : quiet (Os.read_bytes p).
Proof.
  intros w w' r. unfold Os.read_bytes.
  by destruct (files w !! p) as [[|[]]|]; intros [= <- _].
Qed.

End Quiet.

Ltac quiet_step :=
  match goal with
  | |- quiet (bind _ _) => apply quiet_bind; [|intros ?]
  | |- quiet (ret _) => apply quiet_ret
  | |- quiet (raise _) => apply quiet_raise
  | |- quiet (lift _) => apply quiet_lift
  | |- quiet (assert _) => apply quiet_assert
  | |- quiet (collect _ _) => apply quiet_collect; intros ?
  | |- quiet (Os.exists_ _) => apply quiet_exists
  | |- quiet (Os.isdir_ _) => apply quiet_isdir
  | |- quiet (Os.listdir _) => apply quiet_listdir
  | |- quiet (Os.read_bytes _) => apply quiet_read_bytes
  | |- quiet (if ?b then _ else _) => destruct b
  | |- quiet (match ?x with _ => _ end) => destruct x
  end.

Ltac quiet_auto := repeat quiet_step.

Section Pitch_files.

Context {L : Libraries}.

(** [compute_f0] writes no file: it leaves its call in the log. *)
Lemma compute_f0_world self path f0_method w w' r :
  compute_f0 self path f0_method w = (w', r) →
  w' = World (files w) (log w ++ [EvPitch path f0_method]).
Proof.
  unfold compute_f0. unfold bind at 1. unfold emit at 1.
  cbv beta iota. apply quiet_world. quiet_auto.
Qed.

Lemma np_save_ok file arr w w' :
  np_save file arr w = (w', Ok tt) →
  w' = World (<[npy_name file := File arr]> (files w))
             (log w ++ [EvSave (npy_name file) arr]).
Proof.
  unfold np_save. intros H. repeat case_match; simplify_eq; done.
Qed.

(** A work item that is processed to the end: the pitch is computed once
    and saved, then quantised and saved. *)
Lemma go_item_ok self inp_path opt_path1 opt_path2 f0_method w w' :
  Os.path_exists (files w) (opt_path1 ++ ".npy")
    && Os.path_exists (files w) (opt_path2 ++ ".npy") = false →
  go_item self (inp_path, opt_path1, opt_path2) f0_method w = (w', Ok tt) →
  ∃ (f0 : list Np.npfloat) (c : list Z),
    compute_f0 self inp_path f0_method w
      = (World (files w) (log w ++ [EvPitch inp_path f0_method]), Ok f0) ∧
    coarse_f0 self f0 = Ok c ∧
    log w' = (log w ++ [EvPitch inp_path f0_method;
                        EvSave (npy_name opt_path2) (NpyFloat f0);
                        EvSave (npy_name opt_path1) (NpyInt c)])%list ∧
    files w' = <[npy_name opt_path1 := File (NpyInt c)]>
                 (<[npy_name opt_path2 := File (NpyFloat f0)]> (files w)).
Proof.
  intros Hskip. unfold go_item, bind, Os.exists_, ret.
  destruct (Os.path_exists (files w) (opt_path1 ++ ".npy"));
    destruct (Os.path_exists (files w) (opt_path2 ++ ".npy"));
    try discriminate Hskip; cbn [andb]; cbv beta iota.
  all: destruct (compute_f0 self inp_path f0_method w) as [w1 [f0|e]] eqn:Hc; [|done].
  all: pose proof (compute_f0_world _ _ _ _ _ _ Hc) as ->.
  all: destruct (np_save opt_path2 _ _) as [w2 [[]|e]] eqn:Hs2; [|done].
  all: apply np_save_ok in Hs2 as ->.
  all: unfold lift; destruct (coarse_f0 self f0) as [c|e] eqn:Hq; [|done].
  all: intros Hs1; apply np_save_ok in Hs1 as ->.
  all: exists f0, c; cbn; by rewrite <- !app_assoc.
Qed.

End Pitch_files.

(** ** The workers, item by item *)

(** C2: when [go] comes to a work item whose two files
    [opt_path1 + ".npy"] and [opt_path2 + ".npy"] exist, the turn of the
    item leaves the world as it is (no pitch is computed, no file is
    written) and [go] goes on with the items after it; and when [process]
    comes to a [.wav] file whose output [.npy] file exists, the turn of the
    file leaves the world as it is and [process] goes on with the files
    after it. *)
Theorem skip_already_processed {L : Libraries}
    (self : FeatureInput) (f0_method : string) (pre post : list work_item)
    (inp_path opt_path1 opt_path2 : string) (w : world)
    (model : embedder) (cfg : option bool) (is_feats_dim_768 : bool)
    (wav_dir out_dir : string) (todo_pre todo_post : list string)
    (file : string) (v : world) :
  let w1 := (go self pre f0_method w).1 in
  let v1 := (process model cfg is_feats_dim_768 wav_dir out_dir todo_pre v).1 in
  Os.path_exists (files w1) (opt_path1 ++ ".npy") = true →
  Os.path_exists (files w1) (opt_path2 ++ ".npy") = true →
  Str.endswith ".wav" file = true →
  Os.path_exists (files v1) (Path.join out_dir (Str.replace "wav" "npy" file)) = true →
  go_step self f0_method (length pre) (inp_path, opt_path1, opt_path2) w1 = (w1, Ok tt) ∧
  go self (pre ++ (inp_path, opt_path1, opt_path2) :: post) f0_method w
    = for_enumerate (S (length pre)) post (go_step self f0_method) w1 ∧
  process_step model cfg is_feats_dim_768 wav_dir out_dir file v1 = (v1, Ok tt) ∧
  process model cfg is_feats_dim_768 wav_dir out_dir (todo_pre ++ file :: todo_post) v
    = process model cfg is_feats_dim_768 wav_dir out_dir todo_post v1.
Proof.
  intros w1 v1 H1 H2 _ H3.
  pose proof (go_step_skip self f0_method (length pre) inp_path _ _ w1 H1 H2) as Hgo.
  pose proof (process_step_skip model cfg is_feats_dim_768 wav_dir out_dir file v1 H3)
    as Hpr.
  split; [exact Hgo|]. split.
  - rewrite go_split. fold w1. by rewrite Hgo.
  - split; [exact Hpr|]. rewrite process_split. fold v1. by rewrite Hpr.
Qed.

Lemma skip_already_processed_witness :
  let self := FeatureInput_init 16000 160 in
  let item := ("t/1_16k_wavs/c.wav", "t/2a_f0/c.wav", "t/2b_f0nsf/c.wav") in
  let model := FairseqModel (L := demo_libraries) tt in
  go_step (L := demo_libraries) self "pm" 0 item demo_world_done = (demo_world_done, Ok tt) ∧
  go (L := demo_libraries) self [item] "pm" demo_world_done
    = for_enumerate 1 [] (go_step (L := demo_libraries) self "pm") demo_world_done ∧
  process_step model None false "t/1_16k_wavs" "t/3_feature256" "0/a.wav" demo_world_done
    = (demo_world_done, Ok tt) ∧
  process model None false "t/1_16k_wavs" "t/3_feature256" ["0/a.wav"] demo_world_done
    = process model None false "t/1_16k_wavs" "t/3_feature256" [] demo_world_done.
Proof.
  exact (skip_already_processed (L := demo_libraries) (FeatureInput_init 16000 160) "pm"
           [] [] "t/1_16k_wavs/c.wav" "t/2a_f0/c.wav" "t/2b_f0nsf/c.wav" demo_world_done
           (FairseqModel (L := demo_libraries) tt) None false
           "t/1_16k_wavs" "t/3_feature256" [] [] "0/a.wav" demo_world_done
           eq_refl eq_refl eq_refl eq_refl).
Defined.

(** C4: whatever exception the processing of one item raises inside [go],
    or of one file inside [process], it is caught and a message is
    printed; the loop goes on with the items after it, without the item
    again; and [go] and [process] return on every list: no exception
    leaves them. *)
Theorem exceptions_contained {L : Libraries}
    (self : FeatureInput) (f0_method : string) (pre post : list work_item)
    (item : work_item) (w w' : world) (e : exn)
    (model : embedder) (cfg : option bool) (is_feats_dim_768 : bool)
    (wav_dir out_dir : string) (todo_pre todo_post : list string)
    (file : string) (v v' : world) (e' : exn) :
  go_item self item f0_method (go self pre f0_method w).1 = (w', Raise e) →
  process_file model cfg is_feats_dim_768 wav_dir out_dir file
    (process model cfg is_feats_dim_768 wav_dir out_dir todo_pre v).1 = (v', Raise e') →
  go self (pre ++ item :: post) f0_method w
    = for_enumerate (S (length pre)) post (go_step self f0_method)
        (World (files w') (log w' ++ [EvPrint (F0Failed (length pre) item.1.1 e)])) ∧
  process model cfg is_feats_dim_768 wav_dir out_dir (todo_pre ++ file :: todo_post) v
    = process model cfg is_feats_dim_768 wav_dir out_dir todo_post
        (World (files v')
           (log v' ++ [EvPrint (ErrorFile e' file); EvPrint (Traceback e')])) ∧
  (∀ paths, returns (go self paths f0_method)) ∧
  (∀ todo, returns (process model cfg is_feats_dim_768 wav_dir out_dir todo)).
Proof.
  intros Hgo Hpr. split; [|split; [|split]].
  - rewrite go_split. by rewrite (go_step_raise _ _ _ _ _ _ _ Hgo).
  - rewrite process_split. by rewrite (process_step_raise _ _ _ _ _ _ _ _ _ Hpr).
  - intros paths. apply go_returns.
  - intros todo. apply process_returns.
Qed.

Lemma exceptions_contained_witness :
  let self := FeatureInput_init 16000 160 in
  let item := ("t/1_16k_wavs/c.wav", "t/2a_f0/c.wav", "t/2b_f0nsf/c.wav") in
  let model := FairseqModel (L := demo_libraries) tt in
  let v' := (process_file model None false "t/1_16k_wavs" "t/3_feature256"
               "0/none.wav" demo_world).1 in
  go (L := demo_libraries) self [item; item] "crepe" demo_world
    = for_enumerate 1 [item] (go_step (L := demo_libraries) self "crepe")
        (World (files demo_world)
           [EvPitch "t/1_16k_wavs/c.wav" "crepe";
            EvPrint (F0Failed 0 "t/1_16k_wavs/c.wav" (UnboundLocalError "f0"))]) ∧
  process model None false "t/1_16k_wavs" "t/3_feature256" ["0/none.wav"; "0/a.wav"]
    demo_world
    = process model None false "t/1_16k_wavs" "t/3_feature256" ["0/a.wav"]
        (World (files v')
           (log v' ++ [EvPrint (ErrorFile (FileNotFoundError "t/1_16k_wavs/0/none.wav")
                                  "0/none.wav");
                       EvPrint (Traceback (FileNotFoundError "t/1_16k_wavs/0/none.wav"))])) ∧
  (∀ paths, returns (go (L := demo_libraries) self paths "crepe")) ∧
  (∀ todo, returns (process model None false "t/1_16k_wavs" "t/3_feature256" todo)).
Proof.
  exact (exceptions_contained (L := demo_libraries) (FeatureInput_init 16000 160) "crepe"
           [] [("t/1_16k_wavs/c.wav", "t/2a_f0/c.wav", "t/2b_f0nsf/c.wav")]
           ("t/1_16k_wavs/c.wav", "t/2a_f0/c.wav", "t/2b_f0nsf/c.wav")
           demo_world
           (World (files demo_world) [EvPitch "t/1_16k_wavs/c.wav" "crepe"])
           (UnboundLocalError "f0")
           (FairseqModel (L := demo_libraries) tt) None false
           "t/1_16k_wavs" "t/3_feature256" [] ["0/a.wav"] "0/none.wav" demo_world
           (process_file (FairseqModel (L := demo_libraries) tt) None false
              "t/1_16k_wavs" "t/3_feature256" "0/none.wav" demo_world).1
           (FileNotFoundError "t/1_16k_wavs/0/none.wav")
           eq_refl eq_refl).
Defined.

(** ** The two pitch files *)

(** The run of a work item from its parts. *)
Lemma go_item_run {L : Libraries} self inp_path opt_path1 opt_path2 f0_method
    w w1 w2 w3 f0 c :
  Os.path_exists (files w) (opt_path1 ++ ".npy")
    && Os.path_exists (files w) (opt_path2 ++ ".npy") = false →
  compute_f0 self inp_path f0_method w = (w1, Ok f0) →
  np_save opt_path2 (NpyFloat f0) w1 = (w2, Ok tt) →
  coarse_f0 self f0 = Ok c →
  np_save opt_path1 (NpyInt c) w2 = (w3, Ok tt) →
  go_item self (inp_path, opt_path1, opt_path2) f0_method w = (w3, Ok tt).
Proof.
  intros Hskip Hc Hs2 Hq Hs1. unfold go_item, bind, Os.exists_, ret.
  destruct (Os.path_exists (files w) (opt_path1 ++ ".npy"));
    destruct (Os.path_exists (files w) (opt_path2 ++ ".npy"));
    try discriminate Hskip; cbn [andb]; cbv beta iota.
  all: rewrite Hc, Hs2; unfold lift; by rewrite Hq, Hs1.
Qed.

Lemma demo_pitch_nonneg : Forall nonneg_real [Np.Real 0; Np.Real 100].
Proof.
  repeat constructor.
  - exists 0%R. split; [reflexivity|apply Rle_refl].
  - exists 100%R. split; [reflexivity|]. apply IZR_le. discriminate.
Qed.

Lemma go_item_demo :
  ∃ w' : world,
    go_item (L := demo_libraries) (FeatureInput_init 16000 160)
      ("t/1_16k_wavs/c.wav", "t/2a_f0/c.wav", "t/2b_f0nsf/c.wav") "pm" demo_world_ready
    = (w', Ok tt).
Proof.
  pose (f0 := [Np.Real 0; Np.Real 100]).
  pose (c := map (quantise (FeatureInput_init 16000 160)) f0).
  pose (w1 := World (files demo_world_ready) [EvPitch "t/1_16k_wavs/c.wav" "pm"]).
  pose (w2 := (np_save "t/2b_f0nsf/c.wav" (NpyFloat f0) w1).1).
  exists (np_save "t/2a_f0/c.wav" (NpyInt c) w2).1.
  apply (go_item_run (L := demo_libraries) _ _ _ _ _ _ w1 w2 _ f0 c).
  - vm_compute. reflexivity.
  - vm_compute. reflexivity.
  - vm_compute. reflexivity.
  - apply coarse_f0_returns; [discriminate|apply demo_pitch_nonneg].
  - subst w2 w1 f0. generalize c. clear c. intros c. vm_compute. reflexivity.
Qed.

(** C6: a work item that [go] processes to the end, without skipping it,
    makes exactly two writes: the pitch contour that [compute_f0] returned
    is saved under [opt_path2], and [coarse_f0] of that same contour under
    [opt_path1]; no other path changes. *)
Theorem two_pitch_files {L : Libraries}
    (self : FeatureInput) (inp_path opt_path1 opt_path2 f0_method : string)
    (w w' : world) :
  Os.path_exists (files w) (opt_path1 ++ ".npy")
    && Os.path_exists (files w) (opt_path2 ++ ".npy") = false →
  go_item self (inp_path, opt_path1, opt_path2) f0_method w = (w', Ok tt) →
  ∃ (f0 : list Np.npfloat) (c : list Z),
    (compute_f0 self inp_path f0_method w).2 = Ok f0 ∧
    coarse_f0 self f0 = Ok c ∧
    log w' = (log w ++ [EvPitch inp_path f0_method;
                        EvSave (npy_name opt_path2) (NpyFloat f0);
                        EvSave (npy_name opt_path1) (NpyInt c)])%list ∧
    files w' = <[npy_name opt_path1 := File (NpyInt c)]>
                 (<[npy_name opt_path2 := File (NpyFloat f0)]> (files w)) ∧
    files w' !! npy_name opt_path1 = Some (File (NpyInt c)) ∧
    (npy_name opt_path1 ≠ npy_name opt_path2 →
     files w' !! npy_name opt_path2 = Some (File (NpyFloat f0))) ∧
    (∀ p, p ≠ npy_name opt_path1 → p ≠ npy_name opt_path2 →
          files w' !! p = files w !! p).
Proof.
  intros Hskip Hrun.
  destruct (go_item_ok _ _ _ _ _ _ _ Hskip Hrun) as (f0 & c & Hc & Hq & Hl & Hf).
  exists f0, c. rewrite Hc. repeat split; try done.
  - rewrite Hf. apply lookup_insert_eq.
  - intros Hne. rewrite Hf, lookup_insert_ne by done. apply lookup_insert_eq.
  - intros p Hp1 Hp2. rewrite Hf. by rewrite !lookup_insert_ne.
Qed.

Lemma two_pitch_files_witness :
  ∃ w' : world,
    go_item (L := demo_libraries) (FeatureInput_init 16000 160)
      ("t/1_16k_wavs/c.wav", "t/2a_f0/c.wav", "t/2b_f0nsf/c.wav") "pm" demo_world_ready
    = (w', Ok tt) ∧
    files w' !! "t/2a_f0/c.wav.npy"
    = Some (File (NpyInt (map (quantise (FeatureInput_init 16000 160))
                            [Np.Real 0; Np.Real 100]))) ∧
    files w' !! "t/2b_f0nsf/c.wav.npy" = Some (File (NpyFloat [Np.Real 0; Np.Real 100])).
Proof.
  destruct go_item_demo as [w' Hrun]. exists w'. split; [exact Hrun|].
  assert (Hskip : Os.path_exists (files demo_world_ready) ("t/2a_f0/c.wav" ++ ".npy")
            && Os.path_exists (files demo_world_ready) ("t/2b_f0nsf/c.wav" ++ ".npy")
            = false) by (vm_compute; reflexivity).
  destruct (two_pitch_files (L := demo_libraries) (FeatureInput_init 16000 160)
              "t/1_16k_wavs/c.wav" "t/2a_f0/c.wav" "t/2b_f0nsf/c.wav" "pm"
              demo_world_ready w' Hskip Hrun)
    as (f0 & c & Hc & Hq & _ & _ & H1 & H2 & _).
  assert (Hf0 : f0 = [Np.Real 0; Np.Real 100]).
  { clear -Hc. vm_compute in Hc. injection Hc as <-. vm_compute. reflexivity. }
  subst f0.
  rewrite coarse_f0_returns in Hq; [|discriminate|apply demo_pitch_nonneg].
  injection Hq as <-. split; [exact H1|]. apply H2. discriminate.
Defined.

(** ** The fan-out *)

Section Stride.

Context {A : Type}.
Implicit Types (l : list A) (skip step i k n : nat).

Local Open Scope nat_scope.

Lemma stride_nil skip step : stride skip step (@nil A) = [].
Proof. done. Qed.

(** The slice holds the entries at the indices [skip + k * step]. *)
Lemma stride_lookup skip step l k :
  1 ≤ step → stride skip step l !! k = l !! (skip + k * step).
Proof.
  intros Hstep. revert skip k.
  induction l as [|x l IH]; intros skip k; [done|].
  destruct skip as [|skip]; cbn [stride].
  - destruct k as [|k]; [done|]. cbn [lookup list_lookup].
    rewrite IH.
    replace (0 + S k * step) with (S (pred step + k * step)) by lia. done.
  - rewrite IH. done.
Qed.

Lemma stride_length skip step l :
  1 ≤ step → length (stride skip step l) = (length l + step - 1 - skip) `div` step.
Proof.
  intros Hstep. revert skip.
  induction l as [|x l IH]; intros skip; cbn [stride length].
  - symmetry. apply Nat.div_small. lia.
  - destruct skip as [|skip]; cbn [length].
    + rewrite IH.
      replace (S (length l) + step - 1 - 0) with (length l + 1 * step) by lia.
      rewrite Nat.div_add by lia.
      replace (length l + step - 1 - pred step) with (length l) by lia. lia.
    + rewrite IH. f_equal. lia.
Qed.

(** The slices of the [n] ranks together are the list, up to the order. *)
Lemma stride_partition n l :
  1 ≤ n → concat (map (λ i, stride i n l) (seq 0 n)) ≡ₚ l.
Proof.
  intros Hn. destruct n as [|m]; [lia|]. clear Hn.
  induction l as [|x l IH].
  - generalize (seq 0 (S m)). intros s. induction s as [|i s IHs]; [done|].
    cbn. by rewrite IHs.
  - rewrite seq_S in IH. rewrite map_app, concat_app in IH. cbn in IH.
    rewrite app_nil_r in IH.
    cbn [seq map concat stride pred].
    rewrite <- seq_shift, List.map_map. cbn [stride].
    rewrite <- app_comm_cons. constructor.
    etrans; [apply Permutation_app_comm|exact IH].
Qed.

Lemma slice_step_lookup n l i k :
  1 ≤ n → slice_step l i n !! k = l !! (i + k * n).
Proof. apply stride_lookup. Qed.

(** The entry at the index [j] is in the slice of the rank [j mod n]. *)
Lemma slice_step_owner n l j :
  1 ≤ n → j `mod` n < n ∧ slice_step l (j `mod` n) n !! (j `div` n) = l !! j.
Proof.
  intros Hn. split; [apply Nat.mod_upper_bound; lia|].
  rewrite slice_step_lookup by done. f_equal.
  pose proof (Nat.div_mod_eq j n). lia.
Qed.

End Stride.

Section Start_events.

Lemma filter_start_none (evs : list event) :
  Forall (λ e, is_start e = false) evs → filter (λ e, is_start e = true) evs = [].
Proof.
  induction 1 as [|e evs He _ IH]; [done|].
  rewrite filter_cons_False; [done|congruence].
Qed.

(** A loop that starts a worker in each turn and lets it run: the starts
    in the log are those of the turns, in their order. *)
Lemma start_events (start : nat → event) (work : nat → M unit) (l : list nat) w :
  (∀ i, is_start (start i) = true) →
  (∀ i, emits (λ e, is_start e = false) (work i)) →
  (∀ i, returns (work i)) →
  ∃ (w' : world) (evs : list event),
    for_each l (λ i, emit (start i) ;;; work i) w = (w', Ok tt) ∧
    log w' = (log w ++ evs)%list ∧
    filter (λ e, is_start e = true) evs = map start l.
Proof.
  intros Hstart Hwork Hret. revert w.
  induction l as [|i l IH]; intros w.
  - exists w, []. by rewrite app_nil_r.
  - cbn [for_each]. unfold bind at 1. unfold bind at 1. unfold emit at 1.
    cbv beta iota.
    set (w0 := World (files w) (log w ++ [start i])).
    pose proof (returns_unit (work i) w0 (Hret i)) as Hrun.
    destruct (Hwork i w0 _ _ Hrun) as (evs1 & Hl1 & HP1 & _).
    rewrite Hrun.
    destruct (IH (work i w0).1) as (w' & evs2 & Hfor & Hl2 & Hf2).
    exists w', (start i :: evs1 ++ evs2)%list. split; [exact Hfor|]. split.
    + rewrite Hl2, Hl1. subst w0. cbn. by rewrite <- !app_assoc.
    + rewrite filter_cons_True by apply Hstart.
      rewrite filter_app, filter_start_none by done. cbn. by rewrite Hf2.
Qed.

End Start_events.

(** With a worker to wait for, [extract_feature_workers] is the loop that
    starts them: the wait returns. *)
Lemma extract_feature_workers_started {L : Libraries}
    (model : embedder) (cfg : option bool) (is_feats_dim_768 : bool)
    (wav_dir out_dir : string) (todo : list string) (n : nat) (v : world) :
  (1 ≤ n)%nat →
  extract_feature_workers model cfg is_feats_dim_768 wav_dir out_dir todo n v
  = for_each (seq 0 n) (λ i,
      emit (EvStartGpuWorker i (slice_step todo i n)) ;;;
      process model cfg is_feats_dim_768 wav_dir out_dir (slice_step todo i n)) v.
Proof.
  intros Hn. unfold extract_feature_workers, run_until_complete_gather.
  destruct n as [|n]; [lia|]. unfold bind at 1.
  by destruct (for_each _ _ v) as [v' [[]|e]].
Qed.

(** C3, as stated, fails: the batches are not of a fixed size.  Three items
    on two workers make a batch of two items and a batch of one. *)
Lemma fan_out_batches_differ :
  slice_step ["a"; "b"; "c"] 0 2 = ["a"; "c"] ∧
  slice_step ["a"; "b"; "c"] 1 2 = ["b"] ∧
  ¬ ∃ size : nat, ∀ i, (i < 2)%nat → length (slice_step ["a"; "b"; "c"] i 2) = size.
Proof.
  split; [done|]. split; [done|].
  intros [size H]. pose proof (H 0%nat ltac:(lia)) as H0.
  pose proof (H 1%nat ltac:(lia)) as H1. cbn in H0, H1. lia.
Qed.

(** C3, amended: for every list of work items and every worker count
    [n >= 1], [extract_f0] starts [n] processes, the [i]-th on
    [paths[i::n]], and [extract_feature] starts [n] GPU workers, the [i]-th
    on [todo[i::n]]; the batch of rank [i] holds the items at the indices
    [i], [i + n], [i + 2n], ..., that is [ceil((len - i) / n)] items, a
    size that depends on the rank and on the length of the list; and every
    work item belongs to exactly one batch: the item at index [j] to that
    of rank [j mod n], and the batches together are the list up to the
    order. *)
Theorem fan_out_partition {L : Libraries} (n : nat)
    (feature_input : FeatureInput) (paths : list work_item) (f0_method : string)
    (model : embedder) (cfg : option bool) (is_feats_dim_768 : bool)
    (wav_dir out_dir : string) (todo : list string) (w v : world) :
  (1 ≤ n)%nat →
  (∃ (w' : world) (evs : list event),
     extract_f0_workers feature_input paths (Z.of_nat n) f0_method w = (w', Ok tt) ∧
     log w' = (log w ++ evs)%list ∧
     filter (λ e, is_start e = true) evs
     = map (λ i, EvStartProcess i (slice_step paths i n)) (seq 0 n)) ∧
  (∃ (v' : world) (evs : list event),
     extract_feature_workers model cfg is_feats_dim_768 wav_dir out_dir todo n v
     = (v', Ok tt) ∧
     log v' = (log v ++ evs)%list ∧
     filter (λ e, is_start e = true) evs
     = map (λ i, EvStartGpuWorker i (slice_step todo i n)) (seq 0 n)) ∧
  (∀ (A : Type) (l : list A),
     (∀ i k, slice_step l i n !! k = l !! (i + k * n)%nat) ∧
     (∀ i, length (slice_step l i n) = ((length l + n - 1 - i) `div` n)%nat) ∧
     (∀ j, (j `mod` n < n)%nat ∧
           slice_step l (j `mod` n)%nat n !! (j `div` n)%nat = l !! j) ∧
     concat (map (λ i, slice_step l i n) (seq 0 n)) ≡ₚ l).
Proof.
  intros Hn. split; [|split].
  - unfold extract_f0_workers, range. rewrite Nat2Z.id.
    apply (start_events (λ i, EvStartProcess i (slice_step paths i n))
             (λ i, run_child (go feature_input (slice_step paths i n) f0_method))).
    + done.
    + intros i. unfold run_child. apply emits_try_except; [apply emits_go|].
      intros e. by apply emits_print.
    + intros i. unfold run_child. apply returns_try_except.
      intros e. apply returns_emit.
  - rewrite extract_feature_workers_started by done.
    apply (start_events (λ i, EvStartGpuWorker i (slice_step todo i n))
             (λ i, process model cfg is_feats_dim_768 wav_dir out_dir
                     (slice_step todo i n))).
    + done.
    + intros i. apply emits_process.
    + intros i. apply process_returns.
  - intros A l. split; [|split; [|split]].
    + intros i k. by apply slice_step_lookup.
    + intros i. by apply stride_length.
    + intros j. by apply slice_step_owner.
    + by apply stride_partition.
Qed.

Lemma fan_out_partition_witness :
  (∃ (w' : world) (evs : list event),
     extract_f0_workers (L := demo_libraries) (FeatureInput_init 16000 160)
       [("a", "b", "c")] 2 "crepe" demo_world = (w', Ok tt) ∧
     log w' = (log demo_world ++ evs)%list ∧
     filter (λ e, is_start e = true) evs
     = [EvStartProcess 0 [("a", "b", "c")]; EvStartProcess 1 []]) ∧
  concat (map (λ i, slice_step ["a"; "b"; "c"] i 2) (seq 0 2)) ≡ₚ ["a"; "b"; "c"].
Proof.
  destruct (fan_out_partition (L := demo_libraries) 2 (FeatureInput_init 16000 160)
              [("a", "b", "c")] "crepe" (FairseqModel (L := demo_libraries) tt)
              None false "t/1_16k_wavs" "t/3_feature256" [] demo_world demo_world)
    as (Hf0 & _ & Hlist).
  - lia.
  - split; [exact Hf0|]. apply (Hlist string ["a"; "b"; "c"]).
Defined.

(** ** The guards on the output directories *)

Section Inversion.

Lemma bind_ok {A B} (m : M A) (k : A → M B) w w' (b : B) :
  bind m k w = (w', Ok b) → ∃ w1 a, m w = (w1, Ok a) ∧ k a w1 = (w', Ok b).
Proof.
  unfold bind. destruct (m w) as [w1 [a|e]]; [|done]. eauto.
Qed.

Lemma exists_run p w : Os.exists_ p w = (w, Ok (Os.path_exists (files w) p)).
Proof. done. Qed.

Lemma mkdir_ok p w w' :
  Os.mkdir p w = (w', Ok tt) → Os.isdir (files w') p = true.
Proof.
  unfold Os.mkdir. destruct (Os.path_exists _ _); [done|].
  destruct (Os.parent_error _ _); [done|]. intros [= <-].
  unfold Os.isdir. cbn. by rewrite lookup_insert_eq.
Qed.

Lemma mkdir_world p w w' r :
  Os.mkdir p w = (w', Raise r) → w' = w.
Proof.
  unfold Os.mkdir. destruct (Os.path_exists _ _); [by intros [= <-]|].
  destruct (Os.parent_error _ _); [by intros [= <-]|done].
Qed.

(** When [os.makedirs] returns, the directory is there. *)
Lemma makedirs_rec_ok fuel p w w' :
  Os.makedirs_rec fuel p w = (w', Ok tt) → Os.isdir (files w') p = true.
Proof.
  destruct fuel as [|fuel]; [done|]. cbn [Os.makedirs_rec].
  destruct (Path.split p) as [head tail].
  destruct (if String.eqb tail "" then Path.split head else (head, tail))
    as [head' tail'].
  intros H. apply bind_ok in H as (w1 & [] & _ & H).
  unfold try_except in H.
  destruct (Os.mkdir p w1) as [w2 [[]|e]] eqn:Hm.
  - injection H as <-. by apply mkdir_ok in Hm.
  - unfold bind, Os.isdir_ in H.
    destruct (Os.isdir (files w2) p) eqn:Hd; [|done].
    by injection H as <-.
Qed.

Lemma makedirs_ok p w w' :
  Os.makedirs p w = (w', Ok tt) → Os.isdir (files w') p = true.
Proof. apply makedirs_rec_ok. Qed.

Lemma isdir_exists (f : gmap string node) p :
  Os.isdir f p = true → Os.path_exists f p = true.
Proof.
  unfold Os.isdir, Os.path_exists. intros H. apply bool_decide_eq_true.
  destruct (f !! p); [done|discriminate].
Qed.

(** [os.makedirs] adds directories and nothing else. *)
Lemma makedirs_follows p w w' r :
  Os.makedirs p w = (w', r) → follows (λ _, False) w w'.
Proof. apply emits_makedirs. Qed.

End Inversion.

Section Guards.

Context {L : Libraries}.

(** With both output directories, [extract_f0] returns at once. *)
Lemma extract_f0_guard training_dir num_processes f0_method w :
  Os.path_exists (files w) (Path.join training_dir "2a_f0") = true →
  Os.path_exists (files w) (Path.join training_dir "2b_f0nsf") = true →
  extract_f0 training_dir num_processes f0_method w = (w, Ok tt).
Proof.
  intros H1 H2. unfold extract_f0, extract_f0_setup, bind, Os.exists_.
  by rewrite H1, H2.
Qed.

(** With the output directory, [extract_feature] returns at once. *)
Lemma extract_feature_guard training_dir embedder_name w :
  Os.path_exists (files w) (Path.join training_dir "3_feature256") = true →
  extract_feature training_dir embedder_name w = (w, Ok None).
Proof.
  intros H. unfold extract_feature, bind, Os.exists_. by rewrite H.
Qed.

(** The setup of [extract_f0] past its guard. *)
Lemma extract_f0_setup_unguarded training_dir w :
  Os.path_exists (files w) (Path.join training_dir "2a_f0")
    && Os.path_exists (files w) (Path.join training_dir "2b_f0nsf") = false →
  extract_f0_setup training_dir w =
  (let dataset_dir := Path.join training_dir "1_16k_wavs" in
   let opt_dir_f0 := Path.join training_dir "2a_f0" in
   let opt_dir_f0_nsf := Path.join training_dir "2b_f0nsf" in
   Os.makedirs opt_dir_f0 ;;;
   Os.makedirs opt_dir_f0_nsf ;;;
   names <- list_names dataset_dir ;;
   let paths := build_paths dataset_dir opt_dir_f0 opt_dir_f0_nsf names in
   for_each (output_dirs paths) (λ dir, Os.makedirs dir.1 ;;; Os.makedirs dir.2) ;;;
   ret (Some paths)) w.
Proof.
  intros Hg. unfold extract_f0_setup. unfold bind at 1 2. unfold Os.exists_, ret.
  destruct (Os.path_exists (files w) (Path.join training_dir "2a_f0"));
    [destruct (Os.path_exists (files w) (Path.join training_dir "2b_f0nsf"));
     [discriminate Hg|]|]; done.
Qed.

(** What a setup that returns work items went through. *)
Lemma extract_f0_setup_paths training_dir w w' paths :
  extract_f0_setup training_dir w = (w', Ok (Some paths)) →
  let dataset_dir := Path.join training_dir "1_16k_wavs" in
  let opt_dir_f0 := Path.join training_dir "2a_f0" in
  let opt_dir_f0_nsf := Path.join training_dir "2b_f0nsf" in
  ∃ (wa wb : world) (names : list string),
    Os.makedirs opt_dir_f0 w = (wa, Ok tt) ∧
    Os.makedirs opt_dir_f0_nsf wa = (wb, Ok tt) ∧
    list_names dataset_dir wb = (wb, Ok names) ∧
    paths = build_paths dataset_dir opt_dir_f0 opt_dir_f0_nsf names ∧
    for_each (output_dirs paths) (λ dir, Os.makedirs dir.1 ;;; Os.makedirs dir.2) wb
    = (w', Ok tt).
Proof.
  intros Hsetup.
  destruct (Os.path_exists (files w) (Path.join training_dir "2a_f0")
            && Os.path_exists (files w) (Path.join training_dir "2b_f0nsf")) eqn:Hg.
  { apply andb_true_iff in Hg as [H1 H2]. revert Hsetup.
    unfold extract_f0_setup, bind, Os.exists_. by rewrite H1, H2. }
  rewrite extract_f0_setup_unguarded in Hsetup by done. cbv zeta in Hsetup.
  apply bind_ok in Hsetup as (wa & [] & Hm1 & Hsetup).
  apply bind_ok in Hsetup as (wb & [] & Hm2 & Hsetup).
  apply bind_ok in Hsetup as (wc & names & Hn & Hsetup).
  apply bind_ok in Hsetup as (wd & [] & Hfe & Hsetup).
  injection Hsetup as <- <-.
  assert (wc = wb) as ->.
  { eapply quiet_world; [|exact Hn]. unfold list_names. quiet_auto. }
  intros dataset_dir opt_dir_f0 opt_dir_f0_nsf. by exists wa, wb, names.
Qed.

(** A run of [extract_f0] that returns leaves both output directories. *)
Lemma extract_f0_done training_dir num_processes f0_method w w' :
  extract_f0 training_dir num_processes f0_method w = (w', Ok tt) →
  Os.path_exists (files w') (Path.join training_dir "2a_f0") = true ∧
  Os.path_exists (files w') (Path.join training_dir "2b_f0nsf") = true.
Proof.
  intros Hrun.
  destruct (Os.path_exists (files w) (Path.join training_dir "2a_f0")
            && Os.path_exists (files w) (Path.join training_dir "2b_f0nsf")) eqn:Hg.
  { apply andb_true_iff in Hg as [H1 H2].
    rewrite extract_f0_guard in Hrun by done. by injection Hrun as <-. }
  unfold extract_f0 in Hrun. apply bind_ok in Hrun as (w1 & setup & Hsetup & Hwork).
  assert (Hafter : follows (λ _, True) w1 w').
  { destruct setup as [paths|]; [|injection Hwork as <-; apply follows_refl].
    refine (_ w1 w' (Ok tt) Hwork).
    change (emits (λ _, True)
              (extract_f0_workers (FeatureInput_init 16000 160) paths
                 num_processes f0_method)).
    unfold extract_f0_workers, run_child. emits_auto.
    eapply emits_mono; [|apply emits_go]. done. }
  rewrite extract_f0_setup_unguarded in Hsetup by done. cbv zeta in Hsetup.
  apply bind_ok in Hsetup as (wa & [] & Hm1 & Hsetup).
  apply bind_ok in Hsetup as (wb & [] & Hm2 & Hsetup).
  assert (Hrest : follows (λ _, True) wb w1).
  { refine (_ wb w1 (Ok setup) Hsetup).
    match goal with |- ∀ w w' r, ?m w = (w', r) → _ => change (emits (λ _, True) m) end.
    emits_auto. eapply emits_mono; [|apply emits_list_names]. done. }
  apply makedirs_ok in Hm1 as Hd1. apply makedirs_ok in Hm2 as Hd2.
  pose proof (makedirs_follows _ _ _ _ Hm2) as Hf2.
  split; apply isdir_exists.
  - eapply follows_isdir; [exact Hafter|].
    eapply follows_isdir; [exact Hrest|].
    eapply follows_isdir; [exact Hf2|exact Hd1].
  - eapply follows_isdir; [exact Hafter|].
    eapply follows_isdir; [exact Hrest|exact Hd2].
Qed.

(** [extract_feature] past its guard. *)
Lemma extract_feature_unguarded training_dir embedder_name w :
  Os.path_exists (files w) (Path.join training_dir "3_feature256") = false →
  extract_feature training_dir embedder_name w =
  (let wav_dir := Path.join training_dir "1_16k_wavs" in
   let out_dir := Path.join training_dir "3_feature256" in
   Os.makedirs out_dir ;;;
   match load_emb_dic !! embedder_name with
   | None => ret (Some ("Not supported embedder: " ++ embedder_name))
   | Some (load, arg) =>
       model_cfg <- load_model (load, arg) ;;
       let '(model, cfg) := model_cfg in
       let is_feats_dim_768 := Str.endswith "768" embedder_name in
       let num_gpus := cuda_device_count in
       todo <- list_todo wav_dir ;;
       extract_feature_workers model cfg is_feats_dim_768 wav_dir out_dir todo num_gpus ;;;
       ret None
   end) w.
Proof.
  intros Hg. unfold extract_feature. unfold bind at 1. unfold Os.exists_.
  by rewrite Hg.
Qed.

(** A run of [extract_feature] that returns leaves the output directory. *)
Lemma extract_feature_done training_dir embedder_name w w' r :
  extract_feature training_dir embedder_name w = (w', Ok r) →
  Os.path_exists (files w') (Path.join training_dir "3_feature256") = true.
Proof.
  intros Hrun.
  destruct (Os.path_exists (files w) (Path.join training_dir "3_feature256")) eqn:Hg.
  { rewrite extract_feature_guard in Hrun by done. by injection Hrun as <-. }
  rewrite extract_feature_unguarded in Hrun by done. cbv zeta in Hrun.
  apply bind_ok in Hrun as (wa & [] & Hm & Hrun).
  apply makedirs_ok in Hm as Hd. apply isdir_exists.
  assert (Hrest : follows (λ _, True) wa w').
  { refine (_ wa w' (Ok r) Hrun).
    match goal with |- ∀ w w' r, ?m w = (w', r) → _ => change (emits (λ _, True) m) end.
    unfold extract_feature_workers, run_until_complete_gather. emits_auto.
    - eapply emits_mono; [|apply emits_load_model]. done.
    - eapply emits_mono; [|apply emits_list_todo]. done.
    - eapply emits_mono; [|apply emits_process]. done. }
  eapply follows_isdir; [exact Hrest|exact Hd].
Qed.

End Guards.

Section Guard_theorems.

Context {L : Libraries}.

Lemma load_model_world entry w w' r :
  load_model entry w = (w', r) →
  w' = World (files w)
         (log w ++ [EvLoadModel match entry.1 with
                                | EmbFile emb_file => emb_file
                                | LoadTransformersHubert => entry.2
                                end]).
Proof.
  unfold load_model. destruct entry.1.
  - unfold load_embedder. unfold bind at 1. unfold emit at 1.
    cbv beta iota. apply quiet_world. quiet_auto.
  - unfold bind at 1, ret.
    destruct (load_transformers_hubert entry.2 w) as [w1 [m|e]] eqn:Hl;
      intros [= <- _]; revert Hl.
    all: unfold load_transformers_hubert; unfold bind at 1; unfold emit at 1.
    all: cbv beta iota; apply quiet_world; quiet_auto.
Qed.

Lemma emits_load_only entry :
  emits (λ e, ∃ name, e = EvLoadModel name) (load_model entry).
Proof.
  unfold load_model, load_transformers_hubert, load_embedder. emits_auto; eauto.
Qed.

Lemma quiet_list_todo wav_dir : quiet (list_todo wav_dir).
Proof. unfold list_todo. quiet_auto. Qed.

Lemma unsupported_lookup (embedder_name : string) :
  embedder_name ∉ ["hubert_base"; "hubert_base768"; "contentvec"; "contentvec768";
                   "distilhubert"; "distilhubert768"] →
  load_emb_dic !! embedder_name = None.
Proof.
  intros H. unfold load_emb_dic. by apply not_elem_of_list_to_map_1.
Qed.

End Guard_theorems.

(** C1, as stated, fails.  A first run of [extract_f0] with a pitch method
    that [compute_f0] does not know fails on every item and leaves the wave
    [c.wav] without outputs; the second run, with the method [pm], finds
    both output directories, returns at once and leaves the world as it
    was: the outputs of [c.wav] are not produced. *)
Lemma rerun_produces_nothing :
  let w1 := (extract_f0 (L := demo_libraries) "t" 1 "crepe" demo_world).1 in
  let w2 := (extract_f0 (L := demo_libraries) "t" 1 "pm" w1).1 in
  files w1 !! "t/1_16k_wavs/c.wav" = Some (File (Bytes "RIFF")) ∧
  files w1 !! "t/2a_f0/c.wav.npy" = None ∧
  files w1 !! "t/2b_f0nsf/c.wav.npy" = None ∧
  w2 = w1 ∧
  files w2 !! "t/2a_f0/c.wav.npy" = None ∧
  files w2 !! "t/2b_f0nsf/c.wav.npy" = None.
Proof.
  vm_compute. repeat split; reflexivity.
Qed.

(** C1, amended: re-running [extract_f0] (resp. [extract_feature]) on a
    [training_dir] after a prior run that returned, whether or not it
    produced all its outputs, finds the output directories [2a_f0] and
    [2b_f0nsf] (resp. [3_feature256]) and returns at once: every input is
    skipped, with or without outputs, and all files are left unchanged. *)
Theorem rerun_returns_at_once {L : Libraries}
    (training_dir : string) (num_processes num_processes' : Z)
    (f0_method f0_method' embedder_name embedder_name' : string)
    (w w1 v v1 : world) (r : option string) :
  extract_f0 training_dir num_processes f0_method w = (w1, Ok tt) →
  extract_feature training_dir embedder_name v = (v1, Ok r) →
  Os.path_exists (files w1) (Path.join training_dir "2a_f0") = true ∧
  Os.path_exists (files w1) (Path.join training_dir "2b_f0nsf") = true ∧
  extract_f0 training_dir num_processes' f0_method' w1 = (w1, Ok tt) ∧
  Os.path_exists (files v1) (Path.join training_dir "3_feature256") = true ∧
  extract_feature training_dir embedder_name' v1 = (v1, Ok None).
Proof.
  intros Hf0 Hfeat.
  destruct (extract_f0_done _ _ _ _ _ Hf0) as [H1 H2].
  pose proof (extract_feature_done _ _ _ _ _ Hfeat) as H3.
  split; [exact H1|]. split; [exact H2|].
  split; [by apply extract_f0_guard|].
  split; [exact H3|]. by apply extract_feature_guard.
Qed.

Lemma rerun_returns_at_once_witness :
  let w1 := (extract_f0 (L := demo_libraries) "t" 1 "crepe" demo_world).1 in
  let v1 := (extract_feature (L := demo_libraries) "t" "hubert_base" demo_world).1 in
  extract_f0 (L := demo_libraries) "t" 2 "pm" w1 = (w1, Ok tt) ∧
  extract_feature (L := demo_libraries) "t" "contentvec" v1 = (v1, Ok None).
Proof.
  intros w1 v1.
  assert (H1 : extract_f0 (L := demo_libraries) "t" 1 "crepe" demo_world = (w1, Ok tt))
    by (vm_compute; reflexivity).
  assert (H2 : extract_feature (L := demo_libraries) "t" "hubert_base" demo_world
               = (v1, Ok None))
    by (vm_compute; reflexivity).
  destruct (rerun_returns_at_once (L := demo_libraries) "t" 1 2 "crepe" "pm"
              "hubert_base" "contentvec" demo_world w1 demo_world v1 None H1 H2)
    as (_ & _ & Hf0 & _ & Hfeat).
  split; [exact Hf0|exact Hfeat].
Defined.

(** C9: for an [embedder_name] outside the six supported keys, a call of
    [extract_feature] that finds no output directory and creates it returns
    the string ["Not supported embedder: <embedder_name>"]; it writes no
    file and prints nothing, but the directory [3_feature256] is there, so
    that every later call on the same [training_dir], with whatever
    embedder, returns at once and extracts nothing. *)
Theorem unsupported_embedder_leaves_directory {L : Libraries}
    (training_dir embedder_name : string) (w w1 : world) :
  embedder_name ∉ ["hubert_base"; "hubert_base768"; "contentvec"; "contentvec768";
                   "distilhubert"; "distilhubert768"] →
  Os.path_exists (files w) (Path.join training_dir "3_feature256") = false →
  Os.makedirs (Path.join training_dir "3_feature256") w = (w1, Ok tt) →
  extract_feature training_dir embedder_name w
    = (w1, Ok (Some ("Not supported embedder: " ++ embedder_name))) ∧
  log w1 = log w ∧
  (∀ p c, files w1 !! p = Some (File c) ↔ files w !! p = Some (File c)) ∧
  Os.isdir (files w1) (Path.join training_dir "3_feature256") = true ∧
  (∀ embedder_name', extract_feature training_dir embedder_name' w1 = (w1, Ok None)).
Proof.
  intros Hname Hg Hm.
  pose proof (makedirs_follows _ _ _ _ Hm) as Hf.
  pose proof (makedirs_ok _ _ _ Hm) as Hd.
  split; [|split; [|split; [|split]]].
  - rewrite extract_feature_unguarded by done. cbv zeta.
    unfold bind. rewrite Hm. by rewrite unsupported_lookup.
  - by apply follows_silent_log.
  - intros p c. apply follows_no_save_files.
    eapply follows_mono; [|exact Hf]. done.
  - exact Hd.
  - intros name'. apply extract_feature_guard. by apply isdir_exists.
Qed.

Lemma unsupported_embedder_leaves_directory_witness :
  let w1 := (Os.makedirs "t/3_feature256" demo_world).1 in
  extract_feature (L := demo_libraries) "t" "wav2vec" demo_world
    = (w1, Ok (Some "Not supported embedder: wav2vec")) ∧
  extract_feature (L := demo_libraries) "t" "hubert_base" w1 = (w1, Ok None).
Proof.
  intros w1.
  assert (Hname : "wav2vec" ∉ ["hubert_base"; "hubert_base768"; "contentvec";
                               "contentvec768"; "distilhubert"; "distilhubert768"]).
  { intros H. repeat (apply elem_of_cons in H as [H|H]; [discriminate H|]).
    by apply elem_of_nil in H. }
  assert (Hg : Os.path_exists (files demo_world) (Path.join "t" "3_feature256") = false)
    by (vm_compute; reflexivity).
  assert (Hm : Os.makedirs (Path.join "t" "3_feature256") demo_world = (w1, Ok tt))
    by (vm_compute; reflexivity).
  destruct (unsupported_embedder_leaves_directory (L := demo_libraries)
              "t" "wav2vec" demo_world w1 Hname Hg Hm)
    as (Hrun & _ & _ & _ & Hlater).
  split; [exact Hrun|apply Hlater].
Defined.

(** C10: when [torch.cuda.device_count()] is 0, a call of [extract_feature]
    with a supported embedder that finds no output directory creates it
    and loads the model, and that is all it does: no worker is started, no
    file is read or embedded, and no file is written.  (The list [todo] is
    still made, and the call raises if the directory of waves cannot be
    listed.  It does not return [None] otherwise either: with no worker to
    wait for, the wait on the event loop raises [ValueError], or
    [RuntimeError] in a thread without an event loop.) *)
Theorem zero_gpu_no_op {L : Libraries}
    (training_dir embedder_name : string) (entry : loader * string)
    (w w1 w2 : world) (model : embedder) (cfg : option bool) :
  cuda_device_count = 0%nat →
  load_emb_dic !! embedder_name = Some entry →
  Os.path_exists (files w) (Path.join training_dir "3_feature256") = false →
  Os.makedirs (Path.join training_dir "3_feature256") w = (w1, Ok tt) →
  load_model entry w1 = (w2, Ok (model, cfg)) →
  extract_feature training_dir embedder_name w
    = (w2, match (list_todo (Path.join training_dir "1_16k_wavs") w2).2 with
           | Ok _ => Raise (if asyncio_has_event_loop then ValueError
                            else RuntimeError)
           | Raise e => Raise e
           end) ∧
  Os.isdir (files w2) (Path.join training_dir "3_feature256") = true ∧
  (∃ name, log w2 = (log w ++ [EvLoadModel name])%list) ∧
  files w2 = files w1 ∧
  (∀ p c, files w2 !! p = Some (File c) ↔ files w !! p = Some (File c)) ∧
  (∀ v : world,
     follows (λ e, ∃ name, e = EvLoadModel name) v
       (extract_feature training_dir embedder_name v).1).
Proof.
  intros Hgpu Hentry Hg Hm Hload.
  pose proof (makedirs_follows _ _ _ _ Hm) as Hf.
  pose proof (makedirs_ok _ _ _ Hm) as Hd.
  pose proof (load_model_world _ _ _ _ Hload) as Hw2.
  assert (Hfiles : files w2 = files w1) by (by rewrite Hw2).
  split; [|split; [|split; [|split; [|split]]]].
  - rewrite extract_feature_unguarded by done. cbv zeta.
    unfold bind at 1. rewrite Hm, Hentry. destruct entry as [load arg].
    unfold bind at 1. rewrite Hload. cbv beta iota.
    unfold bind at 1.
    destruct (list_todo _ w2) as [w3 [todo|e]] eqn:Ht;
      apply quiet_list_todo in Ht as Hw3; subst w3; [|done].
    rewrite Hgpu. unfold extract_feature_workers, run_until_complete_gather.
    cbn [seq for_each]. unfold bind, ret, raise. cbn [snd].
    by destruct asyncio_has_event_loop.
  - unfold Os.isdir. by rewrite Hfiles.
  - eexists. rewrite Hw2. cbn. by rewrite (follows_silent_log _ _ Hf).
  - exact Hfiles.
  - intros p c. rewrite Hfiles. apply follows_no_save_files.
    eapply follows_mono; [|exact Hf]. done.
  - intros v. destruct (extract_feature training_dir embedder_name v) as [v' r] eqn:Hrun.
    refine (_ v v' r Hrun).
    change (emits (λ e, ∃ name, e = EvLoadModel name)
              (extract_feature training_dir embedder_name)).
    unfold extract_feature, extract_feature_workers, run_until_complete_gather.
    rewrite Hgpu. cbn [seq for_each]. emits_auto.
    + apply emits_load_only.
    + eapply emits_mono; [|apply emits_list_todo]. done.
Qed.

Lemma zero_gpu_no_op_witness :
  let w1 := (Os.makedirs "t/3_feature256" demo_world).1 in
  let w2 := World (files w1) [EvLoadModel "hubert_base.pt"] in
  extract_feature (L := demo_libraries_no_gpu) "t" "hubert_base" demo_world
    = (w2, Raise ValueError) ∧
  (∀ p c, files w2 !! p = Some (File c) ↔ files demo_world !! p = Some (File c)).
Proof.
  intros w1 w2.
  assert (Hentry : load_emb_dic !! "hubert_base"
                   = Some (EmbFile "hubert_base.pt", "hubert_base"))
    by (vm_compute; reflexivity).
  assert (Hg : Os.path_exists (files demo_world) (Path.join "t" "3_feature256") = false)
    by (vm_compute; reflexivity).
  assert (Hm : Os.makedirs (Path.join "t" "3_feature256") demo_world = (w1, Ok tt))
    by (vm_compute; reflexivity).
  assert (Hload : load_model (L := demo_libraries_no_gpu)
                    (EmbFile "hubert_base.pt", "hubert_base") w1
                  = (w2, Ok (FairseqModel (L := demo_libraries_no_gpu) tt, Some false)))
    by (vm_compute; reflexivity).
  destruct (zero_gpu_no_op (L := demo_libraries_no_gpu) "t" "hubert_base"
              (EmbFile "hubert_base.pt", "hubert_base") demo_world w1 w2
              (FairseqModel (L := demo_libraries_no_gpu) tt) (Some false)
              eq_refl Hentry Hg Hm Hload)
    as (Hrun & _ & _ & _ & Hsame & _).
  split; [|exact Hsame].
  rewrite Hrun. vm_compute. reflexivity.
Defined.

(** ** The features and their NaN guard *)

Section Suffixes.

Lemma endswith_app (p a b : string) :
  Str.endswith p b = true → Str.endswith p (a ++ b) = true.
Proof.
  intros H. induction a as [|c a IH]; [done|].
  change (Str.endswith p (String c (a ++ b)) = true).
  cbn [Str.endswith]. rewrite IH. apply orb_true_r.
Qed.

Lemma endswith_join (p a b : string) :
  Str.endswith p b = true → Str.endswith p (Path.join a b) = true.
Proof.
  intros H. unfold Path.join.
  destruct (Str.startswith "/" b); [done|].
  destruct (_ || _); [by apply endswith_app|].
  apply endswith_app. by apply (endswith_app p "/").
Qed.

Lemma replace_wav_suffix (fuel : nat) (s : string) :
  (String.length s ≤ fuel)%nat →
  Str.endswith ".wav" s = true →
  Str.endswith ".npy" (Str.replace_fuel fuel "wav" "npy" s) = true.
Proof.
  revert s. induction fuel as [|fuel IH]; intros s Hlen Hend.
  { destruct s; [done|cbn in Hlen; lia]. }
  destruct s as [|c s]; [done|].
  cbn [Str.replace_fuel].
  destruct (Str.startswith "wav" (String c s)) eqn:Hpre.
  - cbn [Str.startswith] in Hpre.
    destruct (Ascii.eqb "w" c) eqn:E1; [|discriminate Hpre].
    destruct s as [|c2 s]; [discriminate Hpre|].
    destruct (Ascii.eqb "a" c2) eqn:E2; [|discriminate Hpre].
    destruct s as [|c3 rest]; [discriminate Hpre|].
    destruct (Ascii.eqb "v" c3) eqn:E3; [|discriminate Hpre].
    apply Ascii.eqb_eq in E1, E2, E3. subst c c2 c3.
    apply (endswith_app ".npy" "npy").
    apply IH; cbn [Str.drop String.length]; [cbn in Hlen; lia|].
    cbn in Hend. exact Hend.
  - cbn [Str.endswith] in Hend. apply orb_true_iff in Hend as [Heq|Hend].
    + apply String.eqb_eq in Heq. injection Heq as <- <-.
      destruct fuel as [|[|[|fuel]]]; cbn in Hlen; try lia. reflexivity.
    + cbn [Str.endswith]. rewrite IH; [apply orb_true_r| |done].
      cbn in Hlen. lia.
Qed.

(** The output path of a [.wav] file ends with [.npy]: [np.save] saves
    under the very path. *)
Lemma npy_name_out (out_dir file : string) :
  Str.endswith ".wav" file = true →
  npy_name (Path.join out_dir (Str.replace "wav" "npy" file))
  = Path.join out_dir (Str.replace "wav" "npy" file).
Proof.
  intros H. unfold npy_name.
  by rewrite endswith_join by (by apply replace_wav_suffix).
Qed.

End Suffixes.

Section Features.

Context {L : Libraries}.

Lemma quiet_readwave wav_path normalize : quiet (readwave wav_path normalize).
Proof. unfold readwave. quiet_auto. Qed.

(** The run of a file that is processed to the end. *)
Lemma process_file_ok model cfg is_feats_dim_768 wav_dir out_dir file w w' :
  Str.endswith ".wav" file = true →
  Os.path_exists (files w) (Path.join out_dir (Str.replace "wav" "npy" file)) = false →
  process_file model cfg is_feats_dim_768 wav_dir out_dir file w = (w', Ok tt) →
  let out_filepath := Path.join out_dir (Str.replace "wav" "npy" file) in
  let wav_filepath := Path.join wav_dir file in
  ∃ (w1 : world) (wave : list Np.npfloat) (feats : list (list Np.npfloat)),
    Os.makedirs (Path.dirname out_filepath) w = (w1, Ok tt) ∧
    readwave wav_filepath (match cfg with None => false | Some n => n end) w1
      = (w1, Ok wave) ∧
    embed model is_feats_dim_768 wave = Ok feats ∧
    (if Nat.eqb (Np.count_nan feats) 0
     then np_save out_filepath (NpyFloat2 feats)
     else print (ContainsNan file))
      (World (files w1) (log w1 ++ [EvEmbed wav_filepath])) = (w', Ok tt).
Proof.
  intros Hwav Hskip. unfold process_file. rewrite Hwav.
  unfold bind at 1. unfold Os.exists_. rewrite Hskip. cbv beta iota.
  intros Hrun.
  apply bind_ok in Hrun as (w1 & [] & Hm & Hrun).
  apply bind_ok in Hrun as (w2 & wave & Hread & Hrun).
  apply quiet_readwave in Hread as Hw2. subst w2.
  apply bind_ok in Hrun as (w3 & [] & [= <-] & Hrun).
  apply bind_ok in Hrun as (w4 & feats & Hemb & Hrun).
  unfold lift in Hemb. injection Hemb as <- Hemb.
  cbv zeta. by exists w1, wave, feats.
Qed.

End Features.

(** C8: for a [.wav] file that [process] processes to the end, without
    skipping it, the array of features is saved under the output [.npy]
    path if and only if none of its entries is NaN; when an entry is NaN
    no file is written, and the message that the file contains NaN is
    printed. *)
Theorem nan_guard {L : Libraries}
    (model : embedder) (cfg : option bool) (is_feats_dim_768 : bool)
    (wav_dir out_dir file : string) (w w' : world) :
  let out_filepath := Path.join out_dir (Str.replace "wav" "npy" file) in
  let wav_filepath := Path.join wav_dir file in
  Str.endswith ".wav" file = true →
  Os.path_exists (files w) out_filepath = false →
  process_file model cfg is_feats_dim_768 wav_dir out_dir file w = (w', Ok tt) →
  ∃ (w1 : world) (wave : list Np.npfloat) (feats : list (list Np.npfloat)),
    Os.makedirs (Path.dirname out_filepath) w = (w1, Ok tt) ∧
    (readwave wav_filepath (match cfg with None => false | Some n => n end) w1).2
      = Ok wave ∧
    embed model is_feats_dim_768 wave = Ok feats ∧
    (files w' !! out_filepath = Some (File (NpyFloat2 feats))
     ↔ Np.count_nan feats = 0%nat) ∧
    (Np.count_nan feats = 0%nat →
     files w' = <[out_filepath := File (NpyFloat2 feats)]> (files w1) ∧
     log w' = (log w ++ [EvEmbed wav_filepath;
                         EvSave out_filepath (NpyFloat2 feats)])%list) ∧
    (Np.count_nan feats ≠ 0%nat →
     files w' = files w1 ∧
     (∀ p c, files w' !! p = Some (File c) ↔ files w !! p = Some (File c)) ∧
     log w' = (log w ++ [EvEmbed wav_filepath; EvPrint (ContainsNan file)])%list).
Proof.
  intros out_filepath wav_filepath Hwav Hskip Hrun.
  subst out_filepath wav_filepath.
  destruct (process_file_ok _ _ _ _ _ _ _ _ Hwav Hskip Hrun)
    as (w1 & wave & feats & Hm & Hread & Hemb & Hend).
  exists w1, wave, feats. rewrite Hread.
  pose proof (makedirs_follows _ _ _ _ Hm) as Hf.
  pose proof (follows_silent_log _ _ Hf) as Hlog.
  assert (Hfiles : ∀ p c, files w1 !! p = Some (File c) ↔ files w !! p = Some (File c)).
  { intros p c. apply follows_no_save_files. eapply follows_mono; [|exact Hf]. done. }
  assert (Hnone : files w !! Path.join out_dir (Str.replace "wav" "npy" file) = None)
    by (by apply path_exists_false).
  split; [done|]. split; [done|]. split; [done|].
  destruct (Nat.eqb (Np.count_nan feats) 0) eqn:Hnan.
  - apply Nat.eqb_eq in Hnan. apply np_save_ok in Hend.
    rewrite npy_name_out in Hend by done. subst w'. cbn [files log].
    split; [|split].
    + split; [done|]. intros _. apply lookup_insert_eq.
    + intros _. split; [done|]. by rewrite Hlog, <- app_assoc.
    + done.
  - apply Nat.eqb_neq in Hnan. injection Hend as <-. cbn [files log].
    split; [|split].
    + split; [|done]. intros Hout. apply Hfiles in Hout. congruence.
    + done.
    + intros _. split; [done|]. split; [exact Hfiles|].
      by rewrite Hlog, <- app_assoc.
Qed.

Lemma nan_guard_witness :
  let model := FairseqModel (L := demo_libraries) tt in
  let w' := (process_file model None false "t/1_16k_wavs" "t/3_feature256"
               "0/b.wav" demo_world).1 in
  ∃ feats : list (list Np.npfloat),
    embed model false [Np.NaN] = Ok feats ∧
    (files w' !! "t/3_feature256/0/b.npy" = Some (File (NpyFloat2 feats))
     ↔ Np.count_nan feats = 0%nat).
Proof.
  intros model w'.
  assert (Hw : process_file model None false "t/1_16k_wavs" "t/3_feature256"
                 "0/b.wav" demo_world = (w', Ok tt)) by (vm_compute; reflexivity).
  destruct (nan_guard (L := demo_libraries) model None false "t/1_16k_wavs"
              "t/3_feature256" "0/b.wav" demo_world w' eq_refl eq_refl Hw)
    as (w1 & wave & feats & Hm & Hread & Hemb & Hiff & _ & _).
  exists feats. split; [|exact Hiff].
  assert (Hw1 : w1 = (Os.makedirs "t/3_feature256/0" demo_world).1).
  { change (w1 = (Os.makedirs
                   (Path.dirname (Path.join "t/3_feature256"
                                    (Str.replace "wav" "npy" "0/b.wav")))
                   demo_world).1).
    by rewrite Hm. }
  subst w1. vm_compute in Hread. injection Hread as <-. exact Hemb.
Defined.

(** ** The mirrored directories *)

Section Listing.

Lemma elem_of_insert_sorted (x y : string) (l : list string) :
  x ∈ Str.insert_sorted y l ↔ x = y ∨ x ∈ l.
Proof.
  induction l as [|z l IH]; cbn [Str.insert_sorted].
  - rewrite list_elem_of_singleton. split; [by left|]. intros [?|H]; [done|].
    by apply elem_of_nil in H.
  - destruct (String.leb y z).
    + by rewrite elem_of_cons.
    + rewrite !elem_of_cons, IH. tauto.
Qed.

(** [sorted] keeps the entries. *)
Lemma elem_of_sorted (x : string) (l : list string) : x ∈ Str.sorted l ↔ x ∈ l.
Proof.
  unfold Str.sorted. induction l as [|y l IH]; cbn [foldr]; [done|].
  by rewrite elem_of_insert_sorted, IH, elem_of_cons.
Qed.

Lemma collect_ok {A B} (f : A → M B) (l : list A) w w' (ys : list B) :
  (∀ x, quiet (f x)) →
  collect f l w = (w', Ok ys) →
  w' = w ∧ Forall2 (λ x y, f x w = (w, Ok y)) l ys.
Proof.
  intros Hq. revert w' ys. induction l as [|x l IH]; intros w' ys; cbn [collect].
  - intros [= <- <-]. by split.
  - intros H. apply bind_ok in H as (w1 & y & Hy & H).
    apply Hq in Hy as Hw1. subst w1.
    apply bind_ok in H as (w2 & ys' & Hys & H).
    apply IH in Hys as [-> Hall]. injection H as <- <-.
    split; [done|]. by constructor.
Qed.

Lemma listdir_ok d w w' (l : list string) :
  Os.listdir d w = (w', Ok l) →
  w' = w ∧ l = Os.entries (files w) d ∧ Os.isdir (files w) d = true.
Proof.
  unfold Os.listdir, Os.isdir. destruct (files w !! d) as [[|c]|]; [|done..].
  by intros [= <- <-].
Qed.

(** The names that [extract_f0] lists are the entries of the directory of
    waves that are no directories, and the entries of those that are, one
    level down, without those that have [spec] in their name. *)
Lemma list_names_shape dataset_dir w w' (names : list string) :
  list_names dataset_dir w = (w', Ok names) →
  ∀ name, name ∈ names →
    (name ∈ Os.entries (files w) dataset_dir ∧
     Os.isdir (files w) (Path.join dataset_dir name) = false) ∨
    (∃ pathname f,
       pathname ∈ Os.entries (files w) dataset_dir ∧
       Os.isdir (files w) (Path.join dataset_dir pathname) = true ∧
       f ∈ Os.entries (files w) (Path.join dataset_dir pathname) ∧
       Str.contains "spec" f = false ∧
       name = Path.join pathname f).
Proof.
  unfold list_names. intros H name Hname.
  apply bind_ok in H as (w1 & top & Htop & H).
  apply listdir_ok in Htop as (-> & -> & _).
  apply bind_ok in H as (w2 & chunks & Hchunks & H).
  injection H as _ <-.
  apply collect_ok in Hchunks as [_ Hall]; [|intros x; quiet_auto].
  apply list_elem_of_In, in_concat in Hname as (chunk & Hchunk & Hin).
  apply list_elem_of_In in Hchunk, Hin.
  apply list_elem_of_lookup in Hchunk as [i Hi].
  destruct (Forall2_lookup_r _ _ _ _ _ Hall Hi) as (pathname & Hp & Hrun).
  apply list_elem_of_lookup_2 in Hp. rewrite elem_of_sorted in Hp.
  unfold bind, Os.isdir_ in Hrun.
  destruct (Os.isdir (files w) (Path.join dataset_dir pathname)) eqn:Hd.
  - destruct (Os.listdir _ w) as [w3 [sub|e]] eqn:Hsub; [|done].
    apply listdir_ok in Hsub as (-> & -> & _).
    injection Hrun as <-.
    apply list_elem_of_fmap in Hin as (f & -> & Hf).
    apply list_elem_of_filter in Hf as [Hspec Hf].
    rewrite elem_of_sorted in Hf.
    right. by exists pathname, f.
  - injection Hrun as <-. apply list_elem_of_singleton in Hin as ->.
    by left.
Qed.

Lemma build_paths_elem dataset_dir opt_dir_f0 opt_dir_f0_nsf names (item : work_item) :
  item ∈ build_paths dataset_dir opt_dir_f0 opt_dir_f0_nsf names →
  ∃ name, name ∈ names ∧
    item = (Path.join dataset_dir name, Path.join opt_dir_f0 name,
            Path.join opt_dir_f0_nsf name).
Proof.
  unfold build_paths. intros H.
  apply list_elem_of_omap in H as (name & Hname & H).
  destruct (Str.contains _ _); [done|]. injection H as <-. by exists name.
Qed.

(** The loop that makes the output directories makes them all. *)
Lemma output_dirs_made (dirs : list (string * string)) w w' :
  for_each dirs (λ dir, Os.makedirs dir.1 ;;; Os.makedirs dir.2) w = (w', Ok tt) →
  follows (λ _, False) w w' ∧
  ∀ dir, dir ∈ dirs →
    Os.isdir (files w') dir.1 = true ∧ Os.isdir (files w') dir.2 = true.
Proof.
  revert w. induction dirs as [|d dirs IH]; intros w; cbn [for_each].
  - intros [= <-]. split; [apply follows_refl|]. intros dir Hd.
    by apply elem_of_nil in Hd.
  - intros H. apply bind_ok in H as (w1 & [] & Hbody & H).
    apply bind_ok in Hbody as (wa & [] & Hm1 & Hm2).
    destruct (IH _ H) as [Hf Hall].
    pose proof (makedirs_follows _ _ _ _ Hm1) as Hf1.
    pose proof (makedirs_follows _ _ _ _ Hm2) as Hf2.
    split.
    { eapply follows_trans; [exact Hf1|]. eapply follows_trans; [exact Hf2|exact Hf]. }
    intros dir Hdir. apply elem_of_cons in Hdir as [->|Hdir]; [|by apply Hall].
    apply makedirs_ok in Hm1, Hm2. split.
    + eapply follows_isdir; [exact Hf|]. eapply follows_isdir; [exact Hf2|done].
    + eapply follows_isdir; [exact Hf|done].
Qed.

End Listing.

(** C7: when [extract_f0] comes to start its workers, every work item it
    has built is made of one relative name under the three directories:
    the wave under [training_dir/1_16k_wavs], the two outputs at the same
    relative path under [training_dir/2a_f0] and [training_dir/2b_f0nsf];
    the name is an entry of the directory of waves, or an entry of one of
    its subdirectories, one level down; and the parent directories of both
    output paths are there before the first worker is started. *)
Theorem directory_mirroring {L : Libraries}
    (training_dir : string) (num_processes : Z) (f0_method : string)
    (w w' : world) (paths : list work_item) :
  let dataset_dir := Path.join training_dir "1_16k_wavs" in
  let opt_dir_f0 := Path.join training_dir "2a_f0" in
  let opt_dir_f0_nsf := Path.join training_dir "2b_f0nsf" in
  extract_f0_setup training_dir w = (w', Ok (Some paths)) →
  extract_f0 training_dir num_processes f0_method w
    = extract_f0_workers (FeatureInput_init 16000 160) paths num_processes f0_method w' ∧
  log w' = log w ∧
  ∃ wb : world,
    follows (λ _, False) w wb ∧ follows (λ _, False) wb w' ∧
    ∀ item : work_item, item ∈ paths →
      ∃ name : string,
        item = (Path.join dataset_dir name, Path.join opt_dir_f0 name,
                Path.join opt_dir_f0_nsf name) ∧
        ((name ∈ Os.entries (files wb) dataset_dir ∧
          Os.isdir (files wb) (Path.join dataset_dir name) = false) ∨
         (∃ sub f,
            sub ∈ Os.entries (files wb) dataset_dir ∧
            Os.isdir (files wb) (Path.join dataset_dir sub) = true ∧
            f ∈ Os.entries (files wb) (Path.join dataset_dir sub) ∧
            name = Path.join sub f)) ∧
        Os.isdir (files w') (Path.dirname (Path.join opt_dir_f0 name)) = true ∧
        Os.isdir (files w') (Path.dirname (Path.join opt_dir_f0_nsf name)) = true.
Proof.
  intros dataset_dir opt_dir_f0 opt_dir_f0_nsf Hsetup.
  split; [|split].
  - unfold extract_f0, bind. by rewrite Hsetup.
  - apply follows_silent_log. eapply emits_extract_f0_setup, Hsetup.
  - destruct (extract_f0_setup_paths _ _ _ _ Hsetup)
      as (wa & wb & names & Hm1 & Hm2 & Hnames & Hpaths & Hdirs).
    fold dataset_dir opt_dir_f0 opt_dir_f0_nsf in Hm1, Hm2, Hnames, Hpaths.
    destruct (output_dirs_made _ _ _ Hdirs) as [Hf Hmade].
    exists wb. split; [|split; [exact Hf|]].
    { eapply follows_trans; eapply makedirs_follows; eassumption. }
    intros item Hitem. pose proof Hitem as Hbuilt. rewrite Hpaths in Hbuilt.
    apply build_paths_elem in Hbuilt as (name & Hname & ->).
    exists name. split; [done|]. split.
    + destruct (list_names_shape _ _ _ _ Hnames name Hname)
        as [?|(sub & f & ? & ? & ? & _ & ?)]; [by left|].
      right. by exists sub, f.
    + apply (Hmade (Path.dirname (Path.join opt_dir_f0 name),
                    Path.dirname (Path.join opt_dir_f0_nsf name))).
      unfold output_dirs. apply elem_of_remove_dups.
      by apply (list_elem_of_fmap_2
                  (λ p : work_item, (Path.dirname p.1.2, Path.dirname p.2)) _ _ Hitem).
Qed.

Lemma directory_mirroring_witness :
  ∃ name : string,
    ("t/1_16k_wavs/0/a.wav", "t/2a_f0/0/a.wav", "t/2b_f0nsf/0/a.wav")
    = (Path.join "t/1_16k_wavs" name, Path.join "t/2a_f0" name,
       Path.join "t/2b_f0nsf" name) ∧
    Os.isdir (files demo_world_ready) (Path.dirname (Path.join "t/2a_f0" name)) = true ∧
    Os.isdir (files demo_world_ready) (Path.dirname (Path.join "t/2b_f0nsf" name)) = true.
Proof.
  assert (Hsetup : extract_f0_setup "t" demo_world
                   = (demo_world_ready,
                      Ok (Some [("t/1_16k_wavs/0/a.wav", "t/2a_f0/0/a.wav",
                                 "t/2b_f0nsf/0/a.wav");
                                ("t/1_16k_wavs/0/b.wav", "t/2a_f0/0/b.wav",
                                 "t/2b_f0nsf/0/b.wav");
                                ("t/1_16k_wavs/c.wav", "t/2a_f0/c.wav",
                                 "t/2b_f0nsf/c.wav")])))
    by (vm_compute; reflexivity).
  destruct (directory_mirroring (L := demo_libraries) "t" 1 "pm" demo_world
              demo_world_ready _ Hsetup) as (_ & _ & wb & _ & _ & Hitems).
  destruct (Hitems ("t/1_16k_wavs/0/a.wav", "t/2a_f0/0/a.wav", "t/2b_f0nsf/0/a.wav")
              ltac:(apply list_elem_of_here))
    as (name & Hn & _ & Hd1 & Hd2).
  exists name. split; [exact Hn|]. split; [exact Hd1|exact Hd2].
Defined.

(** * Further properties *)

(** ** The padding of the pitch contour *)

(** X1: the padding of [compute_f0] for the method [pm] never fails and
    never shortens the contour: a contour shorter than [p_len] frames is
    padded with zeros to [p_len] frames, the contour in the middle and the
    odd zero in front; a contour of [p_len] frames or more is returned as
    it is. *)
Theorem pad_f0_centres (p_len : Z) (f0 : list Np.npfloat) :
  let missing := (p_len - Z.of_nat (length f0))%Z in
  pad_f0 p_len f0
  = Ok (replicate (Z.to_nat ((missing + 1) / 2)) (Np.Real 0) ++ f0
        ++ replicate (Z.to_nat (missing / 2)) (Np.Real 0))%list ∧
  ∃ f0' : list Np.npfloat,
    pad_f0 p_len f0 = Ok f0' ∧
    Z.of_nat (length f0') = Z.max p_len (Z.of_nat (length f0)).
Proof.
  intros missing.
  assert (Hrun : pad_f0 p_len f0
            = Ok (replicate (Z.to_nat ((missing + 1) / 2)) (Np.Real 0) ++ f0
                  ++ replicate (Z.to_nat (missing / 2)) (Np.Real 0))%list).
  { unfold pad_f0. fold missing.
    destruct (Z_lt_le_dec 0 missing) as [Hpos|Hneg].
    - assert (0 < (missing + 1) / 2)%Z by (apply Z.div_str_pos; lia).
      replace (0 <? (missing + 1) / 2)%Z with true by (symmetry; by apply Z.ltb_lt).
      cbn [orb]. unfold Np.pad.
      assert (0 <= missing - (missing + 1) / 2)%Z
        by (pose proof (Z.div_mod (missing + 1) 2 ltac:(lia));
            pose proof (Z.mod_pos_bound (missing + 1) 2 ltac:(lia)); lia).
      replace ((missing + 1) / 2 <? 0)%Z with false by (symmetry; apply Z.ltb_ge; lia).
      replace (missing - (missing + 1) / 2 <? 0)%Z with false
        by (symmetry; apply Z.ltb_ge; lia).
      cbn [orb]. do 4 f_equal.
      pose proof (Z.div_mod (missing + 1) 2 ltac:(lia)).
      pose proof (Z.mod_pos_bound (missing + 1) 2 ltac:(lia)).
      pose proof (Z.div_mod missing 2 ltac:(lia)).
      pose proof (Z.mod_pos_bound missing 2 ltac:(lia)). lia.
    - assert ((missing + 1) / 2 <= 0)%Z.
      { pose proof (Z.div_mod (missing + 1) 2 ltac:(lia)).
        pose proof (Z.mod_pos_bound (missing + 1) 2 ltac:(lia)). lia. }
      assert (missing / 2 <= 0)%Z.
      { pose proof (Z.div_mod missing 2 ltac:(lia)).
        pose proof (Z.mod_pos_bound missing 2 ltac:(lia)). lia. }
      assert (missing - (missing + 1) / 2 <= 0)%Z.
      { pose proof (Z.div_mod (missing + 1) 2 ltac:(lia)).
        pose proof (Z.mod_pos_bound (missing + 1) 2 ltac:(lia)). lia. }
      replace (0 <? (missing + 1) / 2)%Z with false by (symmetry; apply Z.ltb_ge; lia).
      replace (0 <? missing - (missing + 1) / 2)%Z with false
        by (symmetry; apply Z.ltb_ge; lia).
      cbn [orb].
      replace (Z.to_nat ((missing + 1) / 2)) with 0%nat by lia.
      replace (Z.to_nat (missing / 2)) with 0%nat by lia.
      cbn. by rewrite app_nil_r. }
  split; [exact Hrun|]. eexists. split; [exact Hrun|].
  rewrite !length_app, !length_replicate.
  pose proof (Z.div_mod (missing + 1) 2 ltac:(lia)).
  pose proof (Z.mod_pos_bound (missing + 1) 2 ltac:(lia)).
  pose proof (Z.div_mod missing 2 ltac:(lia)).
  pose proof (Z.mod_pos_bound missing 2 ltac:(lia)).
  subst missing. lia.
Qed.

(** ** The quantisation of the pitch *)

Section Quantisation.

Local Open Scope R_scope.

Implicit Types (x y m : R).

Lemma mel_of_le x y : 0 <= x → x <= y → mel_of x <= mel_of y.
Proof.
  intros Hx Hxy. unfold mel_of. destruct (Req_dec x y) as [->|Hne]; [lra|].
  assert (ln (1 + x / 700) < ln (1 + y / 700)) by (apply ln_increasing; lra).
  lra.
Qed.

Lemma mel_of_0 : mel_of 0 = 0.
Proof.
  unfold mel_of. replace (1 + 0 / 700) with 1 by lra. rewrite ln_1. lra.
Qed.

Lemma mel_of_pos x : 0 < x → 0 < mel_of x.
Proof.
  intros Hx. unfold mel_of.
  assert (ln 1 < ln (1 + x / 700)) by (apply ln_increasing; lra).
  rewrite ln_1 in *. lra.
Qed.

Lemma mel_of_apart : 0 < mel_of 1100 - mel_of 50.
Proof.
  unfold mel_of.
  assert (ln (1 + 50 / 700) < ln (1 + 1100 / 700)) by (apply ln_increasing; lra).
  lra.
Qed.

Lemma bin_of_range x : 1 <= bin_of x <= 255.
Proof.
  unfold bin_of, Rmin, Rmax. cbv zeta.
  repeat destruct (Rle_dec _ _); lra.
Qed.

(** The bin grows with the frequency. *)
Lemma bin_of_le x y : 0 <= x → x <= y → bin_of x <= bin_of y.
Proof.
  intros Hx Hxy. pose proof (mel_of_le x y Hx Hxy) as Hm.
  pose proof mel_of_apart as Hd.
  assert (Hk : 0 < 254 / (mel_of 1100 - mel_of 50)).
  { apply Rdiv_lt_0_compat; lra. }
  assert (Hscale : ∀ m m', m <= m' →
            (m - mel_of 50) * 254 / (mel_of 1100 - mel_of 50)
            <= (m' - mel_of 50) * 254 / (mel_of 1100 - mel_of 50)).
  { intros m m' Hmm. unfold Rdiv. rewrite !Rmult_assoc.
    apply Rmult_le_compat_r; [|lra]. unfold Rdiv in Hk. lra. }
  specialize (Hscale _ _ Hm).
  assert (Hx0 : 0 <= mel_of x).
  { rewrite <- mel_of_0. apply mel_of_le; lra. }
  unfold bin_of, Rmin, Rmax. cbv zeta.
  destruct (Rlt_dec 0 (mel_of x)); destruct (Rlt_dec 0 (mel_of y));
    repeat destruct (Rle_dec _ _); lra.
Qed.

Lemma bin_of_low x : 0 <= x → x <= 50 → bin_of x = 1.
Proof.
  intros Hx Hhi. pose proof (mel_of_le x 50 Hx Hhi) as Hm.
  pose proof mel_of_apart as Hd.
  assert (Hscaled : (mel_of x - mel_of 50) * 254 / (mel_of 1100 - mel_of 50) <= 0).
  { unfold Rdiv. rewrite Rmult_assoc.
    assert (0 < 254 * / (mel_of 1100 - mel_of 50)).
    { apply Rmult_lt_0_compat; [lra|]. by apply Rinv_0_lt_compat. }
    replace 0 with (0 * (254 * / (mel_of 1100 - mel_of 50))) by lra.
    apply Rmult_le_compat_r; lra. }
  unfold bin_of, Rmin, Rmax. cbv zeta.
  destruct (Rlt_dec 0 (mel_of x)); repeat destruct (Rle_dec _ _); lra.
Qed.

Lemma bin_of_high x : 1100 <= x → bin_of x = 255.
Proof.
  intros Hlo. pose proof (mel_of_le 1100 x ltac:(lra) Hlo) as Hm.
  pose proof mel_of_apart as Hd.
  pose proof (mel_of_pos x ltac:(lra)) as Hpos.
  assert (Hscaled : 254 <= (mel_of x - mel_of 50) * 254 / (mel_of 1100 - mel_of 50)).
  { unfold Rdiv. rewrite Rmult_assoc.
    assert (0 < / (mel_of 1100 - mel_of 50)) by (by apply Rinv_0_lt_compat).
    replace 254 with ((mel_of 1100 - mel_of 50) * (254 * / (mel_of 1100 - mel_of 50)))
      at 1 by (field; lra).
    apply Rmult_le_compat_r; [|lra].
    apply Rmult_le_pos; lra. }
  unfold bin_of, Rmin, Rmax. cbv zeta.
  destruct (Rlt_dec 0 (mel_of x)); repeat destruct (Rle_dec _ _); lra.
Qed.

Lemma Int_part_le x y : x <= y → (Int_part x <= Int_part y)%Z.
Proof.
  intros Hxy. destruct (Int_part_bounds x) as [Hx _].
  destruct (Int_part_bounds y) as [_ Hy].
  assert (Int_part x < Int_part y + 1)%Z by (apply lt_IZR; rewrite plus_IZR; lra).
  lia.
Qed.

Lemma round_half_even_IZR (n : Z) : Np.round_half_even (IZR n) = n.
Proof.
  unfold Np.round_half_even. rewrite Int_part_IZR.
  destruct (Rlt_dec _ _) as [_|N]; [done|]. exfalso. apply N. lra.
Qed.

(** Rounding to the nearest integer keeps the order. *)
Lemma round_half_even_le x y :
  x <= y → (Np.round_half_even x <= Np.round_half_even y)%Z.
Proof.
  intros Hxy. pose proof (Int_part_le x y Hxy) as Hfl.
  destruct (Int_part_bounds x) as [Hx1 Hx2].
  destruct (Int_part_bounds y) as [Hy1 Hy2].
  unfold Np.round_half_even.
  destruct (Z.eq_dec (Int_part x) (Int_part y)) as [Heq|Hne].
  - rewrite <- Heq in *.
    repeat destruct (Rlt_dec _ _); try lia; try lra.
    all: destruct (Z.even (Int_part x)); lia.
  - assert (Int_part x + 1 <= Int_part y)%Z by lia.
    repeat destruct (Rlt_dec _ _); try lia.
    all: repeat destruct (Z.even _); lia.
Qed.

Lemma astype_rint_eq y :
  1 <= y <= 255 → Np.astype_int (Np.rint (Np.Real y)) = Np.round_half_even y.
Proof.
  intros Hy. pose proof (round_half_even_range y Hy) as Hr.
  cbn [Np.rint Np.astype_int]. unfold Np.trunc.
  destruct (Rle_dec 0 (IZR (Np.round_half_even y))) as [_|N].
  - rewrite Int_part_IZR.
    replace (Np.INT64_MIN <=? _)%Z with true
      by (symmetry; apply Z.leb_le; unfold Np.INT64_MIN; lia).
    by replace (_ <? 2 ^ 63)%Z with true by (symmetry; apply Z.ltb_lt; lia).
  - exfalso. apply N. apply IZR_le. lia.
Qed.

(** What [coarse_f0] makes of a non-negative real: its bin, rounded. *)
Lemma quantise_bin_of (samplerate hop_size : Z) x :
  0 <= x →
  quantise (FeatureInput_init samplerate hop_size) (Np.Real x)
  = Np.round_half_even (bin_of x).
Proof.
  intros Hx. unfold quantise. rewrite mel_of_nonneg by exact Hx.
  fold (mel_of x).
  assert (Hclip : clip_high (FeatureInput_init samplerate hop_size)
                    (clip_low (rescale (FeatureInput_init samplerate hop_size)
                                 (Np.Real (mel_of x))))
                  = Np.Real (bin_of x)).
  { unfold rescale, Np.fgt, Np.flt, Np.of_int.
    cbn [FeatureInput_init f0_mel_min f0_mel_max f0_bin].
    rewrite !mel_of_nonneg by lra. fold (mel_of 50) (mel_of 1100).
    change (256 - 2)%Z with 254%Z.
    unfold bin_of. cbv zeta.
    destruct (Rlt_dec 0 (mel_of x)) as [Hpos|Hneg].
    - unfold Np.fsub. cbn [Np.fneg Np.fadd Np.fmul Np.fdiv].
      destruct (Req_dec_T _ 0) as [E|_].
      { pose proof mel_of_apart. lra. }
      cbn [Np.fadd].
      replace (mel_of x + - mel_of 50) with (mel_of x - mel_of 50) by lra.
      replace (mel_of 1100 + - mel_of 50) with (mel_of 1100 - mel_of 50) by lra.
      set (scaled := (mel_of x - mel_of 50) * 254 / (mel_of 1100 - mel_of 50) + 1).
      unfold clip_low, clip_high, Np.fle, Np.fgt, Np.flt, Np.of_int, Rmin, Rmax.
      cbn [FeatureInput_init f0_bin]. change (256 - 1)%Z with 255%Z.
      destruct (Rle_dec scaled 1); destruct (Rle_dec 1 scaled); try lra.
      all: repeat (destruct (Rlt_dec _ _) || destruct (Rle_dec _ _));
        try lra; f_equal; lra.
    - unfold clip_low, clip_high, Np.fle, Np.fgt, Np.flt, Np.of_int, Rmin, Rmax.
      cbn [FeatureInput_init f0_bin]. change (256 - 1)%Z with 255%Z.
      destruct (Rle_dec (mel_of x) 1); destruct (Rle_dec 1 (mel_of x)); try lra.
      all: repeat (destruct (Rlt_dec _ _) || destruct (Rle_dec _ _));
        try lra; f_equal; lra. }
  rewrite Hclip. apply astype_rint_eq, bin_of_range.
Qed.

End Quantisation.

(** X2: the quantisation saturates at both ends: every frequency from 0 to
    [f0_min = 50] Hz, the 0 of an unvoiced frame among them, falls in bin
    1, and every frequency from [f0_max = 1100] Hz on in bin 255. *)
Theorem coarse_f0_saturates (samplerate hop_size : Z) (lo hi : R) :
  (0 <= lo <= 50)%R → (1100 <= hi)%R →
  coarse_f0 (FeatureInput_init samplerate hop_size) [Np.Real lo; Np.Real hi]
  = Ok [1%Z; 255%Z].
Proof.
  intros Hlo Hhi. rewrite coarse_f0_returns; [|done|].
  - cbn [map]. rewrite !quantise_bin_of by lra.
    rewrite bin_of_low, bin_of_high by lra. by rewrite !round_half_even_IZR.
  - repeat constructor; [exists lo|exists hi]; split; try done; lra.
Qed.

Lemma coarse_f0_saturates_witness :
  coarse_f0 (FeatureInput_init 16000 160) [Np.Real 0; Np.Real 1100] = Ok [1%Z; 255%Z].
Proof.
  apply (coarse_f0_saturates 16000 160 0 1100).
  - split; [apply Rle_refl|]. apply IZR_le. discriminate.
  - apply Rle_refl.
Defined.

(** X3: the quantisation keeps the order of the frequencies: of two
    non-negative frequencies the higher one never falls in a lower bin. *)
Theorem coarse_f0_monotone (samplerate hop_size : Z) (x y : R) :
  (0 <= x)%R → (x <= y)%R →
  ∃ bx by' : Z,
    coarse_f0 (FeatureInput_init samplerate hop_size) [Np.Real x; Np.Real y]
    = Ok [bx; by'] ∧
    (bx <= by')%Z.
Proof.
  intros Hx Hxy. eexists _, _. split.
  - rewrite coarse_f0_returns; [reflexivity|done|].
    repeat constructor; [exists x|exists y]; split; try done; lra.
  - rewrite !quantise_bin_of by lra.
    apply round_half_even_le, bin_of_le; lra.
Qed.

Lemma coarse_f0_monotone_witness :
  ∃ bx by' : Z,
    coarse_f0 (FeatureInput_init 16000 160) [Np.Real 100; Np.Real 440] = Ok [bx; by'] ∧
    (bx <= by')%Z.
Proof.
  apply (coarse_f0_monotone 16000 160 100 440).
  - apply IZR_le. discriminate.
  - apply IZR_le. discriminate.
Defined.

Section Failed_assertion.

Lemma quantise_nan (self : FeatureInput) : quantise self Np.NaN = Np.INT64_MIN.
Proof. reflexivity. Qed.

Lemma foldl_min_le_init (x : Z) (l : list Z) : (foldl Z.min x l <= x)%Z.
Proof.
  revert x. induction l as [|y l IH]; intros x; cbn [foldl]; [lia|].
  specialize (IH (Z.min x y)). lia.
Qed.

Lemma foldl_min_le_elem (x z : Z) (l : list Z) :
  z ∈ l → (foldl Z.min x l <= z)%Z.
Proof.
  revert x. induction l as [|y l IH]; intros x Hz; [by apply elem_of_nil in Hz|].
  cbn [foldl]. apply elem_of_cons in Hz as [->|Hz]; [|by apply IH].
  pose proof (foldl_min_le_init (Z.min x y) l). lia.
Qed.

Lemma amin_le_elem (z : Z) (l : list Z) :
  z ∈ l → ∃ lo, Np.amin l = Some lo ∧ (lo <= z)%Z.
Proof.
  destruct l as [|x l]; [intros H; by apply elem_of_nil in H|].
  intros Hz. eexists. split; [reflexivity|].
  apply elem_of_cons in Hz as [->|Hz].
  - apply foldl_min_le_init.
  - by apply foldl_min_le_elem.
Qed.

End Failed_assertion.

(** X4: a NaN anywhere in the pitch contour makes the assertion of
    [coarse_f0] fail, whatever the other entries are: the conversion to
    integers turns the NaN into the least integer, below the bin 1. *)
Theorem coarse_f0_nan_fails (self : FeatureInput) (f0 : list Np.npfloat) :
  Np.NaN ∈ f0 → coarse_f0 self f0 = Raise AssertionError.
Proof.
  intros Hnan. rewrite coarse_f0_unfold.
  assert (Hin : Np.INT64_MIN ∈ map (quantise self) f0).
  { rewrite <- (quantise_nan self). by apply list_elem_of_fmap_2. }
  destruct (amin_le_elem _ _ Hin) as (lo & -> & Hlo).
  destruct (Np.amax _) as [hi|] eqn:Hmax.
  - replace (1 <=? lo)%Z with false.
    + by rewrite andb_false_r.
    + symmetry. apply Z.leb_gt. unfold Np.INT64_MIN in Hlo. lia.
  - destruct (map (quantise self) f0); [by apply elem_of_nil in Hin|done].
Qed.

Lemma coarse_f0_nan_fails_witness :
  coarse_f0 (FeatureInput_init 16000 160) [Np.Real 440; Np.NaN]
  = Raise AssertionError.
Proof.
  apply (coarse_f0_nan_fails (FeatureInput_init 16000 160) [Np.Real 440; Np.NaN]).
  apply list_elem_of_further, list_elem_of_here.
Defined.


(** ** The worker of the pitch extraction *)

Section Pitch_worker.

Context {L : Libraries}.

Lemma emits_compute_f0_pitch (P : event → Prop) self path f0_method :
  P (EvPitch path f0_method) → emits P (compute_f0 self path f0_method).
Proof. intros HP. unfold compute_f0. emits_auto. Qed.

(** A computation that never returns: what follows it does not run. *)
Lemma emits_bind_raises {A B} (P : event → Prop) (m : M A) (k : A → M B) :
  emits P m → (∀ w, ∃ e, (m w).2 = Raise e) → emits P (bind m k).
Proof.
  intros Hm Hraise w w' r. unfold bind. destruct (Hraise w) as [e He].
  destruct (m w) as [w1 [a|e1]] eqn:E; [discriminate He|].
  intros [= <- _]. eapply Hm, E.
Qed.

(** With a method that is none of [pm], [harvest] and [dio], [compute_f0]
    comes to its [return f0] without an [f0], if it comes that far. *)
Lemma compute_f0_unknown self path f0_method w :
  f0_method ∉ ["pm"; "harvest"; "dio"] →
  ∃ e, (compute_f0 self path f0_method w).2 = Raise e.
Proof.
  intros Hm.
  assert (H1 : String.eqb f0_method "pm" = false).
  { apply String.eqb_neq. intros ->. apply Hm. set_solver. }
  assert (H2 : String.eqb f0_method "harvest" = false).
  { apply String.eqb_neq. intros ->. apply Hm. set_solver. }
  assert (H3 : String.eqb f0_method "dio" = false).
  { apply String.eqb_neq. intros ->. apply Hm. set_solver. }
  unfold compute_f0. rewrite H1, H2, H3.
  unfold bind, emit, Os.read_bytes, lift, assert, raise, ret. cbn [files].
  destruct (files w !! path) as [[|[b| | |]]|]; cbn; eauto.
  destruct (librosa_load b (fs self)) as [[x sr]|e]; cbn; eauto.
  destruct (floordiv _ _); cbn; eauto.
  destruct (sr =? fs self)%Z; cbn; eauto.
Qed.

Lemma np_save_world file arr w w' r :
  np_save file arr w = (w', r) →
  (r = Ok tt ∧
   w' = World (<[npy_name file := File arr]> (files w))
          (log w ++ [EvSave (npy_name file) arr])) ∨
  (∃ e, r = Raise e ∧ w' = w).
Proof.
  unfold np_save. intros H. repeat case_match; simplify_eq; eauto.
Qed.

(** Whatever becomes of a work item, the files other than its two outputs
    are as they were. *)
Lemma go_item_frame self inp_path opt_path1 opt_path2 f0_method w w' r p :
  go_item self (inp_path, opt_path1, opt_path2) f0_method w = (w', r) →
  p ≠ npy_name opt_path1 → p ≠ npy_name opt_path2 →
  files w' !! p = files w !! p.
Proof.
  intros Hrun Hp1 Hp2. revert Hrun. unfold go_item, bind, Os.exists_, ret.
  destruct (Os.path_exists (files w) (opt_path1 ++ ".npy"));
    destruct (Os.path_exists (files w) (opt_path2 ++ ".npy"));
    cbn [andb]; cbv beta iota; try (by intros [= <- _]).
  all: destruct (compute_f0 self inp_path f0_method w) as [w1 [f0|e]] eqn:Hc;
    pose proof (compute_f0_world _ _ _ _ _ _ Hc) as ->; [|by intros [= <- _]].
  all: destruct (np_save opt_path2 _ _) as [w2 r2] eqn:Hs2;
    apply np_save_world in Hs2 as [[-> ->]|(e' & -> & ->)];
    [|by intros [= <- _]].
  all: unfold lift; destruct (coarse_f0 self f0) as [c|e];
    [|intros [= <- _]; cbn [files]; by rewrite lookup_insert_ne].
  all: intros Hs1; apply np_save_world in Hs1 as [[_ ->]|(e' & _ & ->)];
    cbn [files]; by rewrite ?lookup_insert_ne.
Qed.

Lemma go_step_frame self f0_method idx (item : work_item) w w' r p :
  go_step self f0_method idx item w = (w', r) →
  p ≠ npy_name item.1.2 → p ≠ npy_name item.2 →
  files w' !! p = files w !! p.
Proof.
  destruct item as [[inp_path opt_path1] opt_path2]. cbn [fst snd].
  unfold go_step, try_except.
  destruct (go_item _ _ _ w) as [w1 [[]|e]] eqn:Hitem; intros [= <- _] Hp1 Hp2;
    cbn [files]; eapply go_item_frame; eauto.
Qed.

Lemma go_loop_frame self f0_method (paths : list work_item) idx w w' r p :
  for_enumerate idx paths (go_step self f0_method) w = (w', r) →
  (∀ item : work_item, item ∈ paths → p ≠ npy_name item.1.2 ∧ p ≠ npy_name item.2) →
  files w' !! p = files w !! p.
Proof.
  revert idx w. induction paths as [|item paths IH]; intros idx w; cbn [for_enumerate].
  - by intros [= <- _].
  - unfold bind. destruct (go_step _ _ idx item w) as [w1 [[]|e]] eqn:Hstep.
    + intros Hrest Hp. destruct (Hp item ltac:(left)) as [Hp1 Hp2].
      rewrite (IH _ _ Hrest); [|intros i Hi; apply Hp; by right].
      eapply go_step_frame; eauto.
    + intros [= <- _] Hp. destruct (Hp item ltac:(left)) as [Hp1 Hp2].
      eapply go_step_frame; eauto.
Qed.

End Pitch_worker.

(** X5: [go] changes no file but the outputs of its work items: a path
    that is the [.npy] name of no [opt_path1] and no [opt_path2] of the
    list holds after [go] what it held before; the waves are not touched,
    and nothing is deleted. *)
Theorem go_touches_outputs_only {L : Libraries}
    (self : FeatureInput) (paths : list work_item) (f0_method : string)
    (w : world) (p : string) :
  (∀ item : work_item, item ∈ paths → p ≠ npy_name item.1.2 ∧ p ≠ npy_name item.2) →
  files (go self paths f0_method w).1 !! p = files w !! p.
Proof.
  intros Hp. rewrite go_loop.
  destruct (for_enumerate 0 paths (go_step self f0_method) w) as [w' r] eqn:Hrun.
  eapply go_loop_frame; eauto.
Qed.

Lemma go_touches_outputs_only_witness :
  files (go (L := demo_libraries) (FeatureInput_init 16000 160)
           [("t/1_16k_wavs/c.wav", "t/2a_f0/c.wav", "t/2b_f0nsf/c.wav")] "pm"
           demo_world_ready).1 !! "t/1_16k_wavs/c.wav"
  = files demo_world_ready !! "t/1_16k_wavs/c.wav".
Proof.
  apply (go_touches_outputs_only (L := demo_libraries)).
  intros item Hitem. apply list_elem_of_singleton in Hitem as ->.
  split; intros H; vm_compute in H; discriminate H.
Defined.

(** X6: [go] writes its two files one after the other, not both or none:
    when [coarse_f0] raises on the contour of an item, the contour is
    already saved under [opt_path2]; the failure is printed, nothing is
    saved under [opt_path1], and [go] goes on. *)
Theorem go_half_written {L : Libraries}
    (self : FeatureInput) (inp_path opt_path1 opt_path2 f0_method : string)
    (idx : nat) (w w1 : world) (f0 : list Np.npfloat) (e : exn) :
  Os.path_exists (files w) (opt_path1 ++ ".npy")
    && Os.path_exists (files w) (opt_path2 ++ ".npy") = false →
  compute_f0 self inp_path f0_method w = (w1, Ok f0) →
  (np_save opt_path2 (NpyFloat f0) w1).2 = Ok tt →
  coarse_f0 self f0 = Raise e →
  ∃ w' : world,
    go_step self f0_method idx (inp_path, opt_path1, opt_path2) w = (w', Ok tt) ∧
    files w' = <[npy_name opt_path2 := File (NpyFloat f0)]> (files w) ∧
    log w' = (log w ++ [EvPitch inp_path f0_method;
                        EvSave (npy_name opt_path2) (NpyFloat f0);
                        EvPrint (F0Failed idx inp_path e)])%list.
Proof.
  intros Hskip Hc Hs2 Hq.
  pose proof (compute_f0_world _ _ _ _ _ _ Hc) as ->.
  destruct (np_save opt_path2 (NpyFloat f0) _) as [w2 r2] eqn:Hsave.
  cbn [snd] in Hs2. subst r2. apply np_save_ok in Hsave as Hw2.
  eexists. split.
  - unfold go_step, try_except, go_item, bind, Os.exists_, ret.
    destruct (Os.path_exists (files w) (opt_path1 ++ ".npy"));
      destruct (Os.path_exists (files w) (opt_path2 ++ ".npy"));
      try discriminate Hskip; cbn [andb]; cbv beta iota.
    all: rewrite Hc, Hsave; unfold lift; rewrite Hq; reflexivity.
  - subst w2. cbn [files log]. split; [done|]. by rewrite <- !app_assoc.
Qed.

Lemma go_half_written_witness :
  ∃ w' : world,
    go_step (L := demo_libraries_nan_pitch) (FeatureInput_init 16000 160) "pm" 0
      ("t/1_16k_wavs/c.wav", "t/2a_f0/c.wav", "t/2b_f0nsf/c.wav") demo_world_ready
    = (w', Ok tt) ∧
    files w' = <[npy_name "t/2b_f0nsf/c.wav" := File (NpyFloat [Np.Real 0; Np.NaN])]>
                 (files demo_world_ready) ∧
    log w' = (log demo_world_ready
              ++ [EvPitch "t/1_16k_wavs/c.wav" "pm";
                  EvSave (npy_name "t/2b_f0nsf/c.wav") (NpyFloat [Np.Real 0; Np.NaN]);
                  EvPrint (F0Failed 0 "t/1_16k_wavs/c.wav" AssertionError)])%list.
Proof.
  apply (go_half_written (L := demo_libraries_nan_pitch) (FeatureInput_init 16000 160)
           "t/1_16k_wavs/c.wav" "t/2a_f0/c.wav" "t/2b_f0nsf/c.wav" "pm" 0
           demo_world_ready
           (World (files demo_world_ready) [EvPitch "t/1_16k_wavs/c.wav" "pm"])).
  - vm_compute. reflexivity.
  - vm_compute. reflexivity.
  - vm_compute. reflexivity.
  - rewrite coarse_f0_unfold.
    assert (Hin : Np.INT64_MIN ∈ map (quantise (FeatureInput_init 16000 160))
                                  [Np.Real 0; Np.NaN]).
    { apply list_elem_of_further, list_elem_of_here. }
    destruct (amin_le_elem _ _ Hin) as (lo & -> & Hlo).
    cbn [map Np.amax].
    replace (1 <=? lo)%Z with false; [by rewrite andb_false_r|].
    symmetry. apply Z.leb_gt. unfold Np.INT64_MIN in Hlo. lia.
Defined.

Section Unknown_method.

Context {L : Libraries}.

Lemma emits_go_unknown self paths f0_method :
  f0_method ∉ ["pm"; "harvest"; "dio"] →
  emits (λ e, is_save e = false) (go self paths f0_method).
Proof.
  intros Hm. unfold go, go_step. emits_auto.
  match goal with |- emits _ (go_item _ ?item _) => destruct item as [[inp o1] o2] end.
  unfold go_item.
  apply emits_bind; [apply emits_exists|intros done1].
  apply emits_bind; [destruct done1; [apply emits_exists|apply emits_ret]|intros done2].
  destruct (done1 && done2); [apply emits_ret|].
  apply emits_bind_raises; [by apply emits_compute_f0_pitch|].
  intros w. by apply compute_f0_unknown.
Qed.

Lemma emits_extract_f0_unknown training_dir num_processes f0_method :
  f0_method ∉ ["pm"; "harvest"; "dio"] →
  emits (λ e, is_save e = false) (extract_f0 training_dir num_processes f0_method).
Proof.
  intros Hm. unfold extract_f0, extract_f0_workers, run_child. emits_auto.
  - eapply emits_mono; [|apply emits_extract_f0_setup]. done.
  - by apply emits_go_unknown.
Qed.

End Unknown_method.

(** X7: with an [f0_method] that is none of [pm], [harvest] and [dio],
    [extract_f0] saves nothing: every item fails in [compute_f0], the
    failures are only printed, and the regular files are those of before
    (the output directories are made all the same). *)
Theorem unknown_method_writes_nothing {L : Libraries}
    (training_dir : string) (num_processes : Z) (f0_method : string) (w : world) :
  f0_method ∉ ["pm"; "harvest"; "dio"] →
  let w' := (extract_f0 training_dir num_processes f0_method w).1 in
  (∀ p c, files w' !! p = Some (File c) ↔ files w !! p = Some (File c)) ∧
  ∃ evs : list event,
    log w' = (log w ++ evs)%list ∧ Forall (λ e, is_save e = false) evs.
Proof.
  intros Hm w'.
  assert (Hf : follows (λ e, is_save e = false) w w').
  { subst w'. destruct (extract_f0 _ _ _ w) as [w1 r] eqn:Hrun.
    eapply emits_extract_f0_unknown; eauto. }
  split.
  - intros p c. by apply follows_no_save_files.
  - destruct Hf as (evs & Hlog & HP & _). by exists evs.
Qed.

Lemma unknown_method_writes_nothing_witness :
  let w' := (extract_f0 (L := demo_libraries) "t" 2 "crepe" demo_world).1 in
  files w' !! "t/2a_f0/c.wav.npy" = Some (File (NpyInt [1%Z]))
  ↔ files demo_world !! "t/2a_f0/c.wav.npy" = Some (File (NpyInt [1%Z])).
Proof.
  intros w'.
  apply (unknown_method_writes_nothing (L := demo_libraries) "t" 2 "crepe" demo_world).
  intros H. repeat (apply elem_of_cons in H as [H|H]; [discriminate H|]).
  by apply elem_of_nil in H.
Defined.

Section Second_turn.

Context {L : Libraries}.

Lemma npy_name_plain (file : string) :
  Str.endswith ".npy" file = false → npy_name file = file ++ ".npy".
Proof. intros H. unfold npy_name. by rewrite H. Qed.

Lemma path_exists_insert (f : gmap string node) (p q : string) (n : node) :
  Os.path_exists f p = true ∨ p = q → Os.path_exists (<[q := n]> f) p = true.
Proof.
  unfold Os.path_exists. intros H. apply bool_decide_eq_true.
  destruct (decide (q = p)) as [->|Hne].
  - rewrite lookup_insert_eq. by eexists.
  - rewrite lookup_insert_ne by done. destruct H as [H| ->]; [|done].
    by apply bool_decide_eq_true in H.
Qed.

End Second_turn.

(** X8: the skip of [go] finds what [go] has written, when neither output
    path ends with [.npy]: after the turn of an item has come to its end,
    on every later state of the files the turn of that item is a skip. *)
Theorem go_second_turn_skips {L : Libraries}
    (self : FeatureInput) (inp_path opt_path1 opt_path2 f0_method f0_method' : string)
    (idx : nat) (w w' w'' : world) :
  Str.endswith ".npy" opt_path1 = false →
  Str.endswith ".npy" opt_path2 = false →
  go_item self (inp_path, opt_path1, opt_path2) f0_method w = (w', Ok tt) →
  follows (λ _, True) w' w'' →
  go_step self f0_method' idx (inp_path, opt_path1, opt_path2) w'' = (w'', Ok tt).
Proof.
  intros H1 H2 Hrun Hlater.
  assert (Hdone : Os.path_exists (files w') (opt_path1 ++ ".npy") = true ∧
                  Os.path_exists (files w') (opt_path2 ++ ".npy") = true).
  { destruct (Os.path_exists (files w) (opt_path1 ++ ".npy")
              && Os.path_exists (files w) (opt_path2 ++ ".npy")) eqn:Hskip.
    - apply andb_true_iff in Hskip as [E1 E2]. revert Hrun.
      unfold go_item, bind, Os.exists_, ret. rewrite E1, E2. cbn [andb].
      by intros [= <-].
    - destruct (go_item_ok _ _ _ _ _ _ _ Hskip Hrun) as (f0 & c & _ & _ & _ & Hf).
      rewrite Hf, !npy_name_plain by done. split.
      + apply path_exists_insert. by right.
      + apply path_exists_insert. left. apply path_exists_insert. by right. }
  destruct Hdone as [E1 E2].
  apply go_step_skip; eapply follows_exists; eauto.
Qed.

Lemma go_second_turn_skips_witness :
  ∃ w' : world,
    go_item (L := demo_libraries) (FeatureInput_init 16000 160)
      ("t/1_16k_wavs/c.wav", "t/2a_f0/c.wav", "t/2b_f0nsf/c.wav") "pm" demo_world_ready
    = (w', Ok tt) ∧
    go_step (L := demo_libraries) (FeatureInput_init 16000 160) "harvest" 0
      ("t/1_16k_wavs/c.wav", "t/2a_f0/c.wav", "t/2b_f0nsf/c.wav") w' = (w', Ok tt).
Proof.
  destruct go_item_demo as [w' Hrun]. exists w'. split; [exact Hrun|].
  apply (go_second_turn_skips (L := demo_libraries) (FeatureInput_init 16000 160)
           "t/1_16k_wavs/c.wav" "t/2a_f0/c.wav" "t/2b_f0nsf/c.wav" "pm" "harvest" 0
           demo_world_ready w' w').
  - reflexivity.
  - reflexivity.
  - exact Hrun.
  - apply follows_refl.
Defined.

(** X9: with [num_processes] zero or negative, [extract_f0] starts no
    process and returns: nothing is computed, printed or saved, but the
    output directories are made, so that every later call, with whatever
    number of processes, returns at once. *)
Theorem no_process_no_output {L : Libraries}
    (training_dir : string) (num_processes num_processes' : Z)
    (f0_method f0_method' : string) (w w' : world) :
  (num_processes <= 0)%Z →
  extract_f0 training_dir num_processes f0_method w = (w', Ok tt) →
  log w' = log w ∧
  (∀ p c, files w' !! p = Some (File c) ↔ files w !! p = Some (File c)) ∧
  extract_f0 training_dir num_processes' f0_method' w' = (w', Ok tt).
Proof.
  intros Hn Hrun.
  assert (Hf : follows (λ _, False) w w').
  { revert Hrun. unfold extract_f0, extract_f0_workers, range.
    replace (Z.to_nat num_processes) with 0%nat by lia. cbn [seq for_each].
    intros Hrun.
    refine (_ w w' (Ok tt) Hrun).
    match goal with |- ∀ w w' r, ?m w = (w', r) → _ => change (emits (λ _, False) m) end.
    emits_auto. apply emits_extract_f0_setup. }
  split; [by apply follows_silent_log|]. split.
  - intros p c. apply follows_no_save_files. eapply follows_mono; [|exact Hf]. done.
  - destruct (extract_f0_done _ _ _ _ _ Hrun) as [H1 H2]. by apply extract_f0_guard.
Qed.

Lemma no_process_no_output_witness :
  let w' := (extract_f0 (L := demo_libraries) "t" 0 "pm" demo_world).1 in
  log w' = log demo_world ∧
  extract_f0 (L := demo_libraries) "t" 4 "pm" w' = (w', Ok tt).
Proof.
  intros w'.
  assert (Hrun : extract_f0 (L := demo_libraries) "t" 0 "pm" demo_world = (w', Ok tt))
    by (vm_compute; reflexivity).
  destruct (no_process_no_output (L := demo_libraries) "t" 0 4 "pm" "pm"
              demo_world w' ltac:(lia) Hrun) as (Hlog & _ & Hlater).
  split; [exact Hlog|exact Hlater].
Defined.

(** X10: [extract_f0] makes its output directories before it lists the
    waves: when the directory [1_16k_wavs] is missing, the call raises
    [FileNotFoundError] with both output directories made, and a later
    call, after the waves have been put in place, returns at once. *)
Theorem missing_waves_leave_directories {L : Libraries}
    (training_dir : string) (num_processes num_processes' : Z)
    (f0_method f0_method' : string) (w wa wb wc : world) :
  Os.path_exists (files w) (Path.join training_dir "2a_f0")
    && Os.path_exists (files w) (Path.join training_dir "2b_f0nsf") = false →
  Os.makedirs (Path.join training_dir "2a_f0") w = (wa, Ok tt) →
  Os.makedirs (Path.join training_dir "2b_f0nsf") wa = (wb, Ok tt) →
  files wb !! Path.join training_dir "1_16k_wavs" = None →
  follows (λ _, True) wb wc →
  extract_f0 training_dir num_processes f0_method w
    = (wb, Raise (FileNotFoundError (Path.join training_dir "1_16k_wavs"))) ∧
  extract_f0 training_dir num_processes' f0_method' wc = (wc, Ok tt).
Proof.
  intros Hg Hm1 Hm2 Hmissing Hlater. split.
  - unfold extract_f0. unfold bind at 1.
    rewrite extract_f0_setup_unguarded by done. cbv zeta.
    unfold bind at 1. rewrite Hm1. unfold bind at 1. rewrite Hm2.
    unfold bind at 1. unfold list_names. unfold bind at 1.
    unfold Os.listdir. by rewrite Hmissing.
  - apply makedirs_ok in Hm1 as Hd1. apply makedirs_ok in Hm2 as Hd2.
    pose proof (makedirs_follows _ _ _ _ Hm2) as Hf2.
    apply extract_f0_guard; apply isdir_exists.
    + eapply follows_isdir; [exact Hlater|]. eapply follows_isdir; [exact Hf2|done].
    + eapply follows_isdir; [exact Hlater|done].
Qed.

Lemma missing_waves_leave_directories_witness :
  let w := World {["t" := Dir]} [] in
  let wb := World (<["t/2b_f0nsf" := Dir]> (<["t/2a_f0" := Dir]> {["t" := Dir]})) [] in
  let wc := World (<["t/1_16k_wavs" := Dir]> (files wb)) [] in
  extract_f0 (L := demo_libraries) "t" 1 "pm" w
    = (wb, Raise (FileNotFoundError "t/1_16k_wavs")) ∧
  extract_f0 (L := demo_libraries) "t" 1 "pm" wc = (wc, Ok tt).
Proof.
  intros w wb wc.
  apply (missing_waves_leave_directories (L := demo_libraries) "t" 1 1 "pm" "pm"
           w (World (<["t/2a_f0" := Dir]> {["t" := Dir]}) []) wb wc).
  - vm_compute. reflexivity.
  - vm_compute. reflexivity.
  - vm_compute. reflexivity.
  - vm_compute. reflexivity.
  - exists []. split; [done|]. split; [done|]. split; [|split].
    + intros p Hp. cbn [files wc]. destruct (decide (p = "t/1_16k_wavs")) as [->|Hne].
      * by rewrite lookup_insert_eq.
      * by rewrite lookup_insert_ne.
    + intros p Hp. cbn [files wc]. destruct (decide (p = "t/1_16k_wavs")) as [->|Hne].
      * rewrite lookup_insert_eq. by eexists.
      * by rewrite lookup_insert_ne.
    + intros p _. cbn [files wc]. destruct (decide (p = "t/1_16k_wavs")) as [->|Hne].
      * right. split; [vm_compute; reflexivity|by rewrite lookup_insert_eq].
      * left. by rewrite lookup_insert_ne.
Defined.

(** ** Names and paths *)

Section Names.

Implicit Types (a b n p s : string).

Lemma append_assoc a b s : (a ++ b) ++ s = a ++ b ++ s.
Proof.
  induction a as [|c a IH]; [done|].
  change (String c ((a ++ b) ++ s) = String c (a ++ b ++ s)). by rewrite IH.
Qed.

Lemma startswith_app p a b :
  Str.startswith p a = true → Str.startswith p (a ++ b) = true.
Proof.
  revert a. induction p as [|c p IH]; intros a; [done|].
  destruct a as [|c' a]; [done|]. cbn [Str.startswith append].
  change (String c' a ++ b) with (String c' (a ++ b)). cbn [Str.startswith].
  destruct (Ascii.eqb c c'); [apply IH|done].
Qed.

Lemma contains_app_l p a b :
  Str.contains p a = true → Str.contains p (a ++ b) = true.
Proof.
  induction a as [|c a IH].
  - cbn [Str.contains]. rewrite orb_false_r. intros H.
    destruct p; [by destruct b|done].
  - change (String c a ++ b) with (String c (a ++ b)). cbn [Str.contains].
    intros H. apply orb_true_iff in H as [H|H].
    + apply (startswith_app p (String c a) b) in H.
      change (String c a ++ b) with (String c (a ++ b)) in H. by rewrite H.
    + rewrite IH by done. apply orb_true_r.
Qed.

Lemma contains_app_r p a b :
  Str.contains p b = true → Str.contains p (a ++ b) = true.
Proof.
  intros H. induction a as [|c a IH]; [done|].
  change (String c a ++ b) with (String c (a ++ b)). cbn [Str.contains].
  rewrite IH. apply orb_true_r.
Qed.

Lemma no_slash_cons c s :
  Str.contains "/" (String c s) = false ↔ c ≠ "/"%char ∧ Str.contains "/" s = false.
Proof.
  cbn [Str.contains Str.startswith].
  destruct (Ascii.eqb_spec "/" c) as [<-|Hne].
  - split; [done|]. by intros [? _].
  - cbn [orb]. split; [intros H; split; congruence|by intros [_ ?]].
Qed.

Lemma no_slash_start n : Str.contains "/" n = false → Str.startswith "/" n = false.
Proof.
  destruct n as [|c n]; [done|]. intros [Hc _]%no_slash_cons.
  cbn [Str.startswith]. destruct (Ascii.eqb_spec "/" c); [congruence|done].
Qed.

(** The joined path when the second part is not absolute. *)
Lemma join_relative a b :
  Str.startswith "/" b = false →
  Path.join a b
  = if String.eqb a "" || Str.endswith "/" a then a ++ b else a ++ "/" ++ b.
Proof. intros H. unfold Path.join. by rewrite H. Qed.

Lemma contains_join p a b :
  Str.startswith "/" b = false →
  Str.contains p a = true → Str.contains p (Path.join a b) = true.
Proof.
  intros Hb Ha. rewrite join_relative by done.
  destruct (_ || _); by apply contains_app_l.
Qed.

(** Whether a string ends with a slash is seen at its end. *)
Lemma endswith_slash_app a b :
  b ≠ "" → Str.endswith "/" (a ++ b) = Str.endswith "/" b.
Proof.
  intros Hb. induction a as [|c a IH]; [done|].
  change (String c a ++ b) with (String c (a ++ b)). cbn [Str.endswith].
  rewrite IH. replace (String.eqb "/" (String c (a ++ b))) with false; [done|].
  symmetry. apply String.eqb_neq. intros [= _ H].
  destruct a; [by destruct b|done].
Qed.

Lemma no_slash_end n : Str.contains "/" n = false → Str.endswith "/" n = false.
Proof.
  induction n as [|c n IH]; [done|]. intros [Hc Hn]%no_slash_cons.
  cbn [Str.endswith]. rewrite IH by done.
  replace (String.eqb "/" (String c n)) with false; [done|].
  symmetry. apply String.eqb_neq. by intros [= <- _].
Qed.

Lemma rstrip_slash_id a : Str.endswith "/" a = false → Str.rstrip_slash a = a.
Proof.
  induction a as [|c a IH]; [done|]. cbn [Str.endswith Str.rstrip_slash].
  intros [Hc Ha]%orb_false_iff. rewrite IH by done.
  destruct a as [|c' a]; [|done].
  destruct (Ascii.eqb_spec c "/") as [->|]; [discriminate Hc|done].
Qed.

Lemma rstrip_slash_app_slash a : Str.rstrip_slash (a ++ "/") = Str.rstrip_slash a.
Proof.
  induction a as [|c a IH]; [done|].
  change (String c a ++ "/") with (String c (a ++ "/")). cbn [Str.rstrip_slash].
  by rewrite IH.
Qed.

Lemma rsplit_slash_plain n :
  Str.contains "/" n = false → Str.rsplit_slash n = ("", n).
Proof.
  induction n as [|c n IH]; [done|]. intros [Hc Hn]%no_slash_cons.
  cbn [Str.rsplit_slash]. rewrite IH by done.
  destruct (Ascii.eqb_spec c "/"); [congruence|done].
Qed.

Lemma rsplit_slash_app a n :
  Str.contains "/" n = false → Str.rsplit_slash (a ++ "/" ++ n) = (a ++ "/", n).
Proof.
  intros Hn. induction a as [|c a IH].
  - change ("" ++ "/" ++ n) with (String "/" n). cbn [Str.rsplit_slash].
    by rewrite rsplit_slash_plain.
  - change (String c a ++ "/" ++ n) with (String c (a ++ "/" ++ n)).
    cbn [Str.rsplit_slash]. rewrite IH. by destruct a.
Qed.

(** The parent of an entry is the directory it was joined to. *)
Lemma dirname_join_entry a n :
  a ≠ "" → Str.endswith "/" a = false →
  Str.contains "/" n = false →
  Path.join a n = a ++ "/" ++ n ∧ Path.dirname (Path.join a n) = a.
Proof.
  intros Ha Hend Hn.
  assert (Hjoin : Path.join a n = a ++ "/" ++ n).
  { rewrite join_relative by (by apply no_slash_start). rewrite Hend.
    by destruct a. }
  split; [exact Hjoin|]. rewrite Hjoin. unfold Path.dirname, Path.split.
  rewrite rsplit_slash_app by done.
  rewrite rstrip_slash_app_slash, rstrip_slash_id by done. by destruct a.
Qed.

Lemma rsplit_tail_no_slash s : Str.contains "/" (Str.rsplit_slash s).2 = false.
Proof.
  induction s as [|c s IH]; [done|]. cbn [Str.rsplit_slash].
  destruct (Str.rsplit_slash s) as [[|h0 h] t]; cbn [snd] in *; [|done].
  destruct (Ascii.eqb_spec c "/") as [->|Hne]; cbn [snd]; [done|].
  by apply no_slash_cons.
Qed.

Lemma basename_no_slash p : Str.contains "/" (Path.basename p) = false.
Proof.
  unfold Path.basename, Path.split. pose proof (rsplit_tail_no_slash p) as H.
  destruct (Str.rsplit_slash p) as [head tail]. cbn [snd] in H.
  by destruct (Str.rstrip_slash head).
Qed.

(** An entry of a directory is a name: it is not empty, it has no slash,
    and the directory joined with it is a path of the file system. *)
Lemma entries_names (f : gmap string node) (d n : string) :
  n ∈ Os.entries f d →
  n ≠ "" ∧ Str.contains "/" n = false ∧ is_Some (f !! Path.join d n).
Proof.
  unfold Os.entries. intros H.
  apply list_elem_of_omap in H as (k & Hk & H).
  destruct (negb (String.eqb (Path.basename k) "")) eqn:Hne; [|done].
  destruct (String.eqb_spec (Path.join d (Path.basename k)) k) as [Hjoin|]; [|done].
  injection H as <-. split; [|split].
  - intros E. rewrite E in Hne. discriminate Hne.
  - apply basename_no_slash.
  - rewrite Hjoin. apply list_elem_of_fmap in Hk as ([k' v] & -> & Hkv).
    apply elem_of_map_to_list in Hkv. by eexists.
Qed.

Lemma join_entries_shape sub f :
  sub ≠ "" → Str.contains "/" sub = false → Str.contains "/" f = false →
  Path.join sub f = sub ++ "/" ++ f ∧ Str.startswith "/" (Path.join sub f) = false.
Proof.
  intros Hne Hsub Hf.
  destruct (dirname_join_entry sub f Hne (no_slash_end _ Hsub) Hf) as [-> _].
  split; [done|]. destruct sub as [|c sub]; [done|].
  apply no_slash_cons in Hsub as [Hc _].
  change (String c sub ++ "/" ++ f) with (String c (sub ++ "/" ++ f)).
  cbn [Str.startswith]. destruct (Ascii.eqb_spec "/" c); [congruence|done].
Qed.

(** An output directory is not empty and does not end with a slash. *)
Lemma join_fixed_name t n :
  n ≠ "" → Str.contains "/" n = false →
  Path.join t n ≠ "" ∧ Str.endswith "/" (Path.join t n) = false.
Proof.
  intros Hne Hn. rewrite join_relative by (by apply no_slash_start).
  destruct (_ || _).
  - split; [destruct t, n; done|].
    rewrite endswith_slash_app by done. by apply no_slash_end.
  - split; [by destruct t|].
    rewrite (endswith_slash_app t ("/" ++ n)) by done.
    rewrite (endswith_slash_app "/" n) by done. by apply no_slash_end.
Qed.

End Names.

(** ** The lists of waves *)

Section Wave_lists.

(** The names that [extract_f0] lists are relative. *)
Lemma list_names_relative dataset_dir w w' (names : list string) (name : string) :
  list_names dataset_dir w = (w', Ok names) →
  name ∈ names → Str.startswith "/" name = false.
Proof.
  intros Hnames Hname.
  destruct (list_names_shape _ _ _ _ Hnames name Hname)
    as [[Hentry _]|(sub & f & Hsub & _ & Hf & _ & ->)].
  - apply entries_names in Hentry as (_ & Hn & _). by apply no_slash_start.
  - apply entries_names in Hsub as (Hne & Hs & _).
    apply entries_names in Hf as (_ & Hf & _).
    by apply join_entries_shape.
Qed.

Lemma omap_none {A B} (f : A → option B) (l : list A) :
  (∀ x, x ∈ l → f x = None) → omap f l = [].
Proof.
  induction l as [|x l IH]; [done|]. intros H. cbn [omap list_omap].
  rewrite (H x) by left. apply IH. intros y Hy. apply H. by right.
Qed.

(** The list [todo] of [extract_feature] holds the entries of the
    directories of [wav_dir], one level down, and nothing else. *)
Lemma list_todo_shape wav_dir w w' (todo : list string) :
  list_todo wav_dir w = (w', Ok todo) →
  ∀ file, file ∈ todo →
    ∃ dir f,
      dir ∈ Os.entries (files w) wav_dir ∧
      Os.isdir (files w) (Path.join wav_dir dir) = true ∧
      f ∈ Os.entries (files w) (Path.join wav_dir dir) ∧
      file = Path.join dir f.
Proof.
  unfold list_todo. intros H file Hfile.
  apply bind_ok in H as (w1 & top & Htop & H).
  apply listdir_ok in Htop as (-> & -> & _).
  apply bind_ok in H as (w2 & chunks & Hchunks & H).
  injection H as _ <-.
  apply collect_ok in Hchunks as [_ Hall]; [|intros x; quiet_auto].
  apply list_elem_of_In, in_concat in Hfile as (chunk & Hchunk & Hin).
  apply list_elem_of_In in Hchunk, Hin.
  apply list_elem_of_lookup in Hchunk as [i Hi].
  destruct (Forall2_lookup_r _ _ _ _ _ Hall Hi) as (dir & Hd & Hrun).
  apply list_elem_of_lookup_2 in Hd. rewrite elem_of_sorted in Hd.
  unfold bind, Os.isdir_ in Hrun.
  destruct (Os.isdir (files w) (Path.join wav_dir dir)) eqn:Hdir.
  - destruct (Os.listdir _ w) as [w3 [sub|e]] eqn:Hsub; [|done].
    apply listdir_ok in Hsub as (-> & -> & _).
    injection Hrun as <-.
    apply list_elem_of_fmap in Hin as (f & -> & Hf).
    rewrite elem_of_sorted in Hf. by exists dir, f.
  - injection Hrun as <-. by apply elem_of_nil in Hin.
Qed.

End Wave_lists.

(** X11: [extract_f0] leaves out every wave whose path has [spec] in it,
    and the path starts with [training_dir]: in a training directory with
    [spec] in its own path no work item is built at all, whatever waves it
    holds. *)
Theorem spec_in_training_dir_skips_all
    (training_dir : string) (w w' : world) (paths : list work_item) :
  Str.contains "spec" training_dir = true →
  extract_f0_setup training_dir w = (w', Ok (Some paths)) →
  paths = [].
Proof.
  intros Hspec Hsetup.
  destruct (extract_f0_setup_paths _ _ _ _ Hsetup)
    as (wa & wb & names & _ & _ & Hnames & -> & _).
  unfold build_paths. apply omap_none. intros name Hname.
  rewrite contains_join; [done| |].
  - eapply list_names_relative; eauto.
  - by apply contains_join.
Qed.

Lemma spec_in_training_dir_skips_all_witness :
  let w := World (list_to_map [ ("inspect", Dir);
                                ("inspect/1_16k_wavs", Dir);
                                ("inspect/1_16k_wavs/a.wav", File (Bytes "RIFF")) ]) [] in
  extract_f0_setup "inspect" w = ((extract_f0_setup "inspect" w).1, Ok (Some [])).
Proof.
  intros w.
  assert (Hrun : ∃ paths, extract_f0_setup "inspect" w
                   = ((extract_f0_setup "inspect" w).1, Ok (Some paths))).
  { eexists. vm_compute. reflexivity. }
  destruct Hrun as [paths Hrun].
  rewrite (spec_in_training_dir_skips_all "inspect" w _ paths eq_refl Hrun) in Hrun.
  exact Hrun.
Defined.

(** X12: [extract_feature] takes its files from the directories under
    [1_16k_wavs] only: every entry of [todo] is a directory of [wav_dir]
    joined with one of its entries, so that a wave that lies in [wav_dir]
    itself, which [extract_f0] does process, gets no features. *)
Theorem todo_one_level_down
    (wav_dir : string) (w w' : world) (todo : list string) (file : string) :
  list_todo wav_dir w = (w', Ok todo) →
  file ∈ todo →
  Str.contains "/" file = true ∧
  ∃ dir f,
    Os.isdir (files w) (Path.join wav_dir dir) = true ∧
    is_Some (files w !! Path.join (Path.join wav_dir dir) f) ∧
    file = Path.join dir f.
Proof.
  intros Htodo Hfile.
  destruct (list_todo_shape _ _ _ _ Htodo file Hfile) as (dir & f & Hd & Hdir & Hf & ->).
  apply entries_names in Hd as (Hne & Hdn & _).
  apply entries_names in Hf as (_ & Hfn & Hsome).
  split.
  - destruct (join_entries_shape dir f Hne Hdn Hfn) as [-> _].
    apply contains_app_r. done.
  - by exists dir, f.
Qed.

Lemma todo_one_level_down_witness :
  Str.contains "/" "0/a.wav" = true ∧
  ∃ dir f,
    Os.isdir (files demo_world) (Path.join "t/1_16k_wavs" dir) = true ∧
    is_Some (files demo_world !! Path.join (Path.join "t/1_16k_wavs" dir) f) ∧
    "0/a.wav" = Path.join dir f.
Proof.
  apply (todo_one_level_down "t/1_16k_wavs" demo_world demo_world
           ["0/a.wav"; "0/b.wav"] "0/a.wav").
  - vm_compute. reflexivity.
  - apply list_elem_of_here.
Defined.

(** X13: the directory that [extract_f0] makes for the outputs of a wave
    is the mirror of the directory of the wave: for a wave at [sub/f] the
    parents of the two output paths are [2a_f0/sub] and [2b_f0nsf/sub]
    under [training_dir], for a wave in [1_16k_wavs] itself they are
    [2a_f0] and [2b_f0nsf]. *)
Theorem output_parent_is_mirror
    (training_dir : string) (w w' : world) (paths : list work_item)
    (inp_path opt_path1 opt_path2 : string) :
  let dataset_dir := Path.join training_dir "1_16k_wavs" in
  let opt_dir_f0 := Path.join training_dir "2a_f0" in
  let opt_dir_f0_nsf := Path.join training_dir "2b_f0nsf" in
  extract_f0_setup training_dir w = (w', Ok (Some paths)) →
  (inp_path, opt_path1, opt_path2) ∈ paths →
  (Path.dirname inp_path = dataset_dir ∧
   Path.dirname opt_path1 = opt_dir_f0 ∧
   Path.dirname opt_path2 = opt_dir_f0_nsf) ∨
  (∃ sub : string,
     sub ≠ "" ∧ Str.contains "/" sub = false ∧
     Path.dirname inp_path = Path.join dataset_dir sub ∧
     Path.dirname opt_path1 = Path.join opt_dir_f0 sub ∧
     Path.dirname opt_path2 = Path.join opt_dir_f0_nsf sub).
Proof.
  intros dataset_dir opt_dir_f0 opt_dir_f0_nsf Hsetup Hitem.
  destruct (extract_f0_setup_paths _ _ _ _ Hsetup)
    as (wa & wb & names & _ & _ & Hnames & Hpaths & _).
  fold dataset_dir opt_dir_f0 opt_dir_f0_nsf in Hnames, Hpaths.
  rewrite Hpaths in Hitem.
  apply build_paths_elem in Hitem as (name & Hname & [= -> -> ->]).
  assert (Hdirs : ∀ n, n ≠ "" → Str.contains "/" n = false →
            Path.join training_dir n ≠ "" ∧
            Str.endswith "/" (Path.join training_dir n) = false)
    by (intros n; apply join_fixed_name).
  destruct (Hdirs "1_16k_wavs") as [Hd1 Hd2]; [done..|].
  destruct (Hdirs "2a_f0") as [Hf1 Hf2]; [done..|].
  destruct (Hdirs "2b_f0nsf") as [Hn1 Hn2]; [done..|].
  fold dataset_dir in Hd1, Hd2. fold opt_dir_f0 in Hf1, Hf2.
  fold opt_dir_f0_nsf in Hn1, Hn2.
  destruct (list_names_shape _ _ _ _ Hnames name Hname)
    as [[Hentry _]|(sub & f & Hsub & _ & Hf & _ & ->)].
  - left. apply entries_names in Hentry as (_ & Hn & _).
    by repeat split; apply dirname_join_entry.
  - right. apply entries_names in Hsub as (Hne & Hs & _).
    apply entries_names in Hf as (_ & Hfn & _).
    exists sub. split; [done|]. split; [done|].
    destruct (join_entries_shape sub f Hne Hs Hfn) as [Hjoin Hrel].
    assert (Hdeep : ∀ a, a ≠ "" → Str.endswith "/" a = false →
              Path.dirname (Path.join a (Path.join sub f)) = Path.join a sub).
    { intros a Ha Hend.
      destruct (dirname_join_entry a sub Ha Hend Hs) as [Hjs _].
      assert (HA : a ++ "/" ++ sub ≠ "") by (by destruct a).
      assert (HAend : Str.endswith "/" (a ++ "/" ++ sub) = false).
      { rewrite (endswith_slash_app a ("/" ++ sub)) by done.
        rewrite (endswith_slash_app "/" sub) by done. by apply no_slash_end. }
      destruct (dirname_join_entry (a ++ "/" ++ sub) f HA HAend Hfn) as [Hj Hdir].
      rewrite Hj in Hdir.
      rewrite join_relative, Hend by done.
      replace (String.eqb a "") with false by (by destruct a). cbn [orb].
      rewrite Hjoin, Hjs.
      replace (a ++ "/" ++ sub ++ "/" ++ f) with ((a ++ "/" ++ sub) ++ "/" ++ f);
        [exact Hdir|].
      by rewrite !append_assoc. }
    by rewrite !Hdeep.
Qed.

Lemma output_parent_is_mirror_witness :
  (Path.dirname "t/1_16k_wavs/0/a.wav" = Path.join "t" "1_16k_wavs" ∧
   Path.dirname "t/2a_f0/0/a.wav" = Path.join "t" "2a_f0" ∧
   Path.dirname "t/2b_f0nsf/0/a.wav" = Path.join "t" "2b_f0nsf") ∨
  (∃ sub : string,
     sub ≠ "" ∧ Str.contains "/" sub = false ∧
     Path.dirname "t/1_16k_wavs/0/a.wav" = Path.join (Path.join "t" "1_16k_wavs") sub ∧
     Path.dirname "t/2a_f0/0/a.wav" = Path.join (Path.join "t" "2a_f0") sub ∧
     Path.dirname "t/2b_f0nsf/0/a.wav" = Path.join (Path.join "t" "2b_f0nsf") sub).
Proof.
  apply (output_parent_is_mirror "t" demo_world demo_world_ready
           [("t/1_16k_wavs/0/a.wav", "t/2a_f0/0/a.wav", "t/2b_f0nsf/0/a.wav");
            ("t/1_16k_wavs/0/b.wav", "t/2a_f0/0/b.wav", "t/2b_f0nsf/0/b.wav");
            ("t/1_16k_wavs/c.wav", "t/2a_f0/c.wav", "t/2b_f0nsf/c.wav")]).
  - vm_compute. reflexivity.
  - apply list_elem_of_here.
Defined.

(** ** The worker of the embedding extraction *)

Section Feature_worker.

Context {L : Libraries}.

Lemma emits_process_outputs model cfg is_768 wav_dir out_dir (todo : list string) :
  emits (λ e, ∀ p c, e = EvSave p c →
                ∃ file, file ∈ todo ∧
                  p = npy_name (Path.join out_dir (Str.replace "wav" "npy" file)))
    (process model cfg is_768 wav_dir out_dir todo).
Proof.
  unfold process. induction todo as [|file todo IH]; cbn [for_each].
  - apply emits_ret.
  - apply emits_bind.
    + unfold process_step, process_file. emits_auto.
      * eapply emits_mono; [|apply emits_readwave]. done.
      * intros p c [= <- <-]. exists file. split; [left|done].
    + intros _. eapply emits_mono; [|exact IH].
      intros e He p c Hpc. destruct (He p c Hpc) as (f & Hf & ->).
      exists f. split; [by right|done].
Qed.

End Feature_worker.

(** X14: [process] changes no file but the outputs of the files of its
    list: a path that is the output path of none of them holds after
    [process] what it held before, or is a directory that [process] has
    made; the waves are not touched, and nothing is deleted. *)
Theorem process_touches_outputs_only {L : Libraries}
    (model : embedder) (cfg : option bool) (is_feats_dim_768 : bool)
    (wav_dir out_dir : string) (todo : list string) (w : world) (p : string) :
  (∀ file, file ∈ todo →
     p ≠ npy_name (Path.join out_dir (Str.replace "wav" "npy" file))) →
  let w' := (process model cfg is_feats_dim_768 wav_dir out_dir todo w).1 in
  files w' !! p = files w !! p ∨ (files w !! p = None ∧ files w' !! p = Some Dir).
Proof.
  intros Hp w'.
  assert (Hf : follows (λ e, ∀ p c, e = EvSave p c →
                          ∃ file, file ∈ todo ∧
                            p = npy_name (Path.join out_dir
                                            (Str.replace "wav" "npy" file))) w w').
  { subst w'. destruct (process _ _ _ _ _ _ w) as [w1 r] eqn:Hrun.
    eapply emits_process_outputs; eauto. }
  destruct Hf as (evs & _ & HP & _ & _ & Hframe).
  apply Hframe. intros c Hc. rewrite Forall_forall in HP.
  destruct (HP _ Hc p c eq_refl) as (file & Hfile & Heq).
  by apply (Hp file).
Qed.

Lemma process_touches_outputs_only_witness :
  let w' := (process (L := demo_libraries) (FairseqModel (L := demo_libraries) tt)
               None false "t/1_16k_wavs" "t/3_feature256" ["0/a.wav"] demo_world).1 in
  files w' !! "t/1_16k_wavs/0/a.wav" = files demo_world !! "t/1_16k_wavs/0/a.wav" ∨
  (files demo_world !! "t/1_16k_wavs/0/a.wav" = None ∧
   files w' !! "t/1_16k_wavs/0/a.wav" = Some Dir).
Proof.
  apply (process_touches_outputs_only (L := demo_libraries)
           (FairseqModel (L := demo_libraries) tt) None false
           "t/1_16k_wavs" "t/3_feature256" ["0/a.wav"] demo_world).
  intros file Hfile. apply list_elem_of_singleton in Hfile as ->.
  intros H. vm_compute in H. discriminate H.
Defined.

(** X15: a turn of [process] that comes to its end either leaves the
    output file, and then every later turn of that file is a skip, whatever
    model it is given, or it has printed that the features contain NaN and
    has saved nothing. *)
Theorem process_second_turn {L : Libraries}
    (model : embedder) (cfg : option bool) (is_feats_dim_768 : bool)
    (wav_dir out_dir file : string) (w w' : world) :
  Str.endswith ".wav" file = true →
  process_file model cfg is_feats_dim_768 wav_dir out_dir file w = (w', Ok tt) →
  (∀ (w'' : world) (model' : embedder) (cfg' : option bool) (is_768' : bool),
     follows (λ _, True) w' w'' →
     process_step model' cfg' is_768' wav_dir out_dir file w'' = (w'', Ok tt)) ∨
  (log w' = (log w ++ [EvEmbed (Path.join wav_dir file);
                       EvPrint (ContainsNan file)])%list ∧
   ∀ p c, files w' !! p = Some (File c) ↔ files w !! p = Some (File c)).
Proof.
  intros Hwav Hrun.
  assert (Hleft : Os.path_exists (files w')
                    (Path.join out_dir (Str.replace "wav" "npy" file)) = true →
            ∀ (w'' : world) (model' : embedder) (cfg' : option bool) (is_768' : bool),
              follows (λ _, True) w' w'' →
              process_step model' cfg' is_768' wav_dir out_dir file w'' = (w'', Ok tt)).
  { intros Hex w'' model' cfg' is_768' Hlater.
    apply process_step_skip. eapply follows_exists; eauto. }
  destruct (Os.path_exists (files w)
              (Path.join out_dir (Str.replace "wav" "npy" file))) eqn:Hskip.
  { left. apply Hleft. revert Hrun. unfold process_file, bind, Os.exists_.
    rewrite Hwav, Hskip. by intros [= <-]. }
  destruct (process_file_ok _ _ _ _ _ _ _ _ Hwav Hskip Hrun)
    as (w1 & wave & feats & Hm & _ & _ & Hend).
  pose proof (makedirs_follows _ _ _ _ Hm) as Hf.
  destruct (Nat.eqb (Np.count_nan feats) 0).
  - left. apply Hleft. apply np_save_ok in Hend.
    rewrite npy_name_out in Hend by done. subst w'. cbn [files].
    apply path_exists_insert. by right.
  - right. injection Hend as <-. cbn [files log]. split.
    + by rewrite (follows_silent_log _ _ Hf), <- app_assoc.
    + intros p c. apply follows_no_save_files. eapply follows_mono; [|exact Hf]. done.
Qed.

Lemma process_second_turn_witness :
  let model := FairseqModel (L := demo_libraries) tt in
  let w' := (process_file model None false "t/1_16k_wavs" "t/3_feature256"
               "0/b.wav" demo_world).1 in
  (∀ (w'' : world) (model' : @embedder demo_libraries) (cfg' : option bool)
     (is_768' : bool),
     follows (λ _, True) w' w'' →
     process_step model' cfg' is_768' "t/1_16k_wavs" "t/3_feature256" "0/b.wav" w''
     = (w'', Ok tt)) ∨
  (log w' = (log demo_world ++ [EvEmbed (Path.join "t/1_16k_wavs" "0/b.wav");
                                EvPrint (ContainsNan "0/b.wav")])%list ∧
   ∀ p c, files w' !! p = Some (File c) ↔ files demo_world !! p = Some (File c)).
Proof.
  intros model w'.
  apply (process_second_turn (L := demo_libraries) model None false
           "t/1_16k_wavs" "t/3_feature256" "0/b.wav" demo_world w').
  - reflexivity.
  - vm_compute. reflexivity.
Defined.

(** ** The channels of a wave *)

Section Channels.


End Channels.



(** ** The ends of the fan-out *)

(** X17: a single worker gets the whole list in its order, and a worker
    whose rank is not below the number of items gets the empty batch, on
    which [go] and [process] do nothing at all. *)
Theorem fan_out_edges {L : Libraries}
    (self : FeatureInput) (paths : list work_item) (f0_method : string)
    (model : embedder) (cfg : option bool) (is_feats_dim_768 : bool)
    (wav_dir out_dir : string) (todo : list string) (i n : nat) (w : world) :
  (1 ≤ n)%nat → (length paths ≤ i)%nat → (length todo ≤ i)%nat →
  slice_step paths 0 1 = paths ∧
  slice_step todo 0 1 = todo ∧
  go self (slice_step paths i n) f0_method w = (w, Ok tt) ∧
  process model cfg is_feats_dim_768 wav_dir out_dir (slice_step todo i n) w = (w, Ok tt).
Proof.
  intros Hn Hpaths Htodo.
  assert (Hwhole : ∀ (A : Type) (l : list A), slice_step l 0 1 = l).
  { intros A l. unfold slice_step. induction l as [|x l IH]; [done|].
    cbn [stride pred]. by rewrite IH. }
  assert (Hidle : ∀ (A : Type) (l : list A), (length l ≤ i)%nat → slice_step l i n = []).
  { intros A l Hl. apply nil_length_inv. unfold slice_step.
    rewrite stride_length by done. apply Nat.div_small. lia. }
  split; [apply Hwhole|]. split; [apply Hwhole|].
  by rewrite !Hidle.
Qed.

Lemma fan_out_edges_witness :
  slice_step ["0/a.wav"; "0/b.wav"] 0 1 = ["0/a.wav"; "0/b.wav"] ∧
  process (L := demo_libraries) (FairseqModel (L := demo_libraries) tt) None false
    "t/1_16k_wavs" "t/3_feature256" (slice_step ["0/a.wav"; "0/b.wav"] 2 4) demo_world
  = (demo_world, Ok tt).
Proof.
  destruct (fan_out_edges (L := demo_libraries) (FeatureInput_init 16000 160)
              [("a", "b", "c")] "pm" (FairseqModel (L := demo_libraries) tt) None false
              "t/1_16k_wavs" "t/3_feature256" ["0/a.wav"; "0/b.wav"] 2 4 demo_world)
    as (_ & Hwhole & _ & Hidle); [lia|cbn; lia|cbn; lia|].
  split; [exact Hwhole|exact Hidle].
Defined.


(** ** The names of the audio files *)

Section Strips.

Implicit Types (c d x : ascii) (s p : string).

Lemma append_empty_r s : s ++ "" = s.
Proof.
  induction s as [|x s IH]; [done|].
  change (String x s ++ "") with (String x (s ++ "")). by rewrite IH.
Qed.

Lemma lstrip_idem c s : Utils.lstrip c (Utils.lstrip c s) = Utils.lstrip c s.
Proof.
  induction s as [|a s IH]; [done|]. cbn [Utils.lstrip].
  destruct (Ascii.eqb a c) eqn:E; [done|]. cbn [Utils.lstrip]. by rewrite E.
Qed.

Lemma lstrip_length c s : (String.length (Utils.lstrip c s) ≤ String.length s)%nat.
Proof.
  induction s as [|x s IH]; [done|]. cbn [Utils.lstrip].
  destruct (Ascii.eqb x c); cbn [String.length]; lia.
Qed.

(** A string that [lstrip] leaves alone does not start with the character. *)
Lemma lstrip_cons_id c x s :
  Utils.lstrip c (String x s) = String x s → Ascii.eqb x c = false.
Proof.
  cbn [Utils.lstrip]. destruct (Ascii.eqb x c); [|done]. intros H.
  pose proof (lstrip_length c s) as Hlen. rewrite H in Hlen.
  cbn [String.length] in Hlen. lia.
Qed.

Lemma rstrip_cons_id c (a : ascii) s :
  Utils.rstrip c (String a s) = String a s → s = "" ∨ Utils.rstrip c s = s.
Proof.
  cbn [Utils.rstrip]. destruct (Utils.rstrip c s) as [|r0 r] eqn:E.
  - destruct (Ascii.eqb a c); [done|]. intros [= <-]. by left.
  - intros [= <-]. by right.
Qed.

Lemma rstrip_idem c s : Utils.rstrip c (Utils.rstrip c s) = Utils.rstrip c s.
Proof.
  induction s as [|a s IH]; [done|]. cbn [Utils.rstrip].
  destruct (Utils.rstrip c s) as [|r0 r] eqn:E.
  - destruct (Ascii.eqb a c) eqn:Ea; [done|]. cbn [Utils.rstrip]. by rewrite Ea.
  - cbn [Utils.rstrip] in *. by rewrite IH.
Qed.

(** What is stripped at its end stays so when it is stripped in front. *)
Lemma rstrip_lstrip c s :
  Utils.rstrip c s = s → Utils.rstrip c (Utils.lstrip c s) = Utils.lstrip c s.
Proof.
  induction s as [|a s IH]; [done|]. intros H. cbn [Utils.lstrip].
  destruct (Ascii.eqb a c); [|done].
  destruct (rstrip_cons_id _ _ _ H) as [->|Hs]; [done|]. by apply IH.
Qed.

Lemma strip_ends c s :
  Utils.lstrip c (Utils.strip c s) = Utils.strip c s ∧
  Utils.rstrip c (Utils.strip c s) = Utils.strip c s.
Proof.
  unfold Utils.strip. split; [apply lstrip_idem|].
  apply rstrip_lstrip, rstrip_idem.
Qed.

Lemma rstrip_app c (a b : string) :
  b ≠ "" → Utils.rstrip c b = b → Utils.rstrip c (a ++ b) = a ++ b.
Proof.
  intros Hne Hb. induction a as [|x a IH]; [done|].
  change (String x a ++ b) with (String x (a ++ b)). cbn [Utils.rstrip].
  rewrite IH. destruct a; [by destruct b|done].
Qed.

Lemma rstrip_app_run c (a : string) (n : nat) :
  Utils.rstrip c (a ++ string_of_list_ascii (replicate n c)) = Utils.rstrip c a.
Proof.
  induction a as [|x a IH].
  - change ("" ++ ?b) with b. induction n as [|n IHn]; [done|].
    cbn [replicate string_of_list_ascii Utils.rstrip]. rewrite IHn.
    by rewrite Ascii.eqb_refl.
  - change (String x a ++ ?b) with (String x (a ++ b)). cbn [Utils.rstrip].
    by rewrite IH.
Qed.

Lemma lstrip_run c (n : nat) s :
  Utils.lstrip c (string_of_list_ascii (replicate n c) ++ s) = Utils.lstrip c s.
Proof.
  induction n as [|n IH]; [done|].
  cbn [replicate string_of_list_ascii].
  change (String c ?a ++ s) with (String c (a ++ s)). cbn [Utils.lstrip].
  by rewrite Ascii.eqb_refl.
Qed.

(** A run of one character around a string that neither starts nor ends
    with it is stripped, and nothing more. *)
Lemma strip_run c (n m : nat) s :
  Utils.lstrip c s = s → Utils.rstrip c s = s →
  Utils.strip c (string_of_list_ascii (replicate n c) ++ s
                 ++ string_of_list_ascii (replicate m c)) = s.
Proof.
  intros Hl Hr. unfold Utils.strip.
  rewrite <- append_assoc, rstrip_app_run.
  destruct s as [|x s].
  - rewrite append_empty_r. pose proof (rstrip_app_run c "" n) as H.
    change ("" ++ ?b) with b in H. by rewrite H.
  - rewrite rstrip_app by done. by rewrite lstrip_run.
Qed.

Lemma lstrip_other c d (n : nat) s :
  d ≠ c → Utils.lstrip c s = s →
  Utils.lstrip c (string_of_list_ascii (replicate n d) ++ s)
  = string_of_list_ascii (replicate n d) ++ s.
Proof.
  intros Hd Hs. destruct n as [|n]; [done|].
  cbn [replicate string_of_list_ascii].
  change (String d ?a ++ s) with (String d (a ++ s)). cbn [Utils.lstrip].
  by destruct (Ascii.eqb_spec d c).
Qed.

Lemma rstrip_other_run c d (n : nat) :
  d ≠ c →
  Utils.rstrip c (string_of_list_ascii (replicate n d))
  = string_of_list_ascii (replicate n d).
Proof.
  intros Hd. induction n as [|n IH]; [done|].
  cbn [replicate string_of_list_ascii Utils.rstrip]. rewrite IH.
  destruct (string_of_list_ascii (replicate n d)); [|done].
  by destruct (Ascii.eqb_spec d c).
Qed.

Lemma rstrip_other c d (n : nat) s :
  d ≠ c → Utils.rstrip c s = s →
  Utils.rstrip c (s ++ string_of_list_ascii (replicate n d))
  = s ++ string_of_list_ascii (replicate n d).
Proof.
  intros Hd Hs. destruct n as [|n].
  - cbn [replicate string_of_list_ascii]. by rewrite append_empty_r.
  - apply rstrip_app; [done|]. by apply rstrip_other_run.
Qed.

End Strips.

(** X18: [load_audio] gives [ffmpeg] a name that neither starts nor ends
    with a space, whatever name it is given. *)
Theorem clean_name_no_outer_space (file : string) :
  Utils.lstrip " " (Utils.clean_name file) = Utils.clean_name file ∧
  Utils.rstrip " " (Utils.clean_name file) = Utils.clean_name file.
Proof. unfold Utils.clean_name. apply strip_ends. Qed.

(** X19: the name that was copied with double quotes around it and spaces
    around them comes out of [load_audio] as it was: when [name] neither
    starts nor ends with a space, a double quote or a line feed, the
    spaces and the quotes around it are taken off and nothing else. *)
Theorem clean_name_unwraps (name : string) (s1 q1 q2 s2 : nat) :
  (∀ c, c ∈ [" "%char; Utils.quote; Utils.newline] →
        Utils.lstrip c name = name ∧ Utils.rstrip c name = name) →
  Utils.clean_name
    (string_of_list_ascii (replicate s1 " "%char)
     ++ (string_of_list_ascii (replicate q1 Utils.quote)
         ++ name ++ string_of_list_ascii (replicate q2 Utils.quote))
     ++ string_of_list_ascii (replicate s2 " "%char))
  = name.
Proof.
  intros Hplain.
  pose proof (Hplain " "%char ltac:(repeat constructor)) as [Hls Hrs].
  pose proof (Hplain Utils.quote ltac:(repeat constructor)) as [Hlq Hrq].
  pose proof (Hplain Utils.newline ltac:(repeat constructor)) as [Hln Hrn].
  unfold Utils.clean_name.
  rewrite strip_run.
  - rewrite (strip_run Utils.quote) by done.
    unfold Utils.strip at 3. rewrite Hrn, Hln.
    unfold Utils.strip at 2. rewrite Hrq, Hlq.
    unfold Utils.strip. by rewrite Hrs, Hls.
  - apply lstrip_other; [done|].
    destruct q2 as [|q2].
    + cbn [replicate string_of_list_ascii]. by rewrite append_empty_r.
    + destruct name as [|x name]; [done|].
      change (String x name ++ ?b) with (String x (name ++ b)).
      cbn [Utils.lstrip]. by rewrite (lstrip_cons_id _ _ _ Hls).
  - rewrite <- append_assoc. apply rstrip_other; [done|].
    destruct name as [|x name].
    + rewrite append_empty_r. by apply rstrip_other_run.
    + by apply rstrip_app.
Qed.

Lemma clean_name_unwraps_witness :
  Utils.clean_name
    (string_of_list_ascii (replicate 1 " "%char)
     ++ (string_of_list_ascii (replicate 1 Utils.quote)
         ++ "my dir/a.wav" ++ string_of_list_ascii (replicate 1 Utils.quote))
     ++ string_of_list_ascii (replicate 2 " "%char))
  = "my dir/a.wav".
Proof.
  apply (clean_name_unwraps "my dir/a.wav" 1 1 1 2).
  intros c Hc. repeat (apply elem_of_cons in Hc as [->|Hc]; [by split|]).
  by apply elem_of_nil in Hc.
Defined.

Section Buffers.

Variable float32 : ascii → ascii → ascii → ascii → Np.npfloat.

(** The samples of a buffer are a quarter of its bytes. *)
Lemma frombuffer_length (out : string) (x : list Np.npfloat) :
  Utils.frombuffer float32 out = Some x → String.length out = (4 * length x)%nat.
Proof.
  revert x. induction out as [out IH] using (induction_ltof1 _ String.length).
  unfold ltof in IH. intros x.
  destruct out as [|a [|b [|c [|d rest]]]]; cbn [Utils.frombuffer]; try done.
  - by intros [= <-].
  - destruct (Utils.frombuffer float32 rest) as [y|] eqn:E; [|done].
    intros [= <-]. cbn [String.length length].
    rewrite (IH rest) with (x := y); [lia|cbn [String.length]; lia|done].
Qed.

(** A buffer that is a whole number of floats is read. *)
Lemma frombuffer_whole (out : string) :
  (String.length out `mod` 4 = 0)%nat → is_Some (Utils.frombuffer float32 out).
Proof.
  induction out as [out IH] using (induction_ltof1 _ String.length).
  unfold ltof in IH. intros Hmod.
  destruct out as [|a [|b [|c [|d rest]]]]; cbn [Utils.frombuffer];
    try (cbn in Hmod; discriminate Hmod).
  - by eexists.
  - destruct (IH rest) as [y ->]; [cbn [String.length]; lia| |by eexists].
    cbn [String.length] in Hmod.
    replace (S (S (S (S (String.length rest))))) with (String.length rest + 1 * 4)%nat
      in Hmod by lia.
    by rewrite Nat.Div0.mod_add in Hmod.
Qed.

End Buffers.

(** X20: every failure of the [ffmpeg] run leaves [load_audio] as a
    [RuntimeError] about that failure; when the run returns, its bytes are
    read as floats of four bytes: a stream of [4 n] bytes gives [n]
    samples, and a stream that is no whole number of floats is refused. *)
Theorem load_audio_outcomes
    (ffmpeg_run : string → Z → result string)
    (float32 : ascii → ascii → ascii → ascii → Np.npfloat)
    (file : string) (sr : Z) :
  match ffmpeg_run (Utils.clean_name file) sr with
  | Raise e => Utils.load_audio ffmpeg_run float32 file sr = Utils.RuntimeError e
  | Ok out =>
      if Nat.eqb (String.length out `mod` 4) 0
      then ∃ x, Utils.load_audio ffmpeg_run float32 file sr = Utils.Samples x ∧
                (4 * length x = String.length out)%nat
      else Utils.load_audio ffmpeg_run float32 file sr = Utils.BufferValueError
  end.
Proof.
  unfold Utils.load_audio.
  destruct (ffmpeg_run (Utils.clean_name file) sr) as [out|e]; [|done].
  destruct (Nat.eqb_spec (String.length out `mod` 4) 0) as [Hmod|Hmod].
  - destruct (frombuffer_whole float32 out Hmod) as [x Hx]. rewrite Hx.
    exists x. split; [done|]. symmetry. by apply (frombuffer_length float32).
  - destruct (Utils.frombuffer float32 out) as [x|] eqn:Hx; [|done].
    apply (frombuffer_length float32) in Hx. exfalso. apply Hmod. rewrite Hx.
    rewrite Nat.mul_comm. apply Nat.Div0.mod_mul.
Qed.

